(** * SpotifyDL: the download job, the update job and the history log

    A shallow embedding of [src/SpotifyDL.py].  The two worker threads
    ([DownloadWorker.run], [UpdateWorker.run]) are written in a state and
    exception monad over an explicit world (working directory, file system,
    the ordered trace of signals and system calls); the pure helpers
    ([version_tuple], the asset choice, [add_to_history], the line parser)
    are plain functions.  The slots of the main window
    ([SpotifyDownloaderApp]: the start of a download, its end, the
    history, the settings) are written in the same monad over the window's
    widgets and files.

    Text is modelled as ASCII text ([string]); Python's Unicode-aware
    [str.isdigit], [str.lower] and [str.strip] are given on that range.
    The two marks of the history rows stand as their UTF-8 bytes.
    Python's [float] is binary64, taken from [SpecFloat].

    The first part holds the model, function by function as the source
    has them, and the sample inputs; the second part the properties. *)

From Stdlib Require Import ZArith List String Ascii Bool Lia.
From Stdlib Require Import DecimalString DecimalPos.
From Stdlib Require Import Floats.SpecFloat.
From stdpp Require Import base strings gmap.
Import ListNotations.

Local Open Scope string_scope.
Local Open Scope Z_scope.
Local Open Scope list_scope.

(** ** Exceptions and results *)

(** The subclasses of Python's [Exception] that the two jobs can meet.
    [str] is what [str(e)] prints and what the download job forwards. *)
Inductive exn : Type :=
| NameError (name : string)
| OSError (text : string)
| ZeroDivisionError
| OverflowError (text : string)
| ValueError (text : string)
| IndexError (text : string)
| OtherError (text : string).

Definition str (e : exn) : string :=
  match e with
  | NameError n => "name '" +:+ n +:+ "' is not defined"
  | OSError t => t
  | ZeroDivisionError => "division by zero"
  | OverflowError t => t
  | ValueError t => t
  | IndexError t => t
  | OtherError t => t
  end.

Inductive result (A : Type) : Type :=
| Ok (a : A)
| Raise (e : exn).
Arguments Ok {A} a.
Arguments Raise {A} e.

(** ** A state and exception monad

    A computation reads and updates a world and either returns a value or
    raises.  The world changes made before a raise are kept, as in Python. *)
Section Monad.
Context {W : Type}.

Definition M (A : Type) : Type := W -> result A * W.

Definition ret {A} (a : A) : M A := fun w => (Ok a, w).

Definition bind {A B} (m : M A) (k : A -> M B) : M B :=
  fun w =>
    match m w with
    | (Ok a, w') => k a w'
    | (Raise e, w') => (Raise e, w')
    end.

Definition raise {A} (e : exn) : M A := fun w => (Raise e, w).

Definition lift {A} (r : result A) : M A := fun w => (r, w).

Definition modify (f : W -> W) : M unit := fun w => (Ok tt, f w).

Definition gets {A} (f : W -> A) : M A := fun w => (Ok (f w), w).

(** [try: body except Exception as e: handler e] *)
Definition try_except {A} (body : M A) (handler : exn -> M A) : M A :=
  fun w =>
    match body w with
    | (Ok a, w') => (Ok a, w')
    | (Raise e, w') => handler e w'
    end.

(** [try: body finally: fin]; the clean-up runs on both paths, and an
    exception of the clean-up replaces the outcome of the body. *)
Definition try_finally {A} (body : M A) (fin : M unit) : M A :=
  fun w =>
    match body w with
    | (r, w') =>
        match fin w' with
        | (Ok _, w'') => (r, w'')
        | (Raise e, w'') => (Raise e, w'')
        end
    end.

Definition when (b : bool) (m : M unit) : M unit :=
  if b then m else ret tt.
End Monad.
Arguments M : clear implicits.

(** A computation respects a relation on worlds when every run of it,
    returning or raising, leads from a world to a related one. *)
Definition respects {W A : Type} (R : W -> W -> Prop) (m : M W A) : Prop :=
  forall w, R w (snd (m w)).

Declare Scope job_scope.
Delimit Scope job_scope with job.
Notation "x <- m ;; k" := (bind m (fun x => k))
  (at level 100, m at next level, right associativity) : job_scope.
Notation "m ;;; k" := (bind m (fun _ => k))
  (at level 100, right associativity) : job_scope.

(** ** Python's string operations, on ASCII text *)
Module Py.

Definition code (c : ascii) : N := N_of_ascii c.

(** [ch.isdigit()] *)
Definition isdigit (c : ascii) : bool :=
  ((48 <=? code c) && (code c <=? 57))%N.

(** [ch.isspace()]: tab, line feed, vertical tab, form feed, carriage
    return, the four separators 0x1c..0x1f, and space. *)
Definition isspace (c : ascii) : bool :=
  (((9 <=? code c) && (code c <=? 13))
   || ((28 <=? code c) && (code c <=? 32)))%N.

Definition lower_char (c : ascii) : ascii :=
  if ((65 <=? code c) && (code c <=? 90))%N
  then ascii_of_N (code c + 32) else c.

(** [s.lower()] *)
Fixpoint lower (s : string) : string :=
  match s with
  | EmptyString => EmptyString
  | String c t => String (lower_char c) (lower t)
  end.

(** [needle in hay] *)
Fixpoint contains (needle hay : string) : bool :=
  String.prefix needle hay
  || match hay with
     | EmptyString => false
     | String _ t => contains needle t
     end.

Definition rev (s : string) : string :=
  string_of_list_ascii (List.rev (list_ascii_of_string s)).

(** [s.endswith(suffix)] *)
Definition endswith (s suffix : string) : bool :=
  String.prefix (rev suffix) (rev s).

(** [s.lstrip()] and [s.strip()] *)
Fixpoint lstrip (s : string) : string :=
  match s with
  | EmptyString => EmptyString
  | String c t => if isspace c then lstrip t else s
  end.

Definition strip (s : string) : string := rev (lstrip (rev (lstrip s))).

(** [s.lstrip(chars)] for a one-character [chars] *)
Fixpoint lstrip_char (ch : ascii) (s : string) : string :=
  match s with
  | EmptyString => EmptyString
  | String c t => if Ascii.eqb c ch then lstrip_char ch t else s
  end.

(** [s.split(sep)] for a one-character separator: never empty, and
    [''.split('.')] is [['']]. *)
Fixpoint split (sep : ascii) (s : string) : list string :=
  match s with
  | EmptyString => [EmptyString]
  | String c t =>
      if Ascii.eqb c sep then EmptyString :: split sep t
      else match split sep t with
           | h :: r => String c h :: r
           | [] => [String c EmptyString]
           end
  end.

(** [s.split()]: the maximal runs of non-space characters. *)
Fixpoint split_ws_aux (s : string) (cur : string) : list string :=
  match s with
  | EmptyString =>
      match cur with EmptyString => [] | _ => [rev cur] end
  | String c t =>
      if isspace c
      then match cur with
           | EmptyString => split_ws_aux t EmptyString
           | _ => rev cur :: split_ws_aux t EmptyString
           end
      else split_ws_aux t (String c cur)
  end.

Definition split_ws (s : string) : list string := split_ws_aux s EmptyString.

(** [''.join(ch for ch in p if ch.isdigit())] *)
Fixpoint digits_of (p : string) : string :=
  match p with
  | EmptyString => EmptyString
  | String c t => if isdigit c then String c (digits_of t) else digits_of t
  end.

Definition digit_value (c : ascii) : Z := Z.of_N (code c) - 48.

(** [int(num)] for a string of decimal digits, most significant first. *)
Fixpoint int_acc (acc : Z) (num : string) : Z :=
  match num with
  | EmptyString => acc
  | String c t => int_acc (acc * 10 + digit_value c) t
  end.

Definition int_of_digits (num : string) : Z := int_acc 0 num.

(** [str(n)] for an integer *)
Definition str_of_int (n : Z) : string := NilZero.string_of_int (Z.to_int n).

(** [", ".join(items)] *)
Fixpoint join (sep : string) (items : list string) : string :=
  match items with
  | [] => EmptyString
  | [x] => x
  | x :: rest => x +:+ sep +:+ join sep rest
  end.

(** [all(f(ch) for ch in s)] *)
Fixpoint every (f : ascii -> bool) (s : string) : bool :=
  match s with
  | EmptyString => true
  | String c t => f c && every f t
  end.

(** Truth value of a string: the empty string is false. *)
Definition truthy (s : string) : bool :=
  match s with EmptyString => false | _ => true end.

(** Truth value of an optional string: [None] and [''] are false. *)
Definition some_truthy (o : option string) : bool :=
  match o with Some s => truthy s | None => false end.

End Py.

(** ** JSON files

    What a JSON file of the application holds: a value that [json.load]
    reads back, or text that it rejects.  [open(path, 'w')] empties the
    file at once, so a file is torn from then until [json.dump] has
    written the whole value. *)
Inductive content (A : Type) : Type :=
| Json (value : A)
| Torn.
Arguments Json {A} value.
Arguments Torn {A}.

(** How [with open(path, 'w') as f: json.dump(value, f)] inside a [try]
    ends: the value is written in full; or an exception comes before the
    file is open (from [os.makedirs] or from [open]) and the file is as
    it was; or it comes once the file is open and emptied (from
    [json.dump] or on closing) and the file is left torn. *)
Inductive write_end : Type :=
| Written
| Refused
| Broken.

(** ** The download history ([SpotifyDownloaderApp.add_to_history]) *)
Module History.

(** A history entry is the dictionary built in [download_finished]:
    keys [timestamp], [content], [status], [format], [quality] and
    [path] or [error]. *)
Definition entry : Type := gmap string string.

(** The part of the window that [add_to_history] touches: the list in
    memory, the JSON file ([None] while there is none) and the rows of
    the history widget. *)
Record app : Type := {
  download_history : list entry;
  history_file : option (content (list entry));
  history_list : list entry
}.

Definition limit : nat := 100.

(** [self.download_history.insert(0, entry)] followed by the cap
    [if len(...) > 100: ... = ...[:100]]. *)
Definition insert_capped (e : entry) (h : list entry) : list entry :=
  let h1 := e :: h in
  if (limit <? length h1)%nat then firstn limit h1 else h1.

(** [save_history]: a failed write is printed and otherwise ignored;
    [how] says how the write ends. *)
Definition save_history (how : write_end) (a : app) : app :=
  match how with
  | Written => {| download_history := download_history a;
                  history_file := Some (Json (download_history a));
                  history_list := history_list a |}
  | Refused => a
  | Broken => {| download_history := download_history a;
                 history_file := Some Torn;
                 history_list := history_list a |}
  end.

(** [update_history_display]: one row per entry, in list order. *)
Definition update_history_display (a : app) : app :=
  {| download_history := download_history a;
     history_file := history_file a;
     history_list := download_history a |}.

Definition add_to_history (how : write_end) (e : entry) (a : app) : app :=
  let a1 := {| download_history := insert_capped e (download_history a);
               history_file := history_file a;
               history_list := history_list a |} in
  update_history_display (save_history how a1).

(** A series of calls of [add_to_history], the first call first, each
    with the end of its write. *)
Definition add_all (calls : list (write_end * entry)) (a : app) : app :=
  fold_left (fun a c => add_to_history (fst c) (snd c) a) calls a.

End History.

(** ** Version comparison ([UpdateWorker.run.version_tuple]) *)
Module Version.

(** One dotted component: its digits, read in base ten, or 0 when it
    has none ([int(num) if num else 0]). *)
Definition component (p : string) : Z :=
  let num := Py.digits_of p in
  if Py.truthy num then Py.int_of_digits num else 0.

Definition version_tuple (v : string) : list Z :=
  map component (Py.split "." v).

(** Python's [>] on tuples of integers: decided at the first position
    where they differ; when one is a prefix of the other the longer one
    is the greater. *)
Fixpoint tuple_gt (a b : list Z) : bool :=
  match a, b with
  | [], _ => false
  | _ :: _, [] => true
  | x :: a', y :: b' => if (x =? y)%Z then tuple_gt a' b' else (y <? x)%Z
  end.

(** [latest_tag and version_tuple(latest_tag) > version_tuple(current_version)] *)
Definition update_available (latest_tag current_version : string) : bool :=
  Py.truthy latest_tag
  && tuple_gt (version_tuple latest_tag) (version_tuple current_version).

(** The comparison as the specification words it, for comparison with
    [tuple_gt]: missing components count as 0, so the shorter tuple is
    filled up with zeros first. *)
Definition padded (n : nat) (a : list Z) : list Z :=
  a ++ repeat 0 (n - length a).

Definition padded_gt (a b : list Z) : bool :=
  let n := Nat.max (length a) (length b) in
  tuple_gt (padded n a) (padded n b).

(** A component as the specification words it: the digits it starts
    with, whatever follows them being stripped. *)
Fixpoint leading_digits (p : string) : string :=
  match p with
  | EmptyString => EmptyString
  | String c rest =>
      if Py.isdigit c then String c (leading_digits rest) else EmptyString
  end.

Definition stripped_component (p : string) : Z :=
  let num := leading_digits p in
  if Py.truthy num then Py.int_of_digits num else 0.

(** The order the comparison is meant to decide, stated on its own:
    strict lexicographic order on integer tuples. *)
Inductive lex_lt : list Z -> list Z -> Prop :=
| lex_shorter : forall y b, lex_lt [] (y :: b)
| lex_head : forall x y a b, x < y -> lex_lt (x :: a) (y :: b)
| lex_tail : forall x a b, lex_lt a b -> lex_lt (x :: a) (x :: b).

End Version.

(** ** Choice of the release asset ([UpdateWorker.run], lines 808-832) *)
Module Assets.

(** An element of the feed's [assets] array; both keys are read with
    [dict.get], so either may be absent. *)
Record asset : Type := {
  name : option string;
  browser_download_url : option string
}.

Definition preferred_tokens (arch : string) : list string :=
  if Py.contains "arm" arch then ["arm64"; "aarch64"]
  else if Py.contains "64" arch || String.eqb arch "amd64"
          || String.eqb arch "x86_64"
       then ["x64"; "amd64"; "win64"]
       else ["win32"; "x86"].

(** The test of the first loop, on the lower-cased asset name. *)
Definition arch_match (tokens : list string) (a : asset) : bool :=
  let n := Py.lower (default "" (name a)) in
  Py.endswith n ".exe" && Py.contains "spotdl" n && Py.contains "win" n
  && existsb (fun t => Py.contains t n) tokens.

(** First loop: the URL of the first matching asset; the loop stops
    there whatever that URL is. *)
Fixpoint first_pass (tokens : list string) (assets : list asset)
  : option string :=
  match assets with
  | [] => None
  | a :: rest =>
      if arch_match tokens a then browser_download_url a
      else first_pass tokens rest
  end.

Definition legacy_name (latest_tag : string) : string :=
  "spotdl-" +:+ latest_tag +:+ "-win32.exe".

Definition legacy_match (latest_tag : string) (a : asset) : bool :=
  match name a with
  | Some n => String.eqb n (legacy_name latest_tag)
  | None => false
  end.

(** Second loop; [download_url] is what the first loop left. *)
Fixpoint legacy_pass (latest_tag : string) (assets : list asset)
    (download_url : option string) : option string :=
  match assets with
  | [] => download_url
  | a :: rest =>
      if legacy_match latest_tag a then browser_download_url a
      else legacy_pass latest_tag rest download_url
  end.

(** Truth value of [download_url]: [None] and [''] are false. *)
Definition url_truthy (u : option string) : bool :=
  match u with Some s => Py.truthy s | None => false end.

(** [machine] is [platform.machine()]. The result is the value of
    [download_url] when line 834 tests it. *)
Definition choose (machine latest_tag : string) (assets : list asset)
  : option string :=
  let arch := Py.lower machine in
  let download_url := first_pass (preferred_tokens arch) assets in
  if url_truthy download_url then download_url
  else legacy_pass latest_tag assets download_url.

(** The URL the job goes on to download, if any (line 834). *)
Definition selected (machine latest_tag : string) (assets : list asset)
  : option string :=
  let u := choose machine latest_tag assets in
  if url_truthy u then u else None.

(** The choice as the specification words it, for comparison with
    [selected]: the first asset that passes the first test; when there is
    none, the first asset that bears the legacy name; else none. *)
Definition stated (machine latest_tag : string) (assets : list asset)
  : option asset :=
  match find (arch_match (preferred_tokens (Py.lower machine))) assets with
  | Some a => Some a
  | None => find (legacy_match latest_tag) assets
  end.

End Assets.

(** ** Binary64 arithmetic, as Python's [float] uses it *)
Module Float.

Definition prec : Z := 53.
Definition emax : Z := 1024.

(** An integer as the float with that mantissa and exponent 0; the
    operations below round once, from the exact operands. *)
Definition of_int (n : Z) : spec_float :=
  match n with
  | Z0 => S754_zero false
  | Zpos p => S754_finite false p 0
  | Zneg p => S754_finite true p 0
  end.

(** [a / b] on integers: the quotient rounded to nearest, ties to even. *)
Definition truediv (a b : Z) : result spec_float :=
  if (b =? 0)%Z then Raise ZeroDivisionError
  else match SFdiv prec emax (of_int a) (of_int b) with
       | S754_infinity _ =>
           Raise (OverflowError "integer division result too large for a float")
       | q => Ok q
       end.

(** [x * n] for a float and a small integer constant. *)
Definition mul_int (x : spec_float) (n : Z) : spec_float :=
  SFmul prec emax x (of_int n).

(** [int(x)]: truncation towards zero. *)
Definition to_int (x : spec_float) : result Z :=
  match x with
  | S754_zero _ => Ok 0%Z
  | S754_finite s m e =>
      let a := match e with
               | Zneg k => Z.shiftr (Zpos m) (Zpos k)
               | _ => Z.shiftl (Zpos m) e
               end in
      Ok (if s then - a else a)%Z
  | S754_infinity _ =>
      Raise (OverflowError "cannot convert float infinity to integer")
  | S754_nan => Raise (ValueError "cannot convert float NaN to integer")
  end.

(** [int((current / total) * 100)] *)
Definition percent (current total : Z) : result Z :=
  match truediv current total with
  | Ok q => to_int (mul_int q 100)
  | Raise e => Raise e
  end.

(** The place of the rational [N / D] with respect to the integer [m]:
    [m <= N / D < m + 1], and [l] says whether the number is [m] itself
    or lies below, at or above [m + 1/2] (what a [location] records). *)
Definition inbetween (m : Z) (l : location) (N D : Z) : Prop :=
  0 < D /\ m * D <= N < (m + 1) * D
  /\ match l with
     | loc_Exact => N = m * D
     | loc_Inexact c => m * D < N /\ (2 * (N - m * D) ?= D) = c
     end.

(** A shift record stands for [N / D]. *)
Definition rep (mrs : shr_record) (N D : Z) : Prop :=
  0 <= shr_m mrs /\ inbetween (shr_m mrs) (loc_of_shr_record mrs) N D.

End Float.

(** ** The progress slot ([SpotifyDownloaderApp.update_progress]) *)
Module Progress.

(** What the slot leaves on screen: the bar's value and the status
    line. *)
Record display : Type := { bar : Z; status : string }.

(** The range of a C [int], which the arguments of the signal
    ([pyqtSignal(int, int)], line 21) and of [setValue] are. *)
Definition int_min : Z := -2147483648.
Definition int_max : Z := 2147483647.

(** What arrives at the slot of a Python integer given to [emit]: the
    integer itself within the range of a C [int], and otherwise its low
    32 bits read as a signed number (4294967296 arrives as 0). *)
Definition as_int (n : Z) : Z :=
  (n - int_min) mod 4294967296 + int_min.

(** [QProgressBar.setValue(v)]: the binding raises for a value that is
    no C [int]; the bar ignores a value outside its range 0..100. *)
Definition overflow : exn :=
  OverflowError
    "argument 1 overflowed: value must be in the range -2147483648 to 2147483647".

Definition set_value (v : Z) (d : display) : result display :=
  if ((int_min <=? v) && (v <=? int_max))%Z
  then Ok (if ((0 <=? v) && (v <=? 100))%Z
           then {| bar := v; status := status d |} else d)
  else Raise overflow.

(** The slot, on the integers it receives (lines 593-596); the status
    line is set after the bar. *)
Definition update_progress (current total : Z) (d : display)
  : result display :=
  match Float.percent current total with
  | Raise e => Raise e
  | Ok progress =>
      match set_value progress d with
      | Raise e => Raise e
      | Ok d1 =>
          Ok {| bar := bar d1;
                status := "Downloading " +:+ Py.str_of_int current +:+ "/"
                          +:+ Py.str_of_int total |}
      end
  end.

(** The slot as the worker's signal reaches it: [emit(current, total)]
    hands over two C [int]s. *)
Definition on_signal (current total : Z) (d : display) : result display :=
  update_progress (as_int current) (as_int total) d.

End Progress.

(** ** The download job ([DownloadWorker.run]) *)
Module Download.

(** The constructor's arguments. *)
Record request : Type := {
  url : string;
  download_path : string;
  quality : string;
  format_type : string;
  use_auth : bool
}.

(** What the job does that can be observed from outside, in order: the
    system calls it makes and the signals it emits. *)
Inductive event : Type :=
| Chdir (path : string)
| AppBaseDir
| Which (program : string)
| IsFile (path : string)
| Popen (command : list string)
| Wait
| UpdateConsole (text : string)
| UpdateProgress (current total : Z)
| DownloadComplete (success : bool) (message content timestamp : string).

Record world : Type := {
  cwd : string;
  trace : list event
}.

(** How the child process ends: its output is read to the end and
    [wait] gives the exit code, or reading the pipe raises. *)
Inductive process_end : Type :=
| Exit (return_code : Z)
| ReadError (e : exn).

(** A started process: the lines its merged output yields, each with
    its line break, then its end. *)
Record process : Type := {
  stdout : list string;
  ending : process_end
}.

(** What the job asks of its surroundings.

    - [dir_of p] is the directory [os.chdir(p)] enters, or the
      [OSError] it raises;
    - [app_base_dir] is called at line 46, but the file holds no
      definition of it; [which] is [shutil.which], used at lines 51 and
      59 of a file that does not import [shutil].  Both are parameters:
      a call returns or raises;
    - [popen] starts the command or raises;
    - [now] is the formatted clock. *)
Record env : Type := {
  dir_of : string -> result string;
  isfile : string -> bool;
  app_base_dir : result string;
  which : string -> result (option string);
  path_join : string -> string -> string;
  popen : list string -> result process;
  now : string
}.

Section Job.
Variable E : env.

Local Open Scope job_scope.

Definition log (e : event) : M world unit :=
  modify (fun w => {| cwd := cwd w; trace := trace w ++ [e] |}).

(** Emitting a signal queues it for the window's thread. *)
Definition emit (e : event) : M world unit := log e.

Definition getcwd : M world string := gets cwd.

Definition chdir (p : string) : M world unit :=
  log (Chdir p) ;;;
  d <- lift (dir_of E p) ;;
  modify (fun w => {| cwd := d; trace := trace w |}).

Definition call_app_base_dir : M world string :=
  log AppBaseDir ;;; lift (app_base_dir E).

Definition call_which (program : string) : M world (option string) :=
  log (Which program) ;;; lift (which E program).

(** [shutil.which(a) or shutil.which(b)] *)
Definition which_or (a b : string) : M world (option string) :=
  r <- call_which a ;;
  if Py.some_truthy r then ret r else call_which b.

(** [for path in paths: if os.path.isfile(path): found = path; break] *)
Fixpoint first_file (paths : list string) : M world (option string) :=
  match paths with
  | [] => ret None
  | p :: rest =>
      log (IsFile p) ;;;
      if isfile E p then ret (Some p) else first_file rest
  end.

(** The state of the reading loop. *)
Record progress : Type := {
  total_tracks : Z;
  current_track : Z;
  downloaded_tracks : list string
}.

(** [s] without the prefix [p], when it starts with it. *)
Fixpoint after_prefix (p s : string) : option string :=
  match p, s with
  | EmptyString, _ => Some s
  | String a p', String b s' =>
      if Ascii.eqb a b then after_prefix p' s' else None
  | String _ _, EmptyString => None
  end.

(** The longest run of digits at the head of [s], and what follows. *)
Fixpoint span_digits (s : string) : string * string :=
  match s with
  | EmptyString => (EmptyString, EmptyString)
  | String c t =>
      if Py.isdigit c
      then let '(d, r) := span_digits t in (String c d, r)
      else (EmptyString, s)
  end.

(** The characters of [s] up to the first line feed: what [.+] can
    take. *)
Fixpoint upto_newline (s : string) : string :=
  match s with
  | EmptyString => EmptyString
  | String c t =>
      if Ascii.eqb c "010" then EmptyString else String c (upto_newline t)
  end.

(** [Found (\d+) tracks] matched at the head of [s]: group 1. *)
Definition found_here (s : string) : option string :=
  match after_prefix "Found " s with
  | None => None
  | Some r =>
      let '(d, r') := span_digits r in
      if Py.truthy d && String.prefix " tracks" r' then Some d else None
  end.

(** [re.search(r"Found (\d+) tracks", line)]: the leftmost match. *)
Fixpoint search_found (line : string) : option string :=
  match found_here line with
  | Some d => Some d
  | None =>
      match line with
      | EmptyString => None
      | String _ t => search_found t
      end
  end.

(** [Downloading (.+)] matched at the head of [s]: group 1. *)
Definition downloading_here (s : string) : option string :=
  match after_prefix "Downloading " s with
  | None => None
  | Some r =>
      let g := upto_newline r in
      if Py.truthy g then Some g else None
  end.

(** [re.search(r"Downloading (.+)", line)] *)
Fixpoint search_downloading (line : string) : option string :=
  match downloading_here line with
  | Some g => Some g
  | None =>
      match line with
      | EmptyString => None
      | String _ t => search_downloading t
      end
  end.

(** The body of [for line in stdout_iter] (lines 106-122). *)
Definition handle_line (line : string) (st : progress)
  : M world progress :=
  when (Py.contains "Downloading" line || Py.contains "Found" line
        || Py.contains "Downloaded" line || Py.contains "Error" line)
       (emit (UpdateConsole (Py.strip line))) ;;;
  if Py.contains "Downloading" line then
    let current := (current_track st + 1)%Z in
    emit (UpdateProgress current (total_tracks st)) ;;;
    ret {| total_tracks := total_tracks st;
           current_track := current;
           downloaded_tracks :=
             match search_downloading line with
             | Some g => downloaded_tracks st ++ [Py.strip g]
             | None => downloaded_tracks st
             end |}
  else if Py.contains "Found" line then
    ret {| total_tracks :=
             match search_found line with
             | Some d => Py.int_of_digits d
             | None => total_tracks st
             end;
           current_track := current_track st;
           downloaded_tracks := downloaded_tracks st |}
  else ret st.

Fixpoint read_lines (lines : list string) (st : progress)
  : M world progress :=
  match lines with
  | [] => ret st
  | line :: rest => st' <- handle_line line st ;; read_lines rest st'
  end.

(** Reading the pipe to its end, then [process.wait()]. *)
Definition consume (p : process) (st : progress) : M world (progress * Z) :=
  st' <- read_lines (stdout p) st ;;
  match ending p with
  | ReadError e => raise e
  | Exit return_code => log Wait ;;; ret (st', return_code)
  end.

Definition command_line (self : request) (spotdl_path ffmpeg_path : string)
  : list string :=
  [spotdl_path; "download"; url self; "--bitrate"; quality self;
   "--ffmpeg"; ffmpeg_path]
  ++ (if String.eqb (format_type self) "mp3" then []
      else ["--output-format"; format_type self])
  ++ (if use_auth self then ["--user-auth"] else []).

(** Lines 100-102. *)
Definition start : progress :=
  {| total_tracks := 1; current_track := 0; downloaded_tracks := [] |}.

(** The [try] block (lines 98-133). *)
Definition guarded (self : request) (command : list string)
  : M world unit :=
  log (Popen command) ;;;
  process <- lift (popen E command) ;;
  r <- consume process start ;;
  let '(st, return_code) := r in
  let timestamp := now E in
  if (return_code =? 0)%Z then
    let track_summary :=
      match downloaded_tracks st with
      | [] => url self
      | tracks => Py.join ", " tracks
      end in
    emit (DownloadComplete true "Download completed successfully!"
            track_summary timestamp)
  else
    emit (DownloadComplete false
            ("Download failed with return code "
             +:+ Py.str_of_int return_code +:+ ".")
            (url self) timestamp).

(** The [except Exception as e] clause (lines 134-136). *)
Definition on_exception (self : request) (e : exn) : M world unit :=
  let timestamp := now E in
  emit (DownloadComplete false (str e) (url self) timestamp).

Definition not_found (self : request) (program : string) : event :=
  DownloadComplete false
    (program +:+ " not found. Make sure it's in the same directory as the application.")
    (url self) "".

(** Lines 46-75: the candidate paths of the two executables and, for
    each, the first candidate that is a file. *)
Definition locate : M world (option string * option string) :=
  script_folder <- call_app_base_dir ;;
  let possible_ffmpeg_paths := [path_join E script_folder "ffmpeg.exe"] in
  ffmpeg_in_path <- which_or "ffmpeg" "ffmpeg.exe" ;;
  let possible_ffmpeg_paths :=
    match ffmpeg_in_path with
    | Some p => if Py.truthy p then possible_ffmpeg_paths ++ [p]
                else possible_ffmpeg_paths
    | None => possible_ffmpeg_paths
    end in
  let possible_spotdl_paths := [path_join E script_folder "spotdl.exe"] in
  spotdl_in_path <- which_or "spotdl" "spotdl.exe" ;;
  let possible_spotdl_paths :=
    match spotdl_in_path with
    | Some p => if Py.truthy p then possible_spotdl_paths ++ [p]
                else possible_spotdl_paths
    | None => possible_spotdl_paths
    end in
  ffmpeg_path <- first_file possible_ffmpeg_paths ;;
  spotdl_path <- first_file possible_spotdl_paths ;;
  ret (ffmpeg_path, spotdl_path).

(** Lines 32-139.  Lines 42-43 compute two values that are never used
    and are left out. *)
Definition run (self : request) : M world unit :=
  if negb (Py.truthy (url self)) then
    emit (DownloadComplete false "No URL provided" "" "")
  else
    original_dir <- getcwd ;;
    chdir (download_path self) ;;;
    found <- locate ;;
    let '(ffmpeg_path, spotdl_path) := found in
    if negb (Py.some_truthy ffmpeg_path) then
      emit (not_found self "ffmpeg.exe") ;;;
      chdir original_dir
    else if negb (Py.some_truthy spotdl_path) then
      emit (not_found self "spotdl.exe") ;;;
      chdir original_dir
    else
      let command :=
        command_line self (default "" spotdl_path) (default "" ffmpeg_path) in
      try_finally
        (try_except (guarded self command) (on_exception self))
        (chdir original_dir).

End Job.

(** The terminal signal among the events, and the terminal signals of a
    run. *)
Definition is_outcome (e : event) : bool :=
  match e with
  | DownloadComplete _ _ _ _ => true
  | _ => false
  end.

Definition outcomes (events : list event) : list event :=
  List.filter is_outcome events.

(** What every progress signal of the reading loop satisfies. *)
Definition counted (e : event) : Prop :=
  match e with
  | UpdateProgress current total => 1 <= current /\ 0 <= total
  | _ => True
  end.

(** The terminal signal that the guarded block owes for each way the
    launch can end. *)
Definition reported (E : env) (self : request) (command : list string)
    (o : event) : Prop :=
  match popen E command with
  | Raise e => o = DownloadComplete false (str e) (url self) (now E)
  | Ok p =>
      match ending p with
      | ReadError e => o = DownloadComplete false (str e) (url self) (now E)
      | Exit return_code =>
          if return_code =? 0
          then exists summary,
                 o = DownloadComplete true "Download completed successfully!"
                       summary (now E)
          else o = DownloadComplete false
                     ("Download failed with return code "
                      +:+ Py.str_of_int return_code +:+ ".")
                     (url self) (now E)
      end
  end.

(** The environment as the file stands: neither name is bound when the
    job runs, so both calls raise [NameError]. *)
Definition as_written (E : env) : env :=
  {| dir_of := dir_of E;
     isfile := isfile E;
     app_base_dir := Raise (NameError "app_base_dir");
     which := fun _ => Raise (NameError "shutil");
     path_join := path_join E;
     popen := popen E;
     now := now E |}.

(** The calls that look for the executables. *)
Definition is_lookup (e : event) : bool :=
  match e with
  | AppBaseDir | Which _ | IsFile _ => true
  | _ => false
  end.

(** The events between the start of the process and the terminal
    signal. *)
Definition is_reading (e : event) : bool :=
  match e with
  | UpdateConsole _ | UpdateProgress _ _ | Wait => true
  | _ => false
  end.

(** The start of a process. *)
Definition is_launch (e : event) : bool :=
  match e with Popen _ => true | _ => false end.

(** What lines 51-53 (and 59-61) add to the candidates: the value of
    [shutil.which(a) or shutil.which(b)] when it is a non-empty path. *)
Definition on_path (E : env) (a b : string) : list string :=
  let value name := match which E name with Ok r => r | Raise _ => None end in
  let in_path := if Py.some_truthy (value a) then value a else value b in
  match in_path with
  | Some p => if Py.truthy p then [p] else []
  | None => []
  end.

(** The signals of the reading loop. *)
Definition is_report (e : event) : bool :=
  match e with
  | UpdateConsole _ | UpdateProgress _ _ => true
  | _ => false
  end.

(** The line test of line 107. *)
Definition marked (line : string) : bool :=
  Py.contains "Downloading" line || Py.contains "Found" line
  || Py.contains "Downloaded" line || Py.contains "Error" line.

(** The title that a line adds to [downloaded_tracks] (lines 110-117). *)
Definition title (line : string) : option string :=
  if Py.contains "Downloading" line
  then option_map Py.strip (search_downloading line)
  else None.

Definition titles (lines : list string) : list string := omap title lines.

(** The first argument of each progress signal, in order. *)
Definition currents (events : list event) : list Z :=
  omap (fun e => match e with
                 | UpdateProgress current _ => Some current
                 | _ => None
                 end) events.

End Download.

(** ** The update job ([UpdateWorker.run]) *)
Module Update.

(** System calls and signals of the job, in order. *)
Inductive event : Type :=
| AppBaseDir
| PathExists (path : string)
| CheckOutput (command : list string)
| HttpGet (address : string) (timeout : Z)
| OpenWrite (path : string)
| WriteChunk (path : string) (size : Z)
| Replace (src dst : string)
| Remove (path : string)
| Rename (src dst : string)
| UpdateStatus (text : string)
| StartProgress
| UpdateProgress (percent : Z)
| Finished.

(** Files are byte strings, keyed by path. *)
Record world : Type := {
  fs : gmap string string;
  trace : list event
}.

(** The decoded JSON document of the release feed. *)
Record release : Type := {
  tag_name : option string;
  assets : list Assets.asset
}.

(** The answer to the asset request: the [Content-Length] header if
    present, the blocks that successive [read(65536)] calls return, and
    the exception that ends the reading, if one does. *)
Record response : Type := {
  content_length : option string;
  chunks : list string;
  broken : option exn
}.

(** The file operations that can fail for reasons outside the model
    (permissions, locks, a full disk). *)
Inductive fs_op : Type :=
| OpOpen | OpWrite | OpReplace | OpRemove | OpRename.

(** What the job asks of its surroundings.

    - [app_base_dir]: called at line 775; the file holds no definition
      of it, so it is a parameter whose call returns or raises;
    - [check_output]: the decoded output of the version query, or the
      exception of a failed start, non-zero exit or decoding;
    - [fetch_latest]: the release feed, requested and parsed, or the
      exception of the request, the read or [json.loads];
    - [fault op]: the error an operation on the file system meets, if
      any; an operation that fails changes nothing;
    - [rename_replaces]: whether [os.rename] onto an existing file
      replaces it (POSIX) or raises (Windows). *)
Record env : Type := {
  app_base_dir : result string;
  path_join : string -> string -> string;
  check_output : list string -> result string;
  fetch_latest : result release;
  machine : string;
  urlopen : string -> result response;
  fault : fs_op -> option exn;
  rename_replaces : bool
}.

Definition feed : string :=
  "https://api.github.com/repos/spotdl/spotify-downloader/releases/latest".

(** [int(s)] for the text of a header: surrounding blanks, an optional
    sign, then digits, single underscores allowed between digits. *)
Fixpoint digit_groups (after_digit : bool) (s : string) : bool :=
  match s with
  | EmptyString => after_digit
  | String c t =>
      if Py.isdigit c then digit_groups true t
      else if Ascii.eqb c "_" then after_digit && digit_groups false t
      else false
  end.

Definition int_of_str (s : string) : result Z :=
  let t := Py.strip s in
  let '(negative, body) :=
    match t with
    | String "-" r => (true, r)
    | String "+" r => (false, r)
    | _ => (false, t)
    end in
  if digit_groups false body
  then let n := Py.int_of_digits (Py.digits_of body) in
       Ok (if negative then - n else n)
  else Raise (ValueError ("invalid literal for int() with base 10: '"
                          +:+ s +:+ "'")).

Section Job.
Variable E : env.

Local Open Scope job_scope.

Definition log (e : event) : M world unit :=
  modify (fun w => {| fs := fs w; trace := trace w ++ [e] |}).

Definition emit (e : event) : M world unit := log e.

Definition set_fs (f : gmap string string -> gmap string string)
  : M world unit :=
  modify (fun w => {| fs := f (fs w); trace := trace w |}).

Definition failing (op : fs_op) : M world unit :=
  match fault E op with
  | Some e => raise e
  | None => ret tt
  end.

Definition call_app_base_dir : M world string :=
  log AppBaseDir ;;; lift (app_base_dir E).

(** [os.path.exists(p)] *)
Definition path_exists (p : string) : M world bool :=
  log (PathExists p) ;;;
  gets (fun w => bool_decide (is_Some (fs w !! p))).

Definition missing (p : string) : exn :=
  OSError ("[Errno 2] No such file or directory: '" +:+ p +:+ "'").

(** [open(p, 'wb')]: creates or empties the file. *)
Definition open_wb (p : string) : M world unit :=
  log (OpenWrite p) ;;;
  failing OpOpen ;;;
  set_fs (fun m => <[p := EmptyString]> m).

(** [file.write(chunk)] *)
Definition write (p : string) (chunk : string) : M world unit :=
  log (WriteChunk p (Z.of_nat (String.length chunk))) ;;;
  failing OpWrite ;;;
  set_fs (fun m => <[p := default EmptyString (m !! p) +:+ chunk]> m).

(** [os.replace(src, dst)] *)
Definition replace (src dst : string) : M world unit :=
  log (Replace src dst) ;;;
  failing OpReplace ;;;
  content <- gets (fun w => fs w !! src) ;;
  match content with
  | None => raise (missing src)
  | Some c => set_fs (fun m => <[dst := c]> (delete src m))
  end.

(** [os.remove(p)] *)
Definition remove (p : string) : M world unit :=
  log (Remove p) ;;;
  failing OpRemove ;;;
  content <- gets (fun w => fs w !! p) ;;
  match content with
  | None => raise (missing p)
  | Some _ => set_fs (fun m => delete p m)
  end.

(** [os.rename(src, dst)] *)
Definition rename (src dst : string) : M world unit :=
  log (Rename src dst) ;;;
  failing OpRename ;;;
  content <- gets (fun w => fs w !! src) ;;
  occupied <- gets (fun w => bool_decide (is_Some (fs w !! dst))) ;;
  match content with
  | None => raise (missing src)
  | Some c =>
      if occupied && negb (rename_replaces E)
      then raise (OSError ("[WinError 183] Cannot create a file when that file already exists: '"
                           +:+ src +:+ "' -> '" +:+ dst +:+ "'"))
      else set_fs (fun m => <[dst := c]> (delete src m))
  end.

(** The [while True] loop of lines 843-851 over the blocks still to
    come; an empty block ends it. *)
Fixpoint copy_chunks (temp_path : string) (total_size : Z)
    (blocks : list string) (ending : option exn) (downloaded : Z)
  : M world unit :=
  match blocks with
  | [] => match ending with Some e => raise e | None => ret tt end
  | chunk :: rest =>
      if negb (Py.truthy chunk) then ret tt
      else
        write temp_path chunk ;;;
        let downloaded := downloaded + Z.of_nat (String.length chunk) in
        (if 0 <? total_size
         then progress <- lift (Float.percent downloaded total_size) ;;
              emit (UpdateProgress progress)
         else ret tt) ;;;
        copy_chunks temp_path total_size rest ending downloaded
  end.

(** Lines 853-863. *)
Definition install (temp_path spotdl_path : string) : M world unit :=
  try_except (replace temp_path spotdl_path)
    (fun _ =>
       present <- path_exists spotdl_path ;;
       when present (try_except (remove spotdl_path) (fun _ => ret tt)) ;;;
       fetched <- path_exists temp_path ;;
       when fetched (rename temp_path spotdl_path)).

(** Lines 835-863. *)
Definition download (download_url spotdl_path : string) : M world unit :=
  emit StartProgress ;;;
  log (HttpGet download_url 60) ;;;
  response <- lift (urlopen E download_url) ;;
  total_size <- lift (match content_length response with
                      | None => Ok 0
                      | Some s => int_of_str s
                      end) ;;
  let temp_path := spotdl_path +:+ ".new" in
  open_wb temp_path ;;;
  copy_chunks temp_path total_size (chunks response) (broken response) 0 ;;;
  install temp_path spotdl_path.

(** Lines 782-863: the installed version, the latest release, and the
    download when the release is newer. *)
Definition upgrade (spotdl_path : string) : M world unit :=
  log (CheckOutput [spotdl_path; "--version"]) ;;;
  output <- lift (check_output E [spotdl_path; "--version"]) ;;
  current_version <-
    lift (match List.rev (Py.split_ws (Py.strip output)) with
          | last :: _ => Ok last
          | [] => Raise (IndexError "list index out of range")
          end) ;;
  log (HttpGet feed 15) ;;;
  data <- lift (fetch_latest E) ;;
  let latest_tag := Py.lstrip_char "v" (default "" (tag_name data)) in
  if Version.update_available latest_tag current_version then
    emit (UpdateStatus "Downloading spotDL update...") ;;;
    let download_url :=
      Assets.choose (machine E) latest_tag (assets data) in
    if Assets.url_truthy download_url
    then download (default "" download_url) spotdl_path
    else ret tt
  else ret tt.

(** The [try] block; the result says whether the function has already
    returned (line 780). *)
Definition attempt : M world bool :=
  spotdl_dir <- call_app_base_dir ;;
  let spotdl_path := path_join E spotdl_dir "spotdl.exe" in
  present <- path_exists spotdl_path ;;
  if negb present then emit Finished ;;; ret true
  else upgrade spotdl_path ;;; ret false.

Definition run : M world unit :=
  returned <- try_except attempt (fun _ => ret false) ;;
  if returned then ret tt else emit Finished.

End Job.

(** Two relations between the world before and the world after a piece of
    the job: it has added events none of which is [Finished]; and, as
    long as none of the added events is a replace, remove or rename, the
    file at [p] is what it was. *)
Definition not_finished (e : event) : bool :=
  match e with Finished => false | _ => true end.

Definition moves_files (e : event) : bool :=
  match e with
  | Replace _ _ | Remove _ | Rename _ _ => true
  | _ => false
  end.

Definition quietly (w w' : world) : Prop :=
  exists events,
    trace w' = trace w ++ events /\ forallb not_finished events = true.

Definition sparing (p : string) (w w' : world) : Prop :=
  exists events,
    trace w' = trace w ++ events
    /\ (existsb moves_files events = false -> fs w' !! p = fs w !! p).

(** The blocks that the loop of lines 843-851 writes: those before the
    first empty one. *)
Fixpoint received (blocks : list string) : list string :=
  match blocks with
  | [] => []
  | chunk :: rest => if Py.truthy chunk then chunk :: received rest else []
  end.

(** Their concatenation: what the temporary file holds after the loop. *)
Definition body (blocks : list string) : string :=
  fold_right String.append EmptyString (received blocks).

(** Whether an empty block ends the loop. *)
Definition cut_short (blocks : list string) : bool :=
  existsb (fun chunk => negb (Py.truthy chunk)) blocks.

(** The sizes written and the percentages emitted, in order. *)
Definition writes (events : list event) : list Z :=
  omap (fun e => match e with WriteChunk _ size => Some size | _ => None end)
    events.

Definition percents (events : list event) : list Z :=
  omap (fun e => match e with UpdateProgress p => Some p | _ => None end)
    events.

(** The environment as the file stands: [app_base_dir] is bound nowhere,
    so the call of line 775 raises [NameError]. *)
Definition as_written (E : env) : env :=
  {| app_base_dir := Raise (NameError "app_base_dir");
     path_join := path_join E;
     check_output := check_output E;
     fetch_latest := fetch_latest E;
     machine := machine E;
     urlopen := urlopen E;
     fault := fault E;
     rename_replaces := rename_replaces E |}.

End Update.

(** ** The window's slots ([SpotifyDownloaderApp], lines 542-713) *)
Module Window.

(** What a slot shows or starts besides changing the widgets: the
    message boxes and the folder dialog, what it prints, and the workers
    it starts. *)
Inductive event : Type :=
| Warning (title text : string)
| Critical (title text : string)
| Information (title text : string)
| Question (title text : string)
| FolderDialog (directory : string)
| Printed (text : string)
| Start (worker : Download.request).

(** The widgets that hold the user's input. *)
Record form : Type := {
  url_entry : string;
  download_location_entry : string;
  location_entry : string;
  format_combo : string;
  quality_combo : string;
  auth_checkbox : bool
}.

(** The window and what it keeps on disk: [display] is the progress bar
    with the status label; [history] is the history list in memory, its
    JSON file and the rows of the history widget; [existing] is the set
    of paths for which [os.path.exists] holds. *)
Record window : Type := {
  inputs : form;
  console_text : list string;
  display : Progress.display;
  history : History.app;
  settings : gmap string string;
  settings_file : option (content (gmap string string));
  app_data_dir : string;
  existing : gset string;
  trace : list event
}.

(** What the slots ask of their surroundings: the formatted clock, and
    the exception, if any, that [os.makedirs], [open(path, 'w')],
    [json.dump] with the closing of the file, and [open(path, 'r')] with
    [json.load] meet at a path for a reason of their own;
    [decode_error] is what [json.load] raises on a torn file. *)
Record env : Type := {
  now : string;
  path_join : string -> string -> string;
  makedirs_error : string -> option exn;
  open_error : string -> option exn;
  dump_error : string -> option exn;
  read_error : string -> option exn;
  decode_error : string -> exn
}.

Definition with_inputs (f : form -> form) (w : window) : window :=
  {| inputs := f (inputs w); console_text := console_text w;
     display := display w; history := history w; settings := settings w;
     settings_file := settings_file w; app_data_dir := app_data_dir w;
     existing := existing w; trace := trace w |}.

Definition with_console (f : list string -> list string) (w : window)
  : window :=
  {| inputs := inputs w; console_text := f (console_text w);
     display := display w; history := history w; settings := settings w;
     settings_file := settings_file w; app_data_dir := app_data_dir w;
     existing := existing w; trace := trace w |}.

Definition with_display (f : Progress.display -> Progress.display)
    (w : window) : window :=
  {| inputs := inputs w; console_text := console_text w;
     display := f (display w); history := history w; settings := settings w;
     settings_file := settings_file w; app_data_dir := app_data_dir w;
     existing := existing w; trace := trace w |}.

Definition with_history (f : History.app -> History.app) (w : window)
  : window :=
  {| inputs := inputs w; console_text := console_text w;
     display := display w; history := f (history w); settings := settings w;
     settings_file := settings_file w; app_data_dir := app_data_dir w;
     existing := existing w; trace := trace w |}.

Definition with_settings (f : gmap string string -> gmap string string)
    (w : window) : window :=
  {| inputs := inputs w; console_text := console_text w;
     display := display w; history := history w; settings := f (settings w);
     settings_file := settings_file w; app_data_dir := app_data_dir w;
     existing := existing w; trace := trace w |}.

Definition with_settings_file (s : option (content (gmap string string)))
    (w : window) : window :=
  {| inputs := inputs w; console_text := console_text w;
     display := display w; history := history w; settings := settings w;
     settings_file := s; app_data_dir := app_data_dir w;
     existing := existing w; trace := trace w |}.

Definition with_existing (f : gset string -> gset string) (w : window)
  : window :=
  {| inputs := inputs w; console_text := console_text w;
     display := display w; history := history w; settings := settings w;
     settings_file := settings_file w; app_data_dir := app_data_dir w;
     existing := f (existing w); trace := trace w |}.

Definition with_trace (f : list event -> list event) (w : window) : window :=
  {| inputs := inputs w; console_text := console_text w;
     display := display w; history := history w; settings := settings w;
     settings_file := settings_file w; app_data_dir := app_data_dir w;
     existing := existing w; trace := f (trace w) |}.

(** [entry.get(key, fallback)] *)
Definition get (key fallback : string) (entry : History.entry) : string :=
  default fallback (entry !! key).

(** The text of a row of the history widget (lines 668-679); the two
    marks are the UTF-8 bytes of U+2705 and U+274C. *)
Definition item_text (entry : History.entry) : string :=
  let timestamp := get "timestamp" "Unknown" entry in
  let content := get "content" "Unknown" entry in
  let status := get "status" "Unknown" entry in
  let quality := get "quality" "" entry in
  let format_type := get "format" "" entry in
  if String.eqb status "Success"
  then "✅ " +:+ timestamp +:+ " - " +:+ content
       +:+ " (" +:+ quality +:+ ", " +:+ format_type +:+ ")"
  else let error := get "error" "Unknown error" entry in
       "❌ " +:+ timestamp +:+ " - " +:+ content +:+ " - Error: " +:+ error.

(** The texts of the rows that the history widget shows. *)
Definition rows (w : window) : list string :=
  map item_text (History.history_list (history w)).

Section Slots.
Variable E : env.

Local Open Scope job_scope.

Definition log (e : event) : M window unit :=
  modify (with_trace (fun t => t ++ [e])).

(** Lines 587-591; the scroll bar is not modelled. *)
Definition update_console (text : string) : M window unit :=
  modify (with_console (fun c => c ++ [text])).

(** Lines 598-599. *)
Definition update_status (text : string) : M window unit :=
  modify (with_display (fun d => {| Progress.bar := Progress.bar d;
                                    Progress.status := text |})).

(** [self.progress_bar.setValue(v)] *)
Definition set_value (v : Z) : M window unit :=
  d <- gets display ;;
  match Progress.set_value v d with
  | Ok d1 => modify (with_display (fun _ => d1))
  | Raise e => raise e
  end.

(** [os.path.exists(p)] *)
Definition path_exists (p : string) : M window bool :=
  gets (fun w => bool_decide (p ∈ existing w)).

(** [os.makedirs(p)] *)
Definition makedirs (p : string) : M window unit :=
  match makedirs_error E p with
  | Some e => raise e
  | None => modify (with_existing (fun s => {[ p ]} ∪ s))
  end.

(** [if not os.path.exists(self.app_data_dir): os.makedirs(self.app_data_dir)] *)
Definition ensure_app_data_dir : M window unit :=
  d <- gets app_data_dir ;;
  present <- path_exists d ;;
  when (negb present) (makedirs d).

(** [open(path, 'w')] for a file of the data directory: it raises and
    the file is as it was, or the file is there and empty; [emptied] is
    that change on the window's record of the file. *)
Definition open_w (name : string) (emptied : window -> window)
  : M window unit :=
  d <- gets app_data_dir ;;
  match open_error E (path_join E d name) with
  | Some e => raise e
  | None => modify emptied
  end.

(** [json.dump(value, f)] and the closing of the file at the end of the
    [with] block: they raise and the file stays torn, or the file holds
    the value; [written] is that change. *)
Definition dump (name : string) (written : window -> window)
  : M window unit :=
  d <- gets app_data_dir ;;
  match dump_error E (path_join E d name) with
  | Some e => raise e
  | None => modify written
  end.

(** [open(path, 'r')] with [json.load] on what the file holds. *)
Definition load {A : Type} (name : string) (stored : content A) : M window A :=
  d <- gets app_data_dir ;;
  match read_error E (path_join E d name) with
  | Some e => raise e
  | None =>
      match stored with
      | Json value => ret value
      | Torn => raise (decode_error E (path_join E d name))
      end
  end.

(** Lines 635-643. *)
Definition load_history : M window (list History.entry) :=
  stored <- gets (fun w => History.history_file (history w)) ;;
  match stored with
  | Some file =>
      try_except (load "download_history.json" file)
        (fun e => log (Printed ("Error loading history: " +:+ str e)) ;;; ret [])
  | None => ret []
  end.

(** Lines 645-655. *)
Definition save_history : M window unit :=
  try_except
    (ensure_app_data_dir ;;;
     open_w "download_history.json" (with_history (History.save_history Broken)) ;;;
     dump "download_history.json" (with_history (History.save_history Written)))
    (fun e =>
       log (Printed ("Error saving history: " +:+ str e)) ;;;
       update_console ("Error saving history: " +:+ str e)).

(** Lines 665-682. *)
Definition update_history_display : M window unit :=
  modify (with_history History.update_history_display).

(** Line 658 with the cap of lines 660-661, and line 689. *)
Definition set_download_history (f : list History.entry -> list History.entry)
  : M window unit :=
  modify (with_history (fun a =>
    {| History.download_history := f (History.download_history a);
       History.history_file := History.history_file a;
       History.history_list := History.history_list a |})).

(** Lines 657-663. *)
Definition add_to_history (entry : History.entry) : M window unit :=
  set_download_history (History.insert_capped entry) ;;;
  save_history ;;;
  update_history_display.

(** Lines 602-633. *)
Definition download_finished (success : bool)
    (message content timestamp : string) : M window unit :=
  (if success then
     update_status "Download completed successfully!" ;;;
     log (Information "Download Complete" "Song(s) downloaded successfully!") ;;;
     f <- gets inputs ;;
     add_to_history
       {[ "timestamp" := timestamp;
          "content" := content;
          "status" := "Success";
          "format" := format_combo f;
          "quality" := quality_combo f;
          "path" := download_location_entry f ]}
   else
     update_status "Download failed." ;;;
     log (Critical "Download Error"
            ("An error occurred while downloading: " +:+ message)) ;;;
     f <- gets inputs ;;
     add_to_history
       {[ "timestamp" := if Py.truthy timestamp then timestamp else now E;
          "content" := if Py.truthy content then content else url_entry f;
          "status" := "Failed";
          "error" := message;
          "format" := format_combo f;
          "quality" := quality_combo f ]}) ;;;
  set_value 100.

(** Lines 684-691; [reply] says whether the user answered Yes. *)
Definition clear_history (reply : bool) : M window unit :=
  log (Question "Clear History"
         "Are you sure you want to clear your download history?") ;;;
  when reply
    (set_download_history (fun _ => []) ;;;
     save_history ;;;
     update_history_display).

(** Lines 693-701; [music] is [os.path.expanduser("~/Music")]. *)
Definition load_settings (music : string) : M window (gmap string string) :=
  stored <- gets settings_file ;;
  match stored with
  | Some file =>
      try_except (load "settings.json" file)
        (fun e =>
           log (Printed ("Error loading settings: " +:+ str e)) ;;;
           ret {[ "download_location" := music ]})
  | None => ret {[ "download_location" := music ]}
  end.

(** Lines 703-713. *)
Definition save_settings : M window unit :=
  try_except
    (ensure_app_data_dir ;;;
     f <- gets inputs ;;
     modify (with_settings
               (fun s => <["download_location" := download_location_entry f]> s)) ;;;
     open_w "settings.json" (with_settings_file (Some Torn)) ;;;
     s <- gets settings ;;
     dump "settings.json" (with_settings_file (Some (Json s))))
    (fun e =>
       log (Printed ("Error saving settings: " +:+ str e)) ;;;
       update_console ("Error saving settings: " +:+ str e)).

(** Lines 542-547; [folder] is what the dialog returns, empty when it is
    cancelled. *)
Definition browse_download_location (folder : string) : M window unit :=
  f <- gets inputs ;;
  log (FolderDialog (download_location_entry f)) ;;;
  when (Py.truthy folder)
    (modify (with_inputs (fun f =>
       {| url_entry := url_entry f; download_location_entry := folder;
          location_entry := folder; format_combo := format_combo f;
          quality_combo := quality_combo f;
          auth_checkbox := auth_checkbox f |})) ;;;
     save_settings).

(** Lines 549-554. *)
Definition browse_location (folder : string) : M window unit :=
  f <- gets inputs ;;
  log (FolderDialog (location_entry f)) ;;;
  when (Py.truthy folder)
    (modify (with_inputs (fun f =>
       {| url_entry := url_entry f; download_location_entry := folder;
          location_entry := folder; format_combo := format_combo f;
          quality_combo := quality_combo f;
          auth_checkbox := auth_checkbox f |})) ;;;
     save_settings).

(** Lines 556-585.  The result of the directory test says whether the
    function goes on (it returns at line 568 otherwise). *)
Definition start_download : M window unit :=
  f <- gets inputs ;;
  let url := url_entry f in
  if negb (Py.truthy url) then
    log (Warning "Warning" "Please enter a Spotify URL.")
  else
    let download_path := download_location_entry f in
    present <- path_exists download_path ;;
    ready <- (if present then ret true
              else try_except (makedirs download_path ;;; ret true)
                     (fun e =>
                        log (Critical "Error"
                               ("Could not create download directory: "
                                +:+ str e)) ;;;
                        ret false)) ;;
    if ready then
      modify (with_console (fun _ => [])) ;;;
      set_value 0 ;;;
      update_status "Downloading..." ;;;
      log (Start {| Download.url := url;
                    Download.download_path := download_path;
                    Download.quality := quality_combo f;
                    Download.format_type := format_combo f;
                    Download.use_auth := auth_checkbox f |})
    else ret tt.

End Slots.

(** The exception that the [try] block of [save_history] (with
    [download_history.json]) or [save_settings] (with [settings.json])
    meets in a window, if any: that of making the data directory when it
    is missing, else that of opening the file, else that of the dump. *)
Definition save_failure (E : env) (w : window) (name : string) : option exn :=
  let d := app_data_dir w in
  match (if bool_decide (d ∈ existing w) then None else makedirs_error E d) with
  | Some e => Some e
  | None =>
      match open_error E (path_join E d name) with
      | Some e => Some e
      | None => dump_error E (path_join E d name)
      end
  end.

(** Whether the file is written. *)
Definition saves (E : env) (w : window) (name : string) : bool :=
  match save_failure E w name with None => true | Some _ => false end.

(** How the write ends: refused when the exception comes from making
    the directory or opening the file, broken when it comes from the
    dump. *)
Definition save_end (E : env) (w : window) (name : string) : write_end :=
  let d := app_data_dir w in
  match (if bool_decide (d ∈ existing w) then None else makedirs_error E d) with
  | Some _ => Refused
  | None =>
      match open_error E (path_join E d name) with
      | Some _ => Refused
      | None =>
          match dump_error E (path_join E d name) with
          | Some _ => Broken
          | None => Written
          end
      end
  end.

(** The workers that a stretch of events starts. *)
Definition started (events : list event) : list Download.request :=
  omap (fun e => match e with Start r => Some r | _ => None end) events.

(** The calls that the event loop makes on the window: the buttons and
    dialogs of the user and the signals of a download worker other than
    its progress. *)
Inductive call : Type :=
| StartDownload
| UpdateConsole (text : string)
| DownloadFinished (success : bool) (message content timestamp : string)
| ClearHistory (reply : bool)
| BrowseDownloadLocation (folder : string)
| BrowseLocation (folder : string).

Definition slot (E : env) (c : call) : M window unit :=
  match c with
  | StartDownload => start_download E
  | UpdateConsole text => update_console text
  | DownloadFinished success message content timestamp =>
      download_finished E success message content timestamp
  | ClearHistory reply => clear_history E reply
  | BrowseDownloadLocation folder => browse_download_location E folder
  | BrowseLocation folder => browse_location E folder
  end.

Fixpoint play (E : env) (calls : list call) : M window unit :=
  match calls with
  | [] => ret tt
  | c :: rest => bind (slot E c) (fun _ => play E rest)
  end.

(** The entry that [download_finished] builds (lines 608-615 and
    623-630). *)
Definition history_entry (E : env) (f : form) (success : bool)
    (message content timestamp : string) : History.entry :=
  if success then
    {[ "timestamp" := timestamp;
       "content" := content;
       "status" := "Success";
       "format" := format_combo f;
       "quality" := quality_combo f;
       "path" := download_location_entry f ]}
  else
    {[ "timestamp" := if Py.truthy timestamp then timestamp else now E;
       "content" := if Py.truthy content then content else url_entry f;
       "status" := "Failed";
       "error" := message;
       "format" := format_combo f;
       "quality" := quality_combo f ]}.

(** The history widget shows the history in memory, which holds at most
    100 entries. *)
Definition shown (w : window) : Prop :=
  History.history_list (history w) = History.download_history (history w)
  /\ (length (History.download_history (history w)) <= 100)%nat.
End Window.

(** ** Sample inputs

    Concrete requests, environments and feeds on which the jobs are
    evaluated below. *)
Module Samples.

Definition nl : string := String "010" EmptyString.

(** *** History *)
Definition sample_entry (n : nat) : History.entry :=
  {[ "timestamp" := "2024-01-01 00:00:00";
     "content" := Py.str_of_int (Z.of_nat n);
     "status" := "Success" ]}.

Definition sample_app : History.app :=
  {| History.download_history := map sample_entry (seq 0 100);
     History.history_file := None;
     History.history_list := [] |}.

(** *** Release assets *)
Definition win32_asset : Assets.asset :=
  {| Assets.name := Some "spotdl-1.2.3-win32.exe";
     Assets.browser_download_url :=
       Some "https://github.com/spotDL/spotify-downloader/releases/download/v1.2.3/spotdl-1.2.3-win32.exe" |}.

Definition win64_asset : Assets.asset :=
  {| Assets.name := Some "spotdl-1.2.3-win64.exe";
     Assets.browser_download_url :=
       Some "https://github.com/spotDL/spotify-downloader/releases/download/v1.2.3/spotdl-1.2.3-win64.exe" |}.

(** The win64 asset as an element without the key
    [browser_download_url]. *)
Definition win64_unlinked : Assets.asset :=
  {| Assets.name := Some "spotdl-1.2.3-win64.exe";
     Assets.browser_download_url := None |}.

(** *** The download job

    The application lives in [C:/App] with both executables beside it;
    [C:/Music] is a directory and [C:/Music/list.txt] a file in it. *)
Definition not_a_directory (p : string) : exn :=
  OSError ("[WinError 267] The directory name is invalid: '" +:+ p +:+ "'").

Definition three_tracks : Download.process :=
  {| Download.stdout :=
       ["Processing query: https://open.spotify.com/album/1" +:+ nl;
        "Found 3 tracks" +:+ nl;
        "Downloading Artist - One" +:+ nl;
        "Downloaded Artist - One" +:+ nl;
        "Downloading Artist - Two" +:+ nl;
        "Downloading Artist - Three" +:+ nl];
     Download.ending := Download.Exit 0 |}.

Definition installed : Download.env :=
  {| Download.dir_of := fun p =>
       if String.eqb p "C:/Music" || String.eqb p "C:/App" then Ok p
       else Raise (not_a_directory p);
     Download.isfile := fun p =>
       String.eqb p "C:/App/ffmpeg.exe" || String.eqb p "C:/App/spotdl.exe";
     Download.app_base_dir := Ok "C:/App";
     Download.which := fun _ => Ok None;
     Download.path_join := fun a b => a +:+ "/" +:+ b;
     Download.popen := fun _ => Ok three_tracks;
     Download.now := "2024-01-01 12:00:00" |}.

Definition album : Download.request :=
  {| Download.url := "https://open.spotify.com/album/1";
     Download.download_path := "C:/Music";
     Download.quality := "320k";
     Download.format_type := "mp3";
     Download.use_auth := false |}.

(** The same request with a download location that exists but is a
    file. *)
Definition album_into_file : Download.request :=
  {| Download.url := "https://open.spotify.com/album/1";
     Download.download_path := "C:/Music/list.txt";
     Download.quality := "320k";
     Download.format_type := "mp3";
     Download.use_auth := false |}.

Definition at_home : Download.world :=
  {| Download.cwd := "C:/App"; Download.trace := [] |}.

(** [installed] as the file stands, and with [app_base_dir] supplied but
    [shutil] still not imported. *)
Definition shipped : Download.env := Download.as_written installed.

Definition shipped_with_helper : Download.env :=
  {| Download.dir_of := Download.dir_of installed;
     Download.isfile := Download.isfile installed;
     Download.app_base_dir := Ok "C:/App";
     Download.which := fun _ => Raise (NameError "shutil");
     Download.path_join := Download.path_join installed;
     Download.popen := Download.popen installed;
     Download.now := Download.now installed |}.

(** A line that holds both markers. *)
Definition both_markers : string := "Downloading Found 9 tracks" +:+ nl.

(** *** The update job

    Version 4.2.10 is installed, 4.2.11 is the latest release, and another
    program holds the freshly written file open: replacing and renaming
    fail, removing the old binary does not. *)
Definition in_use : exn :=
  OSError "[WinError 32] The process cannot access the file because it is being used by another process".

Definition release_4_2_11 : Update.release :=
  {| Update.tag_name := Some "v4.2.11";
     Update.assets :=
       [ {| Assets.name := Some "spotdl-4.2.11-win32.exe";
            Assets.browser_download_url :=
              Some "https://github.com/spotDL/spotify-downloader/releases/download/v4.2.11/spotdl-4.2.11-win32.exe" |} ] |}.

Definition locked_download : Update.env :=
  {| Update.app_base_dir := Ok "C:/App";
     Update.path_join := fun a b => a +:+ "/" +:+ b;
     Update.check_output := fun _ => Ok ("4.2.10" +:+ nl);
     Update.fetch_latest := Ok release_4_2_11;
     Update.machine := "AMD64";
     Update.urlopen := fun _ =>
       Ok {| Update.content_length := Some "8";
             Update.chunks := ["MZ42"; "0011"];
             Update.broken := None |};
     Update.fault := fun op =>
       match op with
       | Update.OpReplace | Update.OpRename => Some in_use
       | _ => None
       end;
     Update.rename_replaces := false |}.

Definition with_binary : Update.world :=
  {| Update.fs := {[ "C:/App/spotdl.exe" := "MZ4210" ]};
     Update.trace := [] |}.

Definition without_binary : Update.world :=
  {| Update.fs := ∅; Update.trace := [] |}.

(** Output without a [Found] line, and output that announces no track. *)
Definition two_downloads : list string :=
  ["Downloading Artist - One" +:+ nl; "Downloading Artist - Two" +:+ nl].

Definition found_zero : list string :=
  ["Found 0 tracks" +:+ nl; "Downloading Artist - One" +:+ nl].

(** The progress bar and status line before the first signal. *)
Definition blank : Progress.display :=
  {| Progress.bar := 0; Progress.status := "Downloading..." |}.

Definition midway : Download.progress :=
  {| Download.total_tracks := 3;
     Download.current_track := 1;
     Download.downloaded_tracks := ["Artist - One"] |}.

(** *** More surroundings of the download job *)
(** The application directory without the two executables, which the
    search path offers instead. *)
Definition on_search_path : Download.env :=
  {| Download.dir_of := Download.dir_of installed;
     Download.isfile := fun p =>
       String.eqb p "C:/Tools/ffmpeg.exe" || String.eqb p "C:/Tools/spotdl.exe";
     Download.app_base_dir := Ok "C:/App";
     Download.which := fun program =>
       if String.eqb program "ffmpeg" then Ok (Some "C:/Tools/ffmpeg.exe")
       else if String.eqb program "spotdl.exe" then Ok (Some "C:/Tools/spotdl.exe")
       else Ok None;
     Download.path_join := Download.path_join installed;
     Download.popen := Download.popen installed;
     Download.now := Download.now installed |}.

(** Neither executable anywhere. *)
Definition bare : Download.env :=
  {| Download.dir_of := Download.dir_of installed;
     Download.isfile := fun _ => false;
     Download.app_base_dir := Ok "C:/App";
     Download.which := fun _ => Ok None;
     Download.path_join := Download.path_join installed;
     Download.popen := Download.popen installed;
     Download.now := Download.now installed |}.

(** *** More surroundings of the update job *)
(** The same release with nothing in the way of the installation. *)
Definition clear_download : Update.env :=
  {| Update.app_base_dir := Update.app_base_dir locked_download;
     Update.path_join := Update.path_join locked_download;
     Update.check_output := Update.check_output locked_download;
     Update.fetch_latest := Update.fetch_latest locked_download;
     Update.machine := Update.machine locked_download;
     Update.urlopen := Update.urlopen locked_download;
     Update.fault := fun _ => None;
     Update.rename_replaces := false |}.

(** The release with [os.replace] refused and nothing else in the way,
    on Windows. *)
Definition replace_denied : Update.env :=
  {| Update.app_base_dir := Update.app_base_dir locked_download;
     Update.path_join := Update.path_join locked_download;
     Update.check_output := Update.check_output locked_download;
     Update.fetch_latest := Update.fetch_latest locked_download;
     Update.machine := Update.machine locked_download;
     Update.urlopen := Update.urlopen locked_download;
     Update.fault := fun op =>
       match op with Update.OpReplace => Some in_use | _ => None end;
     Update.rename_replaces := false |}.

(** The download has been written beside the old binary. *)
Definition fetched : Update.world :=
  {| Update.fs := {[ "C:/App/spotdl.exe" := "MZ4210";
                     "C:/App/spotdl.exe.new" := "MZ420011" ]};
     Update.trace := [] |}.

(** The temporary file just opened. *)
Definition opened_temp : Update.world :=
  {| Update.fs := {[ "C:/App/spotdl.exe" := "MZ4210";
                     "C:/App/spotdl.exe.new" := EmptyString ]};
     Update.trace := [] |}.

(** A release whose answer carries a header that is no number. *)
Definition bad_length : Update.env :=
  {| Update.app_base_dir := Update.app_base_dir locked_download;
     Update.path_join := Update.path_join locked_download;
     Update.check_output := Update.check_output locked_download;
     Update.fetch_latest := Update.fetch_latest locked_download;
     Update.machine := Update.machine locked_download;
     Update.urlopen := fun _ =>
       Ok {| Update.content_length := Some "eight";
             Update.chunks := ["MZ42"; "0011"];
             Update.broken := None |};
     Update.fault := fun _ => None;
     Update.rename_replaces := false |}.

(** The installed binary prints nothing when asked for its version. *)
Definition mute_binary : Update.env :=
  {| Update.app_base_dir := Update.app_base_dir locked_download;
     Update.path_join := Update.path_join locked_download;
     Update.check_output := fun _ => Ok nl;
     Update.fetch_latest := Update.fetch_latest locked_download;
     Update.machine := Update.machine locked_download;
     Update.urlopen := Update.urlopen locked_download;
     Update.fault := fun _ => None;
     Update.rename_replaces := false |}.

(** Version 4.2.11 already installed. *)
Definition current_install : Update.env :=
  {| Update.app_base_dir := Update.app_base_dir locked_download;
     Update.path_join := Update.path_join locked_download;
     Update.check_output := fun _ => Ok ("spotdl 4.2.11" +:+ nl);
     Update.fetch_latest := Update.fetch_latest locked_download;
     Update.machine := Update.machine locked_download;
     Update.urlopen := Update.urlopen locked_download;
     Update.fault := fun _ => None;
     Update.rename_replaces := false |}.

(** *** The window *)
(** A window just opened, with a URL typed in, and surroundings in which
    nothing fails. *)
Definition desk : Window.env :=
  {| Window.now := "2024-01-01 12:00:00";
     Window.path_join := fun a b => a +:+ "/" +:+ b;
     Window.makedirs_error := fun _ => None;
     Window.open_error := fun _ => None;
     Window.dump_error := fun _ => None;
     Window.read_error := fun _ => None;
     Window.decode_error := fun _ =>
       ValueError "Expecting value: line 1 column 1 (char 0)" |}.

Definition opened : Window.window :=
  {| Window.inputs :=
       {| Window.url_entry := "https://open.spotify.com/album/1";
          Window.download_location_entry := "C:/Music";
          Window.location_entry := "C:/Music";
          Window.format_combo := "mp3";
          Window.quality_combo := "320k";
          Window.auth_checkbox := true |};
     Window.console_text := [];
     Window.display := {| Progress.bar := 0; Progress.status := "Ready" |};
     Window.history := {| History.download_history := [];
                          History.history_file := None;
                          History.history_list := [] |};
     Window.settings := {[ "download_location" := "C:/Music" ]};
     Window.settings_file := None;
     Window.app_data_dir := "C:/Users/me/AppData/Roaming/SpotifyDL";
     Window.existing := ∅;
     Window.trace := [] |}.

End Samples.

(** * Properties *)

(** ** Strings *)
Module PyProps.

Lemma append_cons (c : ascii) (s t : string) :
  String c s +:+ t = String c (s +:+ t).
Proof. reflexivity. Qed.

Lemma append_empty_l (t : string) : EmptyString +:+ t = t.
Proof. reflexivity. Qed.

Lemma append_empty_r (s : string) : s +:+ EmptyString = s.
Proof.
  induction s as [|c s IH]; [reflexivity|].
  now rewrite append_cons, IH.
Qed.

Lemma length_append (s t : string) :
  String.length (s +:+ t) = (String.length s + String.length t)%nat.
Proof.
  induction s as [|c s IH]; [reflexivity|].
  rewrite append_cons. cbn [String.length]. now rewrite IH.
Qed.

Lemma append_longer (s t : string) : t <> EmptyString -> s <> s +:+ t.
Proof.
  intros Ht Heq. apply (f_equal String.length) in Heq.
  rewrite length_append in Heq. destruct t; [congruence|].
  cbn [String.length] in Heq. lia.
Qed.

(** *** Searching and reading numbers *)

Lemma prefix_append (p s : string) : String.prefix p (p +:+ s) = true.
Proof.
  induction p as [|c p IH]; [now destruct s|].
  rewrite append_cons. cbn [String.prefix].
  destruct (ascii_dec c c); [exact IH|congruence].
Qed.

Lemma contains_prefix (needle hay : string) :
  String.prefix needle hay = true -> Py.contains needle hay = true.
Proof. intros H. destruct hay; cbn [Py.contains]; now rewrite H. Qed.

(** A needle cannot start inside text that lacks its first character. *)
Lemma contains_skip (c : ascii) (needle a rest : string) :
  Py.every (fun x => negb (Ascii.eqb x c)) a = true ->
  Py.contains (String c needle) (a +:+ rest)
  = Py.contains (String c needle) rest.
Proof.
  induction a as [|x a IH]; [reflexivity|].
  cbn [Py.every]. intros H. apply andb_true_iff in H as [Hx Ha].
  rewrite append_cons. cbn [Py.contains String.prefix].
  destruct (ascii_dec c x) as [->|_].
  - now rewrite Ascii.eqb_refl in Hx.
  - cbn [orb]. now apply IH.
Qed.

Lemma digits_lack (c : ascii) (d : string) :
  Py.isdigit c = false ->
  Py.every Py.isdigit d = true ->
  Py.every (fun x => negb (Ascii.eqb x c)) d = true.
Proof.
  intros Hc. induction d as [|x d IH]; [reflexivity|].
  cbn [Py.every]. intros H. apply andb_true_iff in H as [Hx Hd].
  rewrite (IH Hd), andb_true_r.
  destruct (Ascii.eqb_spec x c) as [->|_]; [congruence|reflexivity].
Qed.
Lemma int_acc_uint_acc (d : Decimal.uint) (acc : positive) :
  Py.int_acc (Zpos acc) (NilEmpty.string_of_uint d) = Zpos (Pos.of_uint_acc d acc).
Proof.
  revert acc. induction d; intros acc; cbn [NilEmpty.string_of_uint Py.int_acc Pos.of_uint_acc];
    [reflexivity|..]; rewrite <- IHd; f_equal; unfold Py.digit_value; cbn; lia.
Qed.

Lemma int_acc_uint (d : Decimal.uint) :
  Py.int_acc 0 (NilEmpty.string_of_uint d) = Z.of_N (Pos.of_uint d).
Proof.
  induction d; cbn [NilEmpty.string_of_uint Py.int_acc Pos.of_uint];
    [reflexivity|exact IHd|..];
    cbn [Z.of_N]; rewrite <- int_acc_uint_acc; reflexivity.
Qed.

Lemma every_digit_uint (d : Decimal.uint) :
  Py.every Py.isdigit (NilEmpty.string_of_uint d) = true.
Proof. induction d; cbn [NilEmpty.string_of_uint Py.every]; [reflexivity|..]; exact IHd. Qed.

Lemma str_of_int_uint (n : Z) :
  0 <= n -> exists d, d <> Decimal.Nil /\ Py.str_of_int n = NilEmpty.string_of_uint d
     /\ Z.of_N (Pos.of_uint d) = n.
Proof.
  intros Hn. destruct n as [|p|p]; [| |lia].
  - exists (Decimal.D0 Decimal.Nil). repeat split. discriminate.
  - exists (Pos.to_uint p). split; [apply Unsigned.to_uint_nonnil|].
    split; [|now rewrite DecimalPos.Unsigned.of_to].
    unfold Py.str_of_int. cbn [Z.to_int NilZero.string_of_int].
    unfold NilZero.string_of_uint.
    pose proof (Unsigned.to_uint_nonnil p). now destruct (Pos.to_uint p).
Qed.

Lemma int_of_str_of_int (n : Z) : 0 <= n -> Py.int_of_digits (Py.str_of_int n) = n.
Proof.
  intros Hn. destruct (str_of_int_uint n Hn) as (d & _ & -> & <-).
  apply int_acc_uint.
Qed.

Lemma str_of_int_digits (n : Z) : 0 <= n -> Py.every Py.isdigit (Py.str_of_int n) = true.
Proof.
  intros Hn. destruct (str_of_int_uint n Hn) as (d & _ & -> & _).
  apply every_digit_uint.
Qed.

Lemma str_of_int_truthy (n : Z) : 0 <= n -> Py.truthy (Py.str_of_int n) = true.
Proof.
  intros Hn. destruct (str_of_int_uint n Hn) as (d & Hd & -> & _).
  now destruct d.
Qed.


Lemma append_assoc (a b c : string) : (a +:+ b) +:+ c = a +:+ b +:+ c.
Proof.
  induction a as [|x a IH]; [reflexivity|].
  now rewrite !append_cons, IH.
Qed.

Lemma split_plain (sep : ascii) (x : string) :
  Py.every (fun c => negb (Ascii.eqb c sep)) x = true ->
  Py.split sep x = [x].
Proof.
  induction x as [|c x IH]; [reflexivity|].
  cbn [Py.every Py.split]. intros H. apply andb_true_iff in H as [Hc Hx].
  apply negb_true_iff in Hc. now rewrite Hc, (IH Hx).
Qed.

Lemma split_append (sep : ascii) (x r : string) :
  Py.every (fun c => negb (Ascii.eqb c sep)) x = true ->
  Py.split sep (x +:+ String sep r) = x :: Py.split sep r.
Proof.
  induction x as [|c x IH].
  - intros _. rewrite append_empty_l. cbn [Py.split].
    now rewrite Ascii.eqb_refl.
  - cbn [Py.every]. intros H. apply andb_true_iff in H as [Hc Hx].
    apply negb_true_iff in Hc. rewrite append_cons. cbn [Py.split].
    now rewrite Hc, (IH Hx).
Qed.

End PyProps.

(** ** Binary64 rounding

    [SFdiv] and [SFmul] are followed on the integers: a number is held as
    a fraction [N / D], a mantissa with its location as the integer part
    of the fraction and the place of the rest. *)
Module FloatProps.
Import Float.

Lemma digits2_size (p : positive) : digits2_pos p = Pos.size p.
Proof. induction p as [p IH|p IH|]; simpl; now rewrite ?IH. Qed.

Lemma digits_bounds (p : positive) :
  2 ^ (Zdigits2 (Zpos p) - 1) <= Zpos p < 2 ^ Zdigits2 (Zpos p).
Proof.
  cbn [Zdigits2]. rewrite digits2_size.
  pose proof (Pos.size_gt p) as Hgt. pose proof (Pos.size_le p) as Hle.
  apply Pos2Z.pos_lt_pos in Hgt. apply Pos2Z.pos_le_pos in Hle.
  rewrite Pos2Z.inj_pow in Hgt, Hle.
  change (Z.pos p~0) with (2 * Z.pos p) in Hle.
  split; [|exact Hgt].
  replace (Z.pos (Pos.size p)) with (Z.succ (Z.pos (Pos.size p) - 1)) in Hle by lia.
  rewrite Z.pow_succ_r in Hle by lia. lia.
Qed.

Lemma digits_unique (p : positive) (d : Z) :
  2 ^ (d - 1) <= Zpos p < 2 ^ d -> Zdigits2 (Zpos p) = d.
Proof.
  intros [Hlo Hhi]. pose proof (digits_bounds p) as [Hlo' Hhi'].
  set (d' := Zdigits2 (Zpos p)) in *.
  assert (0 < d') by (subst d'; cbn; lia).
  assert (0 < d).
  { destruct (Z.lt_ge_cases 0 d) as [?|Hd]; [assumption|].
    rewrite (Z.pow_neg_r 2 (d - 1)) in Hlo by lia.
    destruct (Z.eq_dec d 0) as [->|]; [cbn in Hhi; lia|].
    rewrite (Z.pow_neg_r 2 d) in Hhi by lia. lia. }
  destruct (Z.lt_trichotomy d d') as [Hlt|[Heq|Hgt]]; [|exact (eq_sym Heq)|].
  - assert (2 ^ d <= 2 ^ (d' - 1)) by (apply Z.pow_le_mono_r; lia). lia.
  - assert (2 ^ d' <= 2 ^ (d - 1)) by (apply Z.pow_le_mono_r; lia). lia.
Qed.

Lemma new_location_spec (t r q : Z) :
  0 < t -> 0 <= r < t -> inbetween q (new_location t r) (q * t + r) t.
Proof.
  intros Ht Hr. unfold inbetween. split; [exact Ht|]. split; [nia|].
  unfold new_location, new_location_even, new_location_odd.
  destruct (Z.even t) eqn:Hev; destruct (Z.eqb_spec r 0) as [->|Hr0].
  - lia.
  - split; [lia|]. f_equal. lia.
  - lia.
  - split; [lia|]. replace (2 * (q * t + r - q * t)) with (2 * r) by lia.
    assert (Hodd : Z.odd t = true) by (rewrite <- Z.negb_even, Hev; reflexivity).
    apply Z.odd_spec in Hodd as [k Hk].
    destruct (Z.compare_spec (2 * r + 1) t), (Z.compare_spec (2 * r) t);
      try reflexivity; lia.
Qed.

Ltac by_compare :=
  repeat match goal with
    | H : (?a ?= ?b) = Lt |- _ => change (a < b) in H
    | H : (?a ?= ?b) = Gt |- _ => change (a > b) in H
    | H : (_ ?= _) = Eq |- _ => apply Z.compare_eq_iff in H
    | |- (?a ?= ?b) = Lt => change (a < b)
    | |- (?a ?= ?b) = Gt => change (a > b)
    | |- (_ ?= _) = Eq => apply Z.compare_eq_iff
    end.

Ltac split_loc :=
  repeat match goal with
    | H : _ /\ _ |- _ => destruct H
    end.

Lemma shr_1_arith (m : Z) (r s : bool) :
  0 <= m ->
  shr_1 {| shr_m := m; shr_r := r; shr_s := s |}
  = {| shr_m := m / 2; shr_r := Z.odd m; shr_s := r || s |}.
Proof.
  intros Hm. destruct m as [|p|p]; [reflexivity| |lia].
  destruct p as [p|p|]; cbn [shr_1]; f_equal.
  - rewrite Pos2Z.inj_xI. apply (Z.div_unique _ 2 _ 1); lia.
  - rewrite Pos2Z.inj_xO. apply (Z.div_unique _ 2 _ 0); lia.
Qed.

Lemma shr_1_spec (mrs : shr_record) (N D : Z) :
  rep mrs N D -> rep (shr_1 mrs) N (2 * D).
Proof.
  destruct mrs as [m r s]. unfold rep. cbn [shr_m].
  intros (Hm & HD & Hb & Hl). rewrite shr_1_arith by exact Hm.
  cbn [shr_m]. split; [apply Z.div_pos; lia|].
  pose proof (Z.div_mod m 2 ltac:(lia)) as Hdm.
  pose proof (Z.mod_pos_bound m 2 ltac:(lia)) as Hmod.
  set (h := m / 2) in *.
  assert (Hodd : (Z.odd m = true /\ m = 2 * h + 1)
                 \/ (Z.odd m = false /\ m = 2 * h)).
  { rewrite Zodd_mod. destruct (Z.eqb_spec (m mod 2) 1); [left|right];
      split; try reflexivity; lia. }
  clearbody h. clear Hdm Hmod. unfold inbetween in *.
  assert (E1 : (2 * h + 1) * D = 2 * (h * D) + D) by ring.
  assert (E2 : (2 * h + 1 + 1) * D = 2 * (h * D) + 2 * D) by ring.
  assert (E3 : h * (2 * D) = 2 * (h * D)) by ring.
  assert (E4 : (h + 1) * (2 * D) = 2 * (h * D) + 2 * D) by ring.
  assert (E5 : (2 * h) * D = 2 * (h * D)) by ring.
  assert (E6 : (2 * h + 1) * D = 2 * (h * D) + D) by ring.
  destruct Hodd as [[Ho Hmh]|[Ho Hmh]]; rewrite Ho; subst m;
    rewrite ?E1, ?E2, ?E3, ?E4, ?E5, ?E6 in *;
    clear E1 E2 E3 E4 E5 E6;
    generalize dependent (h * D); intros X; intros;
    destruct r, s; cbn [loc_of_shr_record orb] in *;
    split_loc; by_compare;
    (split; [lia|]); (split; [lia|]);
    try split; by_compare; lia.
Qed.

Lemma pow2_twice (k : Z) : 0 <= k -> 2 ^ (2 * k) = 2 ^ k * 2 ^ k.
Proof.
  intros Hk. replace (2 * k) with (k + k) by lia. now apply Z.pow_add_r.
Qed.

Lemma iter_shr_spec (p : positive) (mrs : shr_record) (N D : Z) :
  rep mrs N D -> rep (SpecFloat.iter_pos shr_1 p mrs) N (2 ^ Zpos p * D).
Proof.
  revert mrs D. induction p as [p IH|p IH|]; intros mrs D Hrep; cbn [SpecFloat.iter_pos].
  - replace (2 ^ Z.pos p~1 * D) with (2 ^ Z.pos p * (2 ^ Z.pos p * (2 * D))).
    + apply IH, IH, shr_1_spec, Hrep.
    + rewrite (Pos2Z.inj_xI p). rewrite Z.pow_add_r by lia.
      rewrite pow2_twice by lia.
      change (2 ^ 1) with 2. ring.
  - replace (2 ^ Z.pos p~0 * D) with (2 ^ Z.pos p * (2 ^ Z.pos p * D)).
    + apply IH, IH, Hrep.
    + rewrite (Pos2Z.inj_xO p). rewrite pow2_twice by lia. ring.
  - change (2 ^ 1) with 2. apply shr_1_spec, Hrep.
Qed.

Lemma rep_of_loc (m : Z) (l : location) (N D : Z) :
  0 <= m -> inbetween m l N D -> rep (shr_record_of_loc m l) N D.
Proof.
  intros Hm Hin. unfold rep.
  destruct l as [|[]]; cbn [shr_record_of_loc shr_m loc_of_shr_record];
    split; assumption.
Qed.

(** [shr] by [n >= 0] bits: the exponent grows by [n] and the record
    stands for the same number on a grid [2^n] times coarser. *)
Lemma shr_spec (mrs : shr_record) (e n : Z) (N D : Z) :
  0 <= n -> rep mrs N D ->
  snd (shr mrs e n) = e + n /\ rep (fst (shr mrs e n)) N (2 ^ n * D).
Proof.
  intros Hn Hrep. destruct n as [|p|p]; [| |lia]; cbn [shr fst snd].
  - split; [lia|]. now rewrite Z.pow_0_r, Z.mul_1_l.
  - split; [reflexivity|]. now apply iter_shr_spec.
Qed.

(** A record that stands for [N / D] holds its integer part. *)
Lemma rep_floor (mrs : shr_record) (N D : Z) :
  rep mrs N D -> shr_m mrs = N / D.
Proof.
  intros (Hm & HD & Hb & _). apply Z.div_unique_pos with (r := N - shr_m mrs * D); lia.
Qed.

Lemma mul_lt_cancel (D a b : Z) : 0 < D -> a * D < b * D -> a < b.
Proof. intros HD H. now apply (Z.mul_lt_mono_pos_r D). Qed.

Lemma mul_le_cancel (D a b : Z) : 0 < D -> a * D <= b * D -> a <= b.
Proof. intros HD H. now apply (Z.mul_le_mono_pos_r _ _ D). Qed.

(** Rounding to nearest, ties to even, of a number given by its integer
    part and the place of its fraction: an integer within one half of
    the number, on the same side of every integer as the number. *)
Lemma rne_spec (m : Z) (l : location) (N D : Z) :
  inbetween m l N D ->
  let m' := round_nearest_even m l in
  m <= m' <= m + 1
  /\ 2 * Z.abs (m' * D - N) <= D
  /\ (forall K, N <= K * D -> m' <= K)
  /\ (forall K, K * D <= N -> K <= m').
Proof.
  intros (HD & Hb & Hl). cbv zeta.
  assert (Hup : forall K, N <= K * D -> m < K -> m + 1 <= K) by (intros; lia).
  assert (HK1 : forall K, N <= K * D -> m * D < N -> m < K).
  { intros K HK Hlt. apply (mul_lt_cancel D); lia. }
  assert (HK2 : forall K, K * D <= N -> K <= m).
  { intros K HK. assert (K < m + 1); [apply (mul_lt_cancel D); lia|lia]. }
  assert (HK0 : forall K, N <= K * D -> m <= K).
  { intros K HK. apply (mul_le_cancel D); lia. }
  assert (E : (m + 1) * D = m * D + D) by ring.
  destruct l as [|[]]; cbn [round_nearest_even]; split_loc; by_compare;
    try destruct (Z.even m); rewrite ?E; repeat split; try lia;
    intros K HK;
    first [ apply HK2 in HK; lia
          | pose proof (HK0 K HK); lia
          | pose proof (HK1 K HK ltac:(lia)); lia ].
Qed.

Lemma fexp_normal (e : Z) : -1074 <= e - 53 -> fexp 53 1024 e = e - 53.
Proof. intros H. unfold fexp, emin. lia. Qed.

Lemma shr_m_of_loc (m : Z) (l : location) :
  shr_m (shr_record_of_loc m l) = m.
Proof. now destruct l as [|[]]. Qed.

Lemma pow2_pos (k : Z) : 0 <= k -> 0 < 2 ^ k.
Proof. intros. apply Z.pow_pos_nonneg; lia. Qed.

(** [binary_round_aux] on a mantissa of at least 53 bits, away from
    underflow and overflow: the result is finite, its mantissa has 53
    bits, and it is the nearest-even rounding [m'] of the number on the
    grid of spacing [2^(ex + n)], renormalised when the rounding carried
    into a 54th bit. *)
Lemma round_normal (sx : bool) (mx ex : Z) (lx : location) (N D : Z) :
  0 < mx ->
  let n := Zdigits2 mx - 53 in
  0 <= n -> -1074 <= ex + n -> ex + n + 1 <= 971 ->
  inbetween mx lx N D ->
  exists m' m'' e'',
    binary_round_aux 53 1024 sx mx ex lx = S754_finite sx m'' e''
    /\ 2 ^ 52 <= m' <= 2 ^ 53
    /\ 2 * Z.abs (m' * (2 ^ n * D) - N) <= 2 ^ n * D
    /\ (forall K, N <= K * (2 ^ n * D) -> m' <= K)
    /\ (forall K, K * (2 ^ n * D) <= N -> K <= m')
    /\ ((Zpos m'' = m' /\ m' < 2 ^ 53 /\ e'' = ex + n)
        \/ (m' = 2 ^ 53 /\ Zpos m'' = 2 ^ 52 /\ e'' = ex + n + 1)).
Proof.
  intros Hmx n Hn Hunder Hover Hin.
  assert (HD : 0 < D) by apply Hin.
  pose proof (pow2_pos n Hn) as Hpow.
  destruct mx as [|px|px]; [lia| |lia].
  pose proof (digits_bounds px) as Hdig.
  assert (Hdx : Zdigits2 (Z.pos px) = n + 53) by (subst n; cbn [Zdigits2]; lia).
  clearbody n.
  rewrite Hdx in Hdig.
  (* first shift *)
  unfold binary_round_aux, shr_fexp.
  rewrite Hdx, fexp_normal by lia.
  replace (n + 53 + ex - 53 - ex) with n by lia.
  destruct (shr_spec (shr_record_of_loc (Z.pos px) lx) ex n N D Hn
              (rep_of_loc _ _ _ _ (Pos2Z.is_nonneg px) Hin)) as [He1 Hrep1].
  destruct (shr (shr_record_of_loc (Z.pos px) lx) ex n) as [mrs1 e1].
  cbn [fst snd] in He1, Hrep1. subst e1.
  pose proof (rep_floor _ _ _ Hrep1) as Hm1.
  assert (Hpx : Z.pos px = N / D).
  { rewrite <- (shr_m_of_loc (Z.pos px) lx). apply rep_floor.
    apply rep_of_loc; [apply Pos2Z.is_nonneg|exact Hin]. }
  assert (Hm1' : shr_m mrs1 = Z.pos px / 2 ^ n).
  { rewrite Hm1, Hpx, Z.div_div by lia. f_equal. ring. }
  assert (Hm1b : 2 ^ 52 <= shr_m mrs1 < 2 ^ 53).
  { rewrite Hm1'. replace (n + 53 - 1) with (52 + n) in Hdig by lia.
    rewrite !Z.pow_add_r in Hdig by lia. split.
    - apply Z.div_le_lower_bound; lia.
    - apply Z.div_lt_upper_bound; lia. }
  destruct Hrep1 as [_ Hin1].
  pose proof (rne_spec _ _ _ _ Hin1) as (Hr1 & Hr2 & Hr3 & Hr4).
  set (m' := round_nearest_even (shr_m mrs1) (loc_of_shr_record mrs1)) in *.
  assert (Hm'b : 2 ^ 52 <= m' <= 2 ^ 53) by lia.
  (* second shift *)
  destruct (Z.eq_dec m' (2 ^ 53)) as [Hcarry|Hnocarry].
  - exists m', (Z.to_pos (2 ^ 52)), (ex + n + 1).
    rewrite Hcarry.
    change (Zdigits2 (2 ^ 53)) with 54.
    rewrite fexp_normal by lia.
    replace (54 + (ex + n) - 53 - (ex + n)) with 1 by lia.
    cbn [shr shr_record_of_loc SpecFloat.iter_pos fst snd].
    change (shr_1 {| shr_m := 2 ^ 53; shr_r := false; shr_s := false |})
      with {| shr_m := 2 ^ 52; shr_r := false; shr_s := false |}.
    cbn [shr_m]. change (2 ^ 52) with (Z.pos (Z.to_pos (2 ^ 52))) at 1.
    cbv iota beta.
    replace (ex + n + 1 <=? 1024 - 53) with true
      by (symmetry; apply Z.leb_le; lia).
    split; [reflexivity|]. rewrite <- Hcarry.
    repeat split; try assumption; lia.
  - assert (Hpos : 0 < m') by lia.
    destruct m' as [|pm|pm] eqn:Em'; [lia| |lia].
    exists (Z.pos pm), pm, (ex + n).
    rewrite (digits_unique pm 53) by (change (53 - 1) with 52; lia).
    rewrite fexp_normal by lia.
    replace (53 + (ex + n) - 53 - (ex + n)) with 0 by lia.
    cbn [shr shr_record_of_loc fst snd shr_m].
    replace (ex + n <=? 1024 - 53) with true
      by (symmetry; apply Z.leb_le; lia).
    split; [reflexivity|].
    repeat split; try assumption; lia.
Qed.

Lemma div_eucl_div_mod (a b : Z) : Z.div_eucl a b = (a / b, a mod b).
Proof. unfold Z.div, Z.modulo. now destruct (Z.div_eucl a b). Qed.

Lemma digits_mono (p q : positive) :
  Zpos p <= Zpos q -> Zdigits2 (Zpos p) <= Zdigits2 (Zpos q).
Proof.
  intros Hle. pose proof (digits_bounds p) as Hp.
  pose proof (digits_bounds q) as Hq.
  destruct (Z.le_gt_cases (Zdigits2 (Zpos p)) (Zdigits2 (Zpos q))) as [?|Hgt];
    [assumption|].
  assert (2 ^ Zdigits2 (Zpos q) <= 2 ^ (Zdigits2 (Zpos p) - 1))
    by (apply Z.pow_le_mono_r; lia).
  lia.
Qed.

Lemma digits_below (p : positive) (k : Z) :
  0 <= k -> Zpos p < 2 ^ k -> Zdigits2 (Zpos p) <= k.
Proof.
  intros Hk Hlt. pose proof (digits_bounds p) as Hp.
  destruct (Z.le_gt_cases (Zdigits2 (Zpos p)) k) as [?|Hgt]; [assumption|].
  assert (2 ^ k <= 2 ^ (Zdigits2 (Zpos p) - 1))
    by (apply Z.pow_le_mono_r; lia).
  lia.
Qed.

Lemma digits_pos (p : positive) : 1 <= Zdigits2 (Zpos p).
Proof. cbn [Zdigits2]. lia. Qed.

(** The quotient of two positive integers [c <= t], rounded to binary64:
    a float [m1 / 2^a] with [m1] the nearest-even rounding of [c * 2^a / t]
    and at most 1. *)
Lemma div_normal (c t : Z) :
  1 <= c <= t -> t < 2 ^ 1000 ->
  exists mq eq m1 a,
    SFdiv 53 1024 (Float.of_int c) (Float.of_int t) = S754_finite false mq eq
    /\ 52 <= a <= 1074
    /\ 2 ^ 52 <= m1 <= 2 ^ 53
    /\ m1 <= 2 ^ a
    /\ 2 * Z.abs (m1 * t - c * 2 ^ a) <= t
    /\ ((Zpos mq = m1 /\ m1 < 2 ^ 53 /\ eq = - a)
        \/ (m1 = 2 ^ 53 /\ Zpos mq = 2 ^ 52 /\ eq = 1 - a)).
Proof.
  intros Hct Ht.
  destruct c as [|pc|pc]; [lia| |lia]. destruct t as [|pt|pt]; [lia| |lia].
  pose proof (digits_bounds pc) as Hdc. pose proof (digits_bounds pt) as Hdt.
  pose proof (digits_mono pc pt ltac:(lia)) as Hmono.
  pose proof (digits_below pt 1000 ltac:(lia) Ht) as Hd2.
  pose proof (digits_pos pc) as Hd1.
  set (d1 := Zdigits2 (Z.pos pc)) in *. set (d2 := Zdigits2 (Z.pos pt)) in *.
  set (s := d2 - d1 + 53).
  assert (Hs : 53 <= s <= 1074) by (subst s; lia).
  pose proof (pow2_pos s ltac:(lia)) as Hps.
  (* the core division *)
  assert (Hcore : SFdiv_core_binary 53 1024 (Z.pos pc) 0 (Z.pos pt) 0
                  = ((Z.pos pc * 2 ^ s) / Z.pos pt, - s,
                     new_location (Z.pos pt) ((Z.pos pc * 2 ^ s) mod Z.pos pt))).
  { unfold SFdiv_core_binary. fold d1 d2.
    rewrite fexp_normal by lia.
    replace (Z.min (d1 + 0 - (d2 + 0) - 53) (0 - 0)) with (- s) by lia.
    replace (0 - 0 - - s) with s by lia.
    destruct s as [|ps|ps] eqn:Es; [lia| |lia].
    rewrite Z.shiftl_mul_pow2 by lia. now rewrite div_eucl_div_mod. }
  set (N := Z.pos pc * 2 ^ s) in *.
  set (q := N / Z.pos pt) in *.
  assert (Hq : 2 ^ 52 <= q < 2 ^ 54).
  { subst q N. split.
    - apply Z.div_le_lower_bound; [lia|].
      assert (2 ^ (d2 + 52) <= Z.pos pc * 2 ^ s).
      { replace (d2 + 52) with (d1 - 1 + s) by (subst s; lia).
        rewrite Z.pow_add_r by lia. apply Z.mul_le_mono_nonneg_r; lia. }
      rewrite Z.pow_add_r in H by lia. nia.
    - apply Z.div_lt_upper_bound; [lia|].
      assert (Z.pos pc * 2 ^ s < 2 ^ (d2 - 1 + 54)).
      { replace (d2 - 1 + 54) with (d1 + s) by (subst s; lia).
        rewrite Z.pow_add_r by lia. apply Z.mul_lt_mono_pos_r; lia. }
      rewrite Z.pow_add_r in H by lia. nia. }
  assert (Hin : inbetween q (new_location (Z.pos pt) (N mod Z.pos pt)) N (Z.pos pt)).
  { pose proof (new_location_spec (Z.pos pt) (N mod Z.pos pt) q ltac:(lia)
                  (Z.mod_pos_bound N (Z.pos pt) ltac:(lia))) as H.
    replace (q * Z.pos pt + N mod Z.pos pt) with N in H; [exact H|].
    subst q. rewrite (Z.div_mod N (Z.pos pt)) at 1 by lia. ring. }
  assert (Hn : Zdigits2 q - 53 = 0 \/ Zdigits2 q - 53 = 1).
  { destruct q as [|pq|pq] eqn:Eq; [lia| |lia].
    destruct (Z.lt_ge_cases (Z.pos pq) (2 ^ 53)).
    - left. rewrite (digits_unique pq 53); [lia|]. change (53 - 1) with 52. lia.
    - right. rewrite (digits_unique pq 54); [lia|]. change (54 - 1) with 53. lia. }
  set (n := Zdigits2 q - 53) in *.
  destruct (round_normal false q (- s) (new_location (Z.pos pt) (N mod Z.pos pt))
              N (Z.pos pt) ltac:(lia) ltac:(fold n; lia) ltac:(fold n; lia)
              ltac:(fold n; lia) Hin)
    as (m' & m'' & e'' & Hround & Hm' & Herr & Hup & Hlow & Hnorm).
  fold n in Herr, Hup, Hlow, Hnorm.
  exists m'', e'', m', (s - n).
  assert (Hpn : 0 < 2 ^ n) by (apply pow2_pos; lia).
  assert (Hsplit : 2 ^ s = 2 ^ (s - n) * 2 ^ n).
  { rewrite <- Z.pow_add_r by lia. f_equal. lia. }
  split.
  { unfold SFdiv, Float.of_int. rewrite Hcore. exact Hround. }
  split; [lia|]. split; [exact Hm'|]. split.
  { apply Hup. subst N. rewrite Hsplit.
    replace (2 ^ (s - n) * (2 ^ n * Z.pos pt))
      with (Z.pos pt * (2 ^ (s - n) * 2 ^ n)) by ring.
    apply Z.mul_le_mono_nonneg_r; [|lia].
    rewrite <- Hsplit. lia. }
  split.
  { subst N. rewrite Hsplit in Herr.
    replace (m' * (2 ^ n * Z.pos pt) - Z.pos pc * (2 ^ (s - n) * 2 ^ n))
      with ((m' * Z.pos pt - Z.pos pc * 2 ^ (s - n)) * 2 ^ n) in Herr by ring.
    rewrite Z.abs_mul, (Z.abs_eq (2 ^ n)) in Herr by lia.
    apply (mul_le_cancel (2 ^ n)); [exact Hpn|].
    rewrite <- Z.mul_assoc. rewrite (Z.mul_comm (Z.pos pt)). exact Herr. }
  replace (- s + n) with (- (s - n)) in Hnorm by lia.
  replace (- (s - n) + 1) with (1 - (s - n)) in Hnorm by lia.
  exact Hnorm.
Qed.

(** A 53-bit float times 100, rounded to binary64. *)
Lemma mul100_normal (mq : positive) (eq : Z) :
  2 ^ 52 <= Zpos mq < 2 ^ 53 -> -1074 <= eq <= 900 ->
  exists mp ep m2 n2,
    Float.mul_int (S754_finite false mq eq) 100 = S754_finite false mp ep
    /\ 6 <= n2 <= 7
    /\ 2 ^ 52 <= m2 <= 2 ^ 53
    /\ 2 * Z.abs (m2 * 2 ^ n2 - 100 * Zpos mq) <= 2 ^ n2
    /\ (forall K, 100 * Zpos mq <= K * 2 ^ n2 -> m2 <= K)
    /\ ((Zpos mp = m2 /\ m2 < 2 ^ 53 /\ ep = eq + n2)
        \/ (m2 = 2 ^ 53 /\ Zpos mp = 2 ^ 52 /\ ep = eq + n2 + 1)).
Proof.
  intros Hmq Heq.
  set (mx := Z.pos (mq * 100)).
  assert (Hmx : mx = 100 * Z.pos mq) by (subst mx; lia).
  assert (Hin : inbetween mx loc_Exact mx 1) by (unfold inbetween; lia).
  assert (Hn : Zdigits2 mx - 53 = 6 \/ Zdigits2 mx - 53 = 7).
  { subst mx. destruct (Z.lt_ge_cases (Z.pos (mq * 100)) (2 ^ 59)).
    - left. rewrite (digits_unique (mq * 100) 59); [lia|].
      change (59 - 1) with 58. change (2 ^ 58) with (64 * 2 ^ 52). lia.
    - right. rewrite (digits_unique (mq * 100) 60); [lia|].
      change (60 - 1) with 59. change (2 ^ 60) with (128 * 2 ^ 53). lia. }
  set (n := Zdigits2 mx - 53) in *.
  destruct (round_normal false mx (eq + 0) loc_Exact mx 1
              ltac:(lia) ltac:(fold n; lia) ltac:(fold n; lia)
              ltac:(fold n; lia) Hin)
    as (m' & m'' & e'' & Hround & Hm' & Herr & Hup & Hlow & Hnorm).
  fold n in Herr, Hup, Hlow, Hnorm.
  exists m'', e'', m', n.
  split; [exact Hround|]. split; [lia|]. split; [exact Hm'|].
  rewrite Z.mul_1_r, Hmx in Herr. split; [exact Herr|]. split.
  - intros K HK. apply Hup. rewrite Z.mul_1_r, Hmx. exact HK.
  - replace (eq + 0 + n) with (eq + n) in Hnorm by lia. exact Hnorm.
Qed.

Lemma to_int_floor (m : positive) (e : Z) :
  e < 0 -> Float.to_int (S754_finite false m e) = Ok (Zpos m / 2 ^ (- e)).
Proof.
  intros He. destruct e as [|p|p]; [lia|lia|].
  cbn [Float.to_int]. rewrite Z.shiftr_div_pow2 by lia. reflexivity.
Qed.

Lemma pow2_le_inv (a b : Z) : 0 <= a -> 0 <= b -> 2 ^ a < 2 ^ b -> a < b.
Proof. intros Ha Hb H. apply (Z.pow_lt_mono_r_iff 2); lia. Qed.

(** The final comparison, on integers: [m2 / B] is the float product,
    [m1 / A] the float quotient, [G = A / B]. *)
Lemma floor_of_rounded (c t m1 m2 A B G : Z) :
  1 <= t <= 2 ^ 45 -> 0 <= c ->
  2 ^ 52 <= A -> 2 ^ 46 <= B -> 0 < G -> A = B * G ->
  0 <= m1 -> 0 <= m2 ->
  2 * Z.abs (m1 * t - c * A) <= t ->
  2 * Z.abs (m2 * G - 100 * m1) <= G ->
  100 * c / t - 1 <= m2 / B <= 100 * c / t.
Proof.
  intros Ht Hc HA HB HG HAB Hm1 Hm2 HD HM.
  set (k := 100 * c / t).
  assert (Hk : k * t <= 100 * c < (k + 1) * t).
  { subst k. pose proof (Z.mul_div_le (100 * c) t ltac:(lia)).
    pose proof (Z.mul_succ_div_gt (100 * c) t ltac:(lia)). lia. }
  assert (HGt : 2 * (G * t) <= A).
  { assert (G * t <= G * 2 ^ 45) by (apply Z.mul_le_mono_nonneg_l; lia).
    assert (G * 2 ^ 46 <= A).
    { rewrite HAB, (Z.mul_comm B G). apply Z.mul_le_mono_nonneg_l; lia. }
    change (2 ^ 46) with (2 * 2 ^ 45) in H0. lia. }
  assert (H100 : 100 * t < A).
  { change (2 ^ 52) with (128 * 2 ^ 45) in HA. lia. }
  assert (HB0 : 0 < B) by lia.
  split.
  - apply Z.div_le_lower_bound; [exact HB0|].
    destruct (Z.le_gt_cases (B * (k - 1)) m2) as [?|Hcontra]; [assumption|].
    exfalso.
    assert (F1 : m2 * G + G <= (k - 1) * A).
    { rewrite HAB.
      replace ((k - 1) * (B * G)) with ((B * (k - 1)) * G) by ring.
      replace (m2 * G + G) with ((m2 + 1) * G) by ring.
      apply Z.mul_le_mono_nonneg_r; lia. }
    assert (F2 : 200 * m1 <= 2 * ((k - 1) * A) - G) by lia.
    assert (F3 : 200 * (m1 * t) <= (2 * ((k - 1) * A) - G) * t).
    { replace (200 * (m1 * t)) with ((200 * m1) * t) by ring.
      apply Z.mul_le_mono_nonneg_r; lia. }
    assert (F4 : (k * t) * A <= (100 * c) * A)
      by (apply Z.mul_le_mono_nonneg_r; lia).
    replace ((2 * ((k - 1) * A) - G) * t)
      with (2 * ((k * t) * A) - 2 * (t * A) - G * t) in F3 by ring.
    replace (100 * c * A) with (100 * (c * A)) in F4 by ring.
    assert (F5 : 0 < t * A) by (apply Z.mul_pos_pos; lia).
    lia.
  - assert (m2 / B < k + 1); [|lia].
    apply Z.div_lt_upper_bound; [exact HB0|].
    destruct (Z.lt_ge_cases m2 (B * (k + 1))) as [?|Hcontra]; [assumption|].
    exfalso.
    assert (F1 : (k + 1) * A <= m2 * G).
    { rewrite HAB.
      replace ((k + 1) * (B * G)) with ((B * (k + 1)) * G) by ring.
      apply Z.mul_le_mono_nonneg_r; lia. }
    assert (F2 : 2 * ((k + 1) * A) - G <= 200 * m1) by lia.
    assert (F3 : (2 * ((k + 1) * A) - G) * t <= 200 * (m1 * t)).
    { replace (200 * (m1 * t)) with ((200 * m1) * t) by ring.
      apply Z.mul_le_mono_nonneg_r; lia. }
    assert (F4 : (100 * c + 1) * A <= ((k + 1) * t) * A)
      by (apply Z.mul_le_mono_nonneg_r; lia).
    replace ((2 * ((k + 1) * A) - G) * t)
      with (2 * (((k + 1) * t) * A) - G * t) in F3 by ring.
    replace ((100 * c + 1) * A) with (100 * (c * A) + A) in F4 by ring.
    lia.
Qed.

Lemma div_pow2_carry (b : Z) : 1 <= b -> 2 ^ 52 / 2 ^ (b - 1) = 2 ^ 53 / 2 ^ b.
Proof.
  intros Hb. replace (2 ^ b) with (2 * 2 ^ (b - 1)).
  - change (2 ^ 53) with (2 * 2 ^ 52).
    rewrite Z.div_mul_cancel_l; [reflexivity| |lia].
    pose proof (pow2_pos (b - 1) ltac:(lia)). lia.
  - rewrite <- Z.pow_succ_r by lia. f_equal. lia.
Qed.

(** [int((c / t) * 100)] for [1 <= c <= t]: no exception, a value in
    [0, 100], and, for totals up to [2^45], the exact floor of
    [100 * c / t] or one less. *)
Lemma percent_normal (c t : Z) :
  1 <= c <= t -> t < 2 ^ 1000 ->
  exists p,
    Float.percent c t = Ok p
    /\ 0 <= p <= 100
    /\ (t <= 2 ^ 45 -> 100 * c / t - 1 <= p <= 100 * c / t).
Proof.
  intros Hct Ht.
  destruct (div_normal c t Hct Ht)
    as (mq & eq & m1 & a & Hdiv & Ha & Hm1 & Hm1a & HD & Hnq).
  assert (Hmq : 2 ^ 52 <= Z.pos mq < 2 ^ 53).
  { destruct Hnq as [(-> & ? & _)|(_ & -> & _)]; lia. }
  assert (Heq : - a <= eq <= 1 - a) by (destruct Hnq as [?|?]; lia).
  destruct (mul100_normal mq eq Hmq ltac:(lia))
    as (mp & ep & m2 & n2 & Hmul & Hn2 & Hm2 & HM & Hup & Hnp).
  assert (Hep : ep < 0) by (destruct Hnp as [?|?]; lia).
  set (b := - (eq + n2)).
  assert (Hb1 : 1 <= b) by (subst b; lia).
  pose proof (pow2_pos a ltac:(lia)) as HpA.
  pose proof (pow2_pos b ltac:(lia)) as HpB.
  pose proof (pow2_pos n2 ltac:(lia)) as HpN.
  (* the value computed *)
  assert (Hval : Float.percent c t = Ok (m2 / 2 ^ b)).
  { unfold Float.percent, Float.truediv.
    replace (t =? 0) with false by (symmetry; apply Z.eqb_neq; lia).
    fold Float.prec Float.emax. unfold Float.prec, Float.emax.
    rewrite Hdiv, Hmul, to_int_floor by exact Hep. f_equal.
    destruct Hnp as [(-> & _ & ->)|(-> & -> & ->)].
    - reflexivity.
    - replace (- (eq + n2 + 1)) with (b - 1) by (subst b; lia).
      now apply div_pow2_carry. }
  (* the mantissa of the quotient is at most 2^(-eq) *)
  assert (Hq1 : Z.pos mq <= 2 ^ (- eq)).
  { destruct Hnq as [(-> & _ & ->)|(Hm1c & -> & ->)].
    - now rewrite Z.opp_involutive.
    - rewrite Hm1c in Hm1a.
      assert (53 <= a).
      { destruct (Z.le_gt_cases 53 a) as [?|Hlt]; [assumption|].
        assert (2 ^ a <= 2 ^ 52) by (apply Z.pow_le_mono_r; lia).
        change (2 ^ 53) with (2 * 2 ^ 52) in Hm1a. lia. }
      apply Z.pow_le_mono_r; lia. }
  (* at most 100 *)
  assert (Hm2b : m2 <= 100 * 2 ^ b).
  { apply Hup. replace (100 * 2 ^ b * 2 ^ n2) with (100 * 2 ^ (- eq)).
    - lia.
    - rewrite <- Z.mul_assoc, <- Z.pow_add_r by lia. do 2 f_equal.
      subst b. lia. }
  exists (m2 / 2 ^ b). split; [exact Hval|]. split.
  { split.
    - apply Z.div_pos; lia.
    - apply Z.div_le_upper_bound; lia. }
  intros Ht45.
  assert (Hb46 : 46 <= b).
  { assert (2 ^ 52 < 2 ^ (b + 7)).
    { rewrite Z.pow_add_r by lia. change (2 ^ 7) with 128. lia. }
    apply pow2_le_inv in H; lia. }
  set (g := a - b).
  assert (Hg : 0 <= g) by (subst g b; lia).
  assert (HA : 2 ^ 52 <= 2 ^ a) by (apply Z.pow_le_mono_r; lia).
  assert (HB : 2 ^ 46 <= 2 ^ b) by (apply Z.pow_le_mono_r; lia).
  assert (HG : 0 < 2 ^ g) by (apply pow2_pos; lia).
  assert (HAB : 2 ^ a = 2 ^ b * 2 ^ g).
  { rewrite <- Z.pow_add_r by lia. f_equal. subst g. lia. }
  assert (HM' : 2 * Z.abs (m2 * 2 ^ g - 100 * m1) <= 2 ^ g).
  { destruct Hnq as [(Hq & _ & Hqe)|(Hm1c & Hq & Hqe)].
    - replace g with n2 by (subst g b; lia). rewrite <- Hq. exact HM.
    - replace g with (n2 + 1) by (subst g b; lia).
      rewrite Z.pow_add_r by lia. change (2 ^ 1) with 2.
      rewrite Hq in HM. rewrite Hm1c. change (2 ^ 53) with (2 * 2 ^ 52).
      replace (m2 * (2 ^ n2 * 2) - 100 * (2 * 2 ^ 52))
        with (2 * (m2 * 2 ^ n2 - 100 * 2 ^ 52)) by ring.
      rewrite Z.abs_mul. change (Z.abs 2) with 2. lia. }
  apply (floor_of_rounded c t m1 m2 (2 ^ a) (2 ^ b) (2 ^ g));
    solve [assumption | lia].
Qed.

(** *** Quotients of any size *)

(** The quotient of any two positive integers below [2^1000], rounded to
    binary64, is a finite float with a full mantissa. *)
Lemma div_finite (c t : Z) :
  1 <= c < 2 ^ 1000 -> 1 <= t < 2 ^ 1000 ->
  exists mq eq,
    SFdiv 53 1024 (Float.of_int c) (Float.of_int t) = S754_finite false mq eq
    /\ 2 ^ 52 <= Zpos mq < 2 ^ 53
    /\ -1074 <= eq <= Zdigits2 c - 52.
Proof.
  intros Hc Ht.
  destruct c as [|pc|pc]; [lia| |lia]. destruct t as [|pt|pt]; [lia| |lia].
  pose proof (digits_bounds pc) as Hdc. pose proof (digits_bounds pt) as Hdt.
  pose proof (digits_below pc 1000 ltac:(lia) ltac:(lia)) as Hd1'.
  pose proof (digits_below pt 1000 ltac:(lia) ltac:(lia)) as Hd2.
  pose proof (digits_pos pc) as Hd1. pose proof (digits_pos pt) as Hd2'.
  set (d1 := Zdigits2 (Z.pos pc)) in *. set (d2 := Zdigits2 (Z.pos pt)) in *.
  set (s := Z.max (d2 - d1 + 53) 0).
  assert (Hs : 0 <= s <= 1074) by (subst s; lia).
  pose proof (pow2_pos s ltac:(lia)) as Hps.
  assert (Hcore : SFdiv_core_binary 53 1024 (Z.pos pc) 0 (Z.pos pt) 0
                  = ((Z.pos pc * 2 ^ s) / Z.pos pt, - s,
                     new_location (Z.pos pt) ((Z.pos pc * 2 ^ s) mod Z.pos pt))).
  { unfold SFdiv_core_binary. fold d1 d2.
    rewrite fexp_normal by lia.
    replace (Z.min (d1 + 0 - (d2 + 0) - 53) (0 - 0)) with (- s) by lia.
    replace (0 - 0 - - s) with s by lia.
    destruct s as [|ps|ps] eqn:Es; [|  |lia].
    - rewrite Z.mul_1_r. now rewrite div_eucl_div_mod.
    - rewrite Z.shiftl_mul_pow2 by lia. now rewrite div_eucl_div_mod. }
  set (N := Z.pos pc * 2 ^ s) in *.
  set (q := N / Z.pos pt) in *.
  assert (HNlo : 2 ^ (d1 - 1 + s) <= N).
  { subst N. rewrite Z.pow_add_r by lia. apply Z.mul_le_mono_nonneg_r; lia. }
  assert (HNhi : N < 2 ^ (d1 + s)).
  { subst N. rewrite Z.pow_add_r by lia. apply Z.mul_lt_mono_pos_r; lia. }
  set (k := d1 + s - d2) in *.
  assert (Hk : 53 <= k) by (subst k s; lia).
  assert (Hq : 2 ^ (k - 1) <= q < 2 ^ (k + 1)).
  { subst q. split.
    - apply Z.div_le_lower_bound; [lia|].
      replace (d1 - 1 + s) with (d2 + (k - 1)) in HNlo by (subst k; lia).
      rewrite Z.pow_add_r in HNlo by lia.
      pose proof (pow2_pos (k - 1) ltac:(lia)). nia.
    - apply Z.div_lt_upper_bound; [lia|].
      replace (d1 + s) with (d2 - 1 + (k + 1)) in HNhi by (subst k; lia).
      rewrite Z.pow_add_r in HNhi by lia.
      pose proof (pow2_pos (k + 1) ltac:(lia)). nia. }
  assert (Hin : inbetween q (new_location (Z.pos pt) (N mod Z.pos pt)) N (Z.pos pt)).
  { pose proof (pow2_pos (k - 1) ltac:(lia)).
    pose proof (new_location_spec (Z.pos pt) (N mod Z.pos pt) q ltac:(lia)
                  (Z.mod_pos_bound N (Z.pos pt) ltac:(lia))) as H'.
    replace (q * Z.pos pt + N mod Z.pos pt) with N in H'; [exact H'|].
    subst q. rewrite (Z.div_mod N (Z.pos pt)) at 1 by lia. ring. }
  assert (Hn : Zdigits2 q = k \/ Zdigits2 q = k + 1).
  { pose proof (pow2_pos (k - 1) ltac:(lia)).
    destruct q as [|pq|pq] eqn:Eq; [lia| |lia].
    destruct (Z.lt_ge_cases (Z.pos pq) (2 ^ k)).
    - left. apply digits_unique. lia.
    - right. apply digits_unique. replace (k + 1 - 1) with k by lia. lia. }
  set (n := Zdigits2 q - 53) in *.
  pose proof (pow2_pos (k - 1) ltac:(lia)) as Hpk.
  destruct (round_normal false q (- s) (new_location (Z.pos pt) (N mod Z.pos pt))
              N (Z.pos pt) ltac:(lia) ltac:(fold n; lia) ltac:(fold n; subst k; lia)
              ltac:(fold n; subst k; lia) Hin)
    as (m' & m'' & e'' & Hround & Hm' & _ & _ & _ & Hnorm).
  fold n in Hnorm.
  exists m'', e''. split.
  { unfold SFdiv, Float.of_int. rewrite Hcore. exact Hround. }
  change (2 ^ 53) with (2 * 2 ^ 52) in *.
  destruct Hnorm as [(-> & ? & ->)|(? & -> & ->)]; subst n k; cbn [Zdigits2]; fold d1; lia.
Qed.

Lemma to_int_finite (m : positive) (e : Z) :
  exists a, Float.to_int (S754_finite false m e) = Ok a /\ 0 <= a.
Proof.
  cbn [Float.to_int]. eexists. split; [reflexivity|].
  destruct e as [|p|p].
  - rewrite Z.shiftl_0_r. lia.
  - rewrite Z.shiftl_mul_pow2 by lia. pose proof (pow2_pos (Z.pos p)). lia.
  - rewrite Z.shiftr_div_pow2 by lia. apply Z.div_pos; [lia|].
    apply pow2_pos. lia.
Qed.

(** [int((c / t) * 100)] for positive integers: no exception, whatever
    their ratio. *)
Lemma percent_finite (c t : Z) :
  1 <= c < 2 ^ 950 -> 1 <= t < 2 ^ 1000 ->
  exists p, Float.percent c t = Ok p /\ 0 <= p.
Proof.
  intros Hc Ht.
  assert (2 ^ 950 < 2 ^ 1000) as Hpow by (apply Z.pow_lt_mono_r; lia).
  destruct (div_finite c t ltac:(lia) Ht) as (mq & eq & Hdiv & Hmq & Heq).
  assert (Zdigits2 c <= 950) as Hd.
  { destruct c as [|pc|pc]; [lia| |lia]. apply digits_below; lia. }
  destruct (mul100_normal mq eq Hmq ltac:(lia))
    as (mp & ep & _ & _ & Hmul & _).
  destruct (to_int_finite mp ep) as (a & Ha & Hpos).
  exists a. split; [|exact Hpos].
  unfold Float.percent, Float.truediv.
  replace (t =? 0) with false by (symmetry; apply Z.eqb_neq; lia).
  fold Float.prec Float.emax. unfold Float.prec, Float.emax.
  now rewrite Hdiv, Hmul.
Qed.

End FloatProps.

(** ** History *)
Module HistoryProps.
Import History Samples.

Lemma insert_capped_length (e : entry) (h : list entry) :
  length (insert_capped e h) = Nat.min limit (S (length h)).
Proof.
  unfold insert_capped.
  destruct (limit <? length (e :: h))%nat eqn:Hcap.
  - rewrite length_firstn. reflexivity.
  - apply Nat.ltb_ge in Hcap. cbn [length] in *. lia.
Qed.

Lemma insert_capped_full (e : entry) (h : list entry) :
  length h = limit ->
  insert_capped e h = e :: removelast h.
Proof.
  intros Hlen. unfold insert_capped.
  destruct (limit <? length (e :: h))%nat eqn:Hcap.
  - change (firstn limit (e :: h)) with (e :: firstn (Nat.pred limit) h).
    f_equal. rewrite removelast_firstn_len. now rewrite Hlen.
  - apply Nat.ltb_ge in Hcap. simpl in Hcap. lia.
Qed.

Lemma add_to_history_list (how : write_end) (e : entry) (a : app) :
  download_history (add_to_history how e a)
  = insert_capped e (download_history a).
Proof. unfold add_to_history, save_history. now destruct how. Qed.

(** C7. When the history holds at most 100 entries, [add_to_history]
    leaves at most 100; when it holds exactly 100, the result is the new
    entry followed by the old list without its last (oldest) element, in
    the same order, and has length 100 again. *)
Theorem add_to_history_cap (how : write_end) (e : entry) (a : app) :
  (length (download_history a) <= 100)%nat ->
  let after := download_history (add_to_history how e a) in
  (length after <= 100)%nat
  /\ (length (download_history a) = 100%nat ->
      length after = 100%nat
      /\ exists kept oldest,
          download_history a = kept ++ [oldest] /\ after = e :: kept).
Proof.
  intros Hle after. subst after. rewrite add_to_history_list. split.
  - rewrite insert_capped_length. unfold limit. lia.
  - intros Hfull. split.
    + rewrite insert_capped_length. unfold limit. lia.
    + destruct (exists_last (l := download_history a)) as (kept & oldest & Hsplit).
      { intros Hnil. now rewrite Hnil in Hfull. }
      exists kept, oldest. split; [exact Hsplit|].
      rewrite insert_capped_full by exact Hfull.
      now rewrite Hsplit, removelast_last.
Qed.

Lemma add_to_history_cap_witness :
  let after :=
    download_history (add_to_history Written (sample_entry 100) sample_app) in
  (length after <= 100)%nat
  /\ (length (download_history sample_app) = 100%nat ->
      length after = 100%nat
      /\ exists kept oldest,
          download_history sample_app = kept ++ [oldest]
          /\ after = sample_entry 100 :: kept).
Proof.
  apply (add_to_history_cap Written (sample_entry 100) sample_app).
  unfold sample_app. cbn [download_history].
  rewrite length_map, length_seq. lia.
Defined.

(** *** Series of insertions *)

Lemma insert_capped_first (e : entry) (h : list entry) :
  insert_capped e h = firstn limit (e :: h).
Proof.
  unfold insert_capped.
  destruct (limit <? length (e :: h))%nat eqn:Hcap; [reflexivity|].
  apply Nat.ltb_ge in Hcap. symmetry. now apply firstn_all2.
Qed.

Lemma firstn_app_firstn {A} (n k : nat) (l m : list A) :
  (n <= k)%nat -> firstn n (l ++ firstn k m) = firstn n (l ++ m).
Proof.
  revert n. induction l as [|x l IH]; intros n Hn.
  - cbn [List.app]. rewrite firstn_firstn. f_equal. lia.
  - destruct n as [|n]; [reflexivity|]. cbn [List.app firstn]. f_equal.
    apply IH. lia.
Qed.

Lemma add_all_list (calls : list (write_end * entry)) (a : app) :
  download_history (add_all calls a)
  = match calls with
    | [] => download_history a
    | _ => firstn limit (rev (map snd calls) ++ download_history a)
    end.
Proof.
  revert a. induction calls as [|c rest IH]; intros a; [reflexivity|].
  unfold add_all in *. cbn [fold_left]. rewrite IH, add_to_history_list.
  rewrite insert_capped_first. destruct rest as [|c' rest].
  - reflexivity.
  - rewrite firstn_app_firstn by lia. cbn [map rev].
    now rewrite <- !app_assoc.
Qed.

Lemma add_all_last (calls : list (write_end * entry))
    (c : write_end * entry) (a : app) :
  add_all (calls ++ [c]) a = add_to_history (fst c) (snd c) (add_all calls a).
Proof. unfold add_all. now rewrite fold_left_app. Qed.

(** X20. After any series of calls of [add_to_history]: the history is
    the first 100 of the new entries, newest first, followed by the old
    ones, and the widget shows exactly it.  The file depends on the write
    of the last call alone: it holds the history when that write was
    completed; it is what it was before that call when the write was
    refused before the file was opened; and it is torn, holding neither
    the old nor the new history, when the write broke off after the file
    had been opened. *)
Theorem add_all_newest_first (calls : list (write_end * entry))
    (how : write_end) (e : entry) (a : app) :
  let after := add_all (calls ++ [(how, e)]) a in
  download_history after
  = firstn 100 (e :: rev (map snd calls) ++ download_history a)
  /\ (length (download_history after) <= 100)%nat
  /\ history_list after = download_history after
  /\ history_file after
     = match how with
       | Written => Some (Json (download_history after))
       | Refused => history_file (add_all calls a)
       | Broken => Some Torn
       end.
Proof.
  intros after. subst after. split; [|split; [|split]].
  - rewrite add_all_list. destruct (calls ++ [(how, e)]) eqn:Hc.
    + now destruct calls.
    + rewrite <- Hc, map_app, rev_app_distr. reflexivity.
  - rewrite add_all_last, add_to_history_list, insert_capped_length.
    unfold limit. lia.
  - rewrite add_all_last. unfold add_to_history, save_history.
    now destruct (fst (how, e)).
  - rewrite add_all_last. unfold add_to_history, save_history. cbn [fst snd].
    now destruct how.
Qed.

End HistoryProps.

(** ** Version comparison *)
Module VersionProps.
Import Version PyProps.

Lemma digits_of_app (a b : string) :
  Py.digits_of (a +:+ b) = Py.digits_of a +:+ Py.digits_of b.
Proof.
  induction a as [|c a IH]; [reflexivity|].
  rewrite append_cons. simpl.
  destruct (Py.isdigit c); [rewrite append_cons|]; now rewrite IH.
Qed.

Lemma digits_of_digits (ds : string) :
  Py.every Py.isdigit ds = true -> Py.digits_of ds = ds.
Proof.
  induction ds as [|c ds IH]; simpl; [reflexivity|].
  intros H. apply andb_true_iff in H as [Hc Hds].
  rewrite Hc. now rewrite IH.
Qed.

Lemma digits_of_none (p : string) :
  Py.every (fun c => negb (Py.isdigit c)) p = true ->
  Py.digits_of p = EmptyString.
Proof.
  induction p as [|c p IH]; simpl; [reflexivity|].
  intros H. apply andb_true_iff in H as [Hc Hp].
  apply negb_true_iff in Hc. rewrite Hc. now apply IH.
Qed.

Lemma component_suffix (ds suffix : string) :
  Py.truthy ds = true ->
  Py.every Py.isdigit ds = true ->
  Py.every (fun c => negb (Py.isdigit c)) suffix = true ->
  component (ds +:+ suffix) = Py.int_of_digits ds.
Proof.
  intros Hne Hds Hsuf. unfold component.
  rewrite digits_of_app, (digits_of_digits _ Hds), (digits_of_none _ Hsuf).
  rewrite append_empty_r. now rewrite Hne.
Qed.

Lemma component_no_digit (p : string) :
  Py.every (fun c => negb (Py.isdigit c)) p = true -> component p = 0.
Proof.
  intros Hp. unfold component. now rewrite (digits_of_none _ Hp).
Qed.

Lemma tuple_gt_lex (a b : list Z) : tuple_gt a b = true <-> lex_lt b a.
Proof.
  revert b. induction a as [|x a IH]; intros b.
  - simpl. split; [discriminate|]. intros H. inversion H.
  - destruct b as [|y b]; simpl.
    + split; [intros _; constructor|reflexivity].
    + destruct (Z.eqb_spec x y) as [->|Hne].
      * rewrite IH. split.
        -- intros H. now apply lex_tail.
        -- intros H. inversion H; subst; [lia|assumption].
      * rewrite Z.ltb_lt. split.
        -- intros H. now apply lex_head.
        -- intros H. inversion H; subst; [assumption|congruence].
Qed.

Lemma lex_lt_irrefl (t : list Z) : ~ lex_lt t t.
Proof.
  induction t as [|x t IH]; intros H; inversion H; subst; [lia|auto].
Qed.

Lemma lex_lt_trans (a b c : list Z) : lex_lt a b -> lex_lt b c -> lex_lt a c.
Proof.
  intros Hab. revert c.
  induction Hab as [y b|x y a b Hxy|x a b Hab IH]; intros c Hbc;
    inversion Hbc; subst.
  - constructor.
  - constructor.
  - apply lex_head. lia.
  - now apply lex_head.
  - now apply lex_head.
  - apply lex_tail. now apply IH.
Qed.

Lemma lex_lt_total (a b : list Z) : lex_lt a b \/ a = b \/ lex_lt b a.
Proof.
  revert b. induction a as [|x a IH]; intros [|y b].
  - right; left; reflexivity.
  - left; constructor.
  - right; right; constructor.
  - destruct (Z.lt_trichotomy x y) as [H|[->|H]].
    + left. now apply lex_head.
    + destruct (IH b) as [H|[->|H]].
      * left. now apply lex_tail.
      * right; left; reflexivity.
      * right; right. now apply lex_tail.
    + right; right. now apply lex_head.
Qed.

(** Tuples of different lengths are not padded: a tuple is smaller than
    each of its proper extensions, so [1.0.0] wins against [1.0]. *)
Lemma lex_lt_extension (a b : list Z) (y : Z) : lex_lt a (a ++ y :: b).
Proof.
  induction a as [|x a IH]; [apply lex_shorter|]. now apply lex_tail.
Qed.

Lemma update_available_longer : update_available "1.0.0" "1.0" = true.
Proof. reflexivity. Qed.

Lemma truthy_nonempty (s : string) : Py.truthy s = true <-> s <> EmptyString.
Proof. destruct s; simpl; split; congruence. Qed.

(** *** Versions printed and read back *)

Lemma component_of_int (n : Z) : 0 <= n -> component (Py.str_of_int n) = n.
Proof.
  intros Hn. unfold component.
  rewrite digits_of_digits by now apply str_of_int_digits.
  now rewrite str_of_int_truthy, int_of_str_of_int.
Qed.

Lemma version_tuple_dotted (n : Z) (ns : list Z) :
  Forall (fun k => 0 <= k) (n :: ns) ->
  version_tuple (Py.join "." (map Py.str_of_int (n :: ns))) = n :: ns.
Proof.
  revert n. induction ns as [|m ns IH]; intros n Hall.
  - cbn [map Py.join]. unfold version_tuple.
    apply Forall_inv in Hall.
    rewrite split_plain
      by (apply digits_lack; [reflexivity|now apply str_of_int_digits]).
    cbn [map]. now rewrite component_of_int.
  - pose proof (Forall_inv Hall) as Hn. apply Forall_inv_tail in Hall.
    specialize (IH m Hall). unfold version_tuple in *.
    change (Py.join "." (map Py.str_of_int (n :: m :: ns)))
      with (Py.str_of_int n +:+ "." +:+ Py.join "." (map Py.str_of_int (m :: ns))).
    change ("." +:+ Py.join "." (map Py.str_of_int (m :: ns)))
      with (String "." (Py.join "." (map Py.str_of_int (m :: ns)))).
    rewrite split_append
      by (apply digits_lack; [reflexivity|now apply str_of_int_digits]).
    rewrite (List.map_cons component), IH. now rewrite component_of_int.
Qed.

Lemma join_truthy (n : Z) (ns : list Z) :
  0 <= n -> Py.truthy (Py.join "." (map Py.str_of_int (n :: ns))) = true.
Proof.
  intros Hn. pose proof (str_of_int_truthy n Hn) as H.
  destruct ns as [|m ns]; cbn [map Py.join]; [exact H|].
  destruct (Py.str_of_int n); [discriminate|reflexivity].
Qed.

(** X19. Reading a version back: for numbers that are not negative, the
    dotted text of [n1.n2...nk] is read as the tuple [(n1, ..., nk)]; so
    on such texts the update is offered exactly when the tuple of the tag
    is greater, in lexicographic order, than the installed one. *)
Theorem version_tuple_canonical (n : Z) (ns : list Z) (m : Z) (ms : list Z) :
  Forall (fun k => 0 <= k) (n :: ns) ->
  Forall (fun k => 0 <= k) (m :: ms) ->
  let dotted l := Py.join "." (map Py.str_of_int l) in
  version_tuple (dotted (n :: ns)) = n :: ns
  /\ (update_available (dotted (n :: ns)) (dotted (m :: ms)) = true
      <-> lex_lt (m :: ms) (n :: ns)).
Proof.
  intros Hn Hm dotted. subst dotted. cbv beta.
  split; [now apply version_tuple_dotted|].
  unfold update_available.
  rewrite join_truthy by now apply Forall_inv in Hn.
  rewrite !version_tuple_dotted by assumption.
  cbn [andb]. apply tuple_gt_lex.
Qed.

Lemma version_tuple_canonical_witness :
  version_tuple "4.2.11" = [4; 2; 11]
  /\ (update_available "4.2.11" "4.2.10" = true
      <-> lex_lt [4; 2; 10] [4; 2; 11]).
Proof.
  apply (version_tuple_canonical 4 [2; 11] 4 [2; 10]);
    repeat constructor; lia.
Defined.

(** *** The comparison *)

Lemma version_tuple_plain (p : string) :
  Py.every (fun c => negb (Ascii.eqb c ".")) p = true ->
  version_tuple p = [component p].
Proof. intros Hp. unfold version_tuple. now rewrite split_plain. Qed.

Lemma version_tuple_cons (p v : string) :
  Py.every (fun c => negb (Ascii.eqb c ".")) p = true ->
  version_tuple (p +:+ "." +:+ v) = component p :: version_tuple v.
Proof.
  intros Hp. unfold version_tuple.
  change ("." +:+ v) with (String "." v).
  now rewrite split_append.
Qed.

Lemma update_available_extension (n : Z) (ns : list Z) (m : Z) (ms : list Z) :
  Forall (fun k => 0 <= k) (n :: ns ++ m :: ms) ->
  update_available (Py.join "." (map Py.str_of_int (n :: ns ++ m :: ms)))
    (Py.join "." (map Py.str_of_int (n :: ns))) = true.
Proof.
  intros Hall. unfold update_available.
  rewrite join_truthy by now apply Forall_inv in Hall.
  rewrite (version_tuple_dotted n (ns ++ m :: ms)) by exact Hall.
  rewrite (version_tuple_dotted n ns).
  - cbn [andb]. apply tuple_gt_lex.
    exact (lex_lt_extension (n :: ns) ms m).
  - change (n :: ns ++ m :: ms) with ((n :: ns) ++ m :: ms) in Hall.
    now apply Forall_app in Hall.
Qed.

(** C4, as amended. A version text is read component by component,
    the components being the stretches between the dots: a component
    made of digits followed by characters none of which is a digit counts
    as its digits, and a component without any digit (an empty one
    included) counts as 0.  The remote tag wins exactly when it is not
    empty and its tuple is strictly greater than the local one in
    lexicographic order, a strict total order in which a tuple is smaller
    than each of its proper extensions: missing components are not filled
    up, so a tag that adds components to the installed version wins even
    when all of them are 0.  No version wins against itself.  The three
    stated examples hold. *)
Theorem version_comparison :
  (forall p v,
     Py.every (fun c => negb (Ascii.eqb c ".")) p = true ->
     version_tuple p = [component p]
     /\ version_tuple (p +:+ "." +:+ v) = component p :: version_tuple v)
  /\ (forall ds suffix,
        Py.truthy ds = true ->
        Py.every Py.isdigit ds = true ->
        Py.every (fun c => negb (Py.isdigit c)) suffix = true ->
        component (ds +:+ suffix) = Py.int_of_digits ds)
  /\ (forall p,
        Py.every (fun c => negb (Py.isdigit c)) p = true -> component p = 0)
  /\ (forall latest_tag current_version,
        update_available latest_tag current_version = true
        <-> latest_tag <> EmptyString
            /\ lex_lt (version_tuple current_version)
                      (version_tuple latest_tag))
  /\ (forall a b c, ~ lex_lt a a
                    /\ (lex_lt a b -> lex_lt b c -> lex_lt a c)
                    /\ (lex_lt a b \/ a = b \/ lex_lt b a))
  /\ (forall a y b, lex_lt a (a ++ y :: b))
  /\ (forall n ns m ms,
        Forall (fun k => 0 <= k) (n :: ns ++ m :: ms) ->
        update_available
          (Py.join "." (map Py.str_of_int (n :: ns ++ m :: ms)))
          (Py.join "." (map Py.str_of_int (n :: ns))) = true)
  /\ (forall v, update_available v v = false)
  /\ version_tuple "1.2.3" = [1; 2; 3]
  /\ version_tuple "1.2.3-beta" = [1; 2; 3]
  /\ tuple_gt (version_tuple "2.0") (version_tuple "1.9.9") = true.
Proof.
  split.
  { intros p v Hp. split; [now apply version_tuple_plain
                          |now apply version_tuple_cons]. }
  split; [exact component_suffix|].
  split; [exact component_no_digit|].
  split.
  { intros latest_tag current_version. unfold update_available.
    rewrite andb_true_iff, truthy_nonempty, tuple_gt_lex. reflexivity. }
  split.
  { intros a b c. split; [apply lex_lt_irrefl|].
    split; [apply lex_lt_trans|apply lex_lt_total]. }
  split; [intros a y b; apply lex_lt_extension|].
  split; [exact update_available_extension|].
  split.
  { intros v. unfold update_available.
    destruct (tuple_gt (version_tuple v) (version_tuple v)) eqn:H.
    - apply tuple_gt_lex in H. now apply lex_lt_irrefl in H.
    - apply andb_false_r. }
  repeat split; reflexivity.
Qed.

(** C4, as stated, fails.  The tuples of [1.0.0] and [1.0] are
    (1, 0, 0) and (1, 0); with the missing component counted as 0 neither
    is greater, yet the tag [1.0.0] wins over the installed [1.0].  And
    the component [3-beta2], whose digits are followed by a suffix, is
    read as 32, not as 3. *)
Lemma version_comparison_counterexample :
  (version_tuple "1.0.0" = [1; 0; 0]
   /\ version_tuple "1.0" = [1; 0]
   /\ padded_gt (version_tuple "1.0.0") (version_tuple "1.0") = false
   /\ padded_gt (version_tuple "1.0") (version_tuple "1.0.0") = false
   /\ update_available "1.0.0" "1.0" = true)
  /\ (stripped_component "3-beta2" = 3
      /\ component "3-beta2" = 32
      /\ version_tuple "1.2.3-beta2" = [1; 2; 32]).
Proof. repeat split; reflexivity. Qed.

End VersionProps.

(** ** Asset choice *)
Module AssetsProps.
Import Assets Samples.

Lemma first_pass_first (tokens : list string) (pre : list asset)
    (a : asset) (post : list asset) :
  Forall (fun b => arch_match tokens b = false) pre ->
  arch_match tokens a = true ->
  first_pass tokens (pre ++ a :: post) = browser_download_url a.
Proof.
  induction 1 as [|b pre Hb _ IH]; intros Ha; simpl.
  - now rewrite Ha.
  - rewrite Hb. now apply IH.
Qed.

Lemma first_pass_none (tokens : list string) (assets : list asset) :
  Forall (fun b => arch_match tokens b = false) assets ->
  first_pass tokens assets = None.
Proof.
  induction 1 as [|b l Hb _ IH]; simpl; [reflexivity|]. now rewrite Hb.
Qed.

Lemma legacy_pass_first (tag : string) (pre : list asset) (a : asset)
    (post : list asset) (u : option string) :
  Forall (fun b => legacy_match tag b = false) pre ->
  legacy_match tag a = true ->
  legacy_pass tag (pre ++ a :: post) u = browser_download_url a.
Proof.
  induction 1 as [|b pre Hb _ IH]; intros Ha; simpl.
  - now rewrite Ha.
  - rewrite Hb. now apply IH.
Qed.

Lemma legacy_pass_none (tag : string) (assets : list asset)
    (u : option string) :
  Forall (fun b => legacy_match tag b = false) assets ->
  legacy_pass tag assets u = u.
Proof.
  induction 1 as [|b l Hb _ IH]; simpl; [reflexivity|]. now rewrite Hb.
Qed.

Lemma legacy_match_name (tag : string) (a : asset) :
  legacy_match tag a = true <-> name a = Some (legacy_name tag).
Proof.
  unfold legacy_match. destruct (name a) as [n|]; [|split; discriminate].
  rewrite String.eqb_eq. split; congruence.
Qed.

Lemma preferred_tokens_cases (arch : string) :
  preferred_tokens arch = ["arm64"; "aarch64"]
  \/ preferred_tokens arch = ["x64"; "amd64"; "win64"]
  \/ preferred_tokens arch = ["win32"; "x86"].
Proof.
  unfold preferred_tokens.
  destruct (Py.contains "arm" arch); [now left|].
  destruct (_ || _); [right; now left|right; now right].
Qed.

Lemma arch_match_fits (tokens : list string) (a : asset) :
  arch_match tokens a = true
  <-> (let n := Py.lower (default "" (name a)) in
       Py.endswith n ".exe" = true /\ Py.contains "spotdl" n = true
       /\ Py.contains "win" n = true
       /\ exists t, In t tokens /\ Py.contains t n = true).
Proof.
  unfold arch_match. cbv zeta.
  rewrite !andb_true_iff, existsb_exists. tauto.
Qed.

Lemma url_truthy_linked (u : option string) :
  url_truthy u = true <-> exists s, u = Some s /\ s <> EmptyString.
Proof.
  destruct u as [s|]; cbn [url_truthy].
  - destruct s; cbn [Py.truthy]; split.
    + discriminate.
    + intros (s & [= <-] & Hs). now destruct Hs.
    + intros _. eexists. split; [reflexivity|discriminate].
    + reflexivity.
  - split; [discriminate|]. intros (s & Hs & _). discriminate.
Qed.

Lemma Forall_decided {A : Type} (P : A -> Prop) (f : A -> bool) (l : list A) :
  (forall a, f a = true <-> P a) ->
  Forall (fun b => ~ P b) l -> Forall (fun b => f b = false) l.
Proof.
  intros Hf. induction 1 as [|b l Hb _ IH]; constructor; [|exact IH].
  destruct (f b) eqn:Hfb; [|reflexivity]. now apply Hf in Hfb.
Qed.

(** C6, as amended. For every asset list, machine name and tag.  The
    tokens: [arm64], [aarch64] when the lower-cased machine name contains
    [arm]; else [x64], [amd64], [win64] when it contains [64]; else
    [win32], [x86].  An asset fits when its lower-cased name ends in
    [.exe] and contains [spotdl], [win] and one of the tokens.  The first
    asset that fits is selected when it carries a URL that is not empty.
    When no asset fits, or the first that fits carries no such URL, the
    first asset whose name equals [spotdl-<tag>-win32.exe] is selected
    when it carries one; and when there is no such asset either, or it
    carries none, nothing is selected.  With the win32 and win64 assets of
    1.2.3: machine [amd64] selects the win64 asset although the win32
    asset bears the legacy name; machine [arm64] selects the win32 asset,
    by its name; and with tag 1.2.4 machine [arm64] selects nothing. *)
Theorem asset_selection (machine latest_tag : string) (assets : list asset) :
  let arch := Py.lower machine in
  let tokens := preferred_tokens arch in
  let fits := fun a : asset =>
    let n := Py.lower (default "" (name a)) in
    Py.endswith n ".exe" = true /\ Py.contains "spotdl" n = true
    /\ Py.contains "win" n = true
    /\ exists t, In t tokens /\ Py.contains t n = true in
  let legacy := fun a : asset =>
    name a = Some ("spotdl-" +:+ latest_tag +:+ "-win32.exe") in
  let first := fun (P : asset -> Prop) (a : asset) =>
    exists pre post,
      assets = pre ++ a :: post /\ P a /\ Forall (fun b => ~ P b) pre in
  let linked := fun a : asset =>
    exists u, browser_download_url a = Some u /\ u <> EmptyString in
  let unmatched :=
    Forall (fun b => ~ fits b) assets
    \/ exists a, first fits a /\ ~ linked a in
  (Py.contains "arm" arch = true -> tokens = ["arm64"; "aarch64"])
  /\ (Py.contains "arm" arch = false -> Py.contains "64" arch = true ->
      tokens = ["x64"; "amd64"; "win64"])
  /\ (Py.contains "arm" arch = false -> Py.contains "64" arch = false ->
      tokens = ["win32"; "x86"])
  /\ (forall a,
        first fits a -> linked a ->
        selected machine latest_tag assets = browser_download_url a)
  /\ (forall a,
        unmatched -> first legacy a -> linked a ->
        selected machine latest_tag assets = browser_download_url a)
  /\ (unmatched ->
      Forall (fun b => ~ legacy b) assets
      \/ (exists a, first legacy a /\ ~ linked a) ->
      selected machine latest_tag assets = None)
  /\ selected "amd64" "1.2.3" [win32_asset; win64_asset]
     = browser_download_url win64_asset
  /\ name win32_asset = Some ("spotdl-" +:+ "1.2.3" +:+ "-win32.exe")
  /\ selected "arm64" "1.2.3" [win32_asset; win64_asset]
     = browser_download_url win32_asset
  /\ selected "arm64" "1.2.4" [win32_asset; win64_asset] = None.
Proof.
  intros arch tokens fits legacy first linked unmatched.
  assert (Hfits : forall a, arch_match tokens a = true <-> fits a)
    by (intros a; apply arch_match_fits).
  assert (Hlegacy : forall a, legacy_match latest_tag a = true <-> legacy a)
    by (intros a; apply legacy_match_name).
  assert (Hlinked : forall a,
             url_truthy (browser_download_url a) = true <-> linked a)
    by (intros a; apply url_truthy_linked).
  assert (Hfirst : forall a,
             first fits a -> first_pass tokens assets = browser_download_url a).
  { intros a (pre & post & -> & Ha & Hpre). apply first_pass_first.
    - exact (Forall_decided _ _ _ Hfits Hpre).
    - now apply Hfits. }
  assert (Hun : unmatched ->
                url_truthy (first_pass tokens assets) = false
                /\ selected machine latest_tag assets
                   = (let u := legacy_pass latest_tag assets
                                 (first_pass tokens assets) in
                      if url_truthy u then u else None)).
  { intros Hcase.
    assert (Hfalse : url_truthy (first_pass tokens assets) = false).
    { destruct Hcase as [Hnone|(a & Ha & Hbare)].
      - now rewrite (first_pass_none _ _ (Forall_decided _ _ _ Hfits Hnone)).
      - rewrite (Hfirst a Ha).
        destruct (url_truthy (browser_download_url a)) eqn:Hu; [|reflexivity].
        now apply Hlinked in Hu. }
    split; [exact Hfalse|].
    unfold selected, choose. fold arch. fold tokens. now rewrite Hfalse. }
  split.
  { intros Harm. subst tokens. unfold preferred_tokens. now rewrite Harm. }
  split.
  { intros Harm H64. subst tokens. unfold preferred_tokens.
    now rewrite Harm, H64. }
  split.
  { intros Harm H64. subst tokens. unfold preferred_tokens.
    rewrite Harm, H64.
    destruct (String.eqb_spec arch "amd64") as [Heq|_];
      [rewrite Heq in H64; discriminate|].
    destruct (String.eqb_spec arch "x86_64") as [Heq|_];
      [rewrite Heq in H64; discriminate|].
    reflexivity. }
  split.
  { intros a Ha Hurl. apply Hlinked in Hurl.
    unfold selected, choose. fold arch. fold tokens.
    rewrite (Hfirst a Ha). now rewrite !Hurl. }
  split.
  { intros a Hcase (pre & post & -> & Ha & Hpre) Hurl. apply Hlinked in Hurl.
    destruct (Hun Hcase) as [_ ->]. cbv zeta.
    rewrite (legacy_pass_first _ _ _ _ _ (Forall_decided _ _ _ Hlegacy Hpre)
               (proj2 (Hlegacy a) Ha)).
    now rewrite Hurl. }
  split.
  { intros Hcase Hnone. destruct (Hun Hcase) as [Hfalse ->]. cbv zeta.
    destruct Hnone as [Hnone|(a & (pre & post & -> & Ha & Hpre) & Hbare)].
    - rewrite (legacy_pass_none _ _ _ (Forall_decided _ _ _ Hlegacy Hnone)).
      now rewrite Hfalse.
    - rewrite (legacy_pass_first _ _ _ _ _ (Forall_decided _ _ _ Hlegacy Hpre)
                 (proj2 (Hlegacy a) Ha)).
      destruct (url_truthy (browser_download_url a)) eqn:Hu; [|reflexivity].
      now apply Hlinked in Hu. }
  repeat split; reflexivity.
Qed.

(** C6, as stated, fails.  With machine [amd64] and tag 1.2.3, the
    win64 asset without a URL is the first that fits, and the choice as
    stated is that asset; the job goes on to download the win32 asset,
    found by its legacy name. *)
Lemma asset_selection_counterexample :
  stated "amd64" "1.2.3" [win64_unlinked; win32_asset] = Some win64_unlinked
  /\ selected "amd64" "1.2.3" [win64_unlinked; win32_asset]
     = browser_download_url win32_asset
  /\ browser_download_url win32_asset <> browser_download_url win64_unlinked.
Proof. repeat split; try reflexivity. discriminate. Qed.

Lemma first_pass_in (tokens : list string) (assets : list asset) (u : string) :
  first_pass tokens assets = Some u ->
  exists a, In a assets /\ arch_match tokens a = true
            /\ browser_download_url a = Some u.
Proof.
  induction assets as [|a rest IH]; cbn [first_pass]; [discriminate|].
  destruct (arch_match tokens a) eqn:Ha.
  - intros Hu. exists a. split; [now left|now split].
  - intros Hu. destruct (IH Hu) as (b & Hb & Hm & Hurl).
    exists b. split; [now right|now split].
Qed.

Lemma legacy_pass_in (tag : string) (assets : list asset)
    (d : option string) (u : string) :
  legacy_pass tag assets d = Some u ->
  d = Some u
  \/ exists a, In a assets /\ legacy_match tag a = true
               /\ browser_download_url a = Some u.
Proof.
  induction assets as [|a rest IH]; cbn [legacy_pass]; [now left|].
  destruct (legacy_match tag a) eqn:Ha.
  - intros Hu. right. exists a. split; [now left|now split].
  - intros Hu. destruct (IH Hu) as [Hd|(b & Hb & Hm & Hurl)]; [now left|].
    right. exists b. split; [now right|now split].
Qed.

(** X18. The URL that the job goes on to download is never made up: it
    is not empty, and it is the download URL of an asset of the feed that
    passed the test of the first loop or bears the legacy name. *)
Theorem selected_from_assets (machine latest_tag : string)
    (assets : list asset) (u : string) :
  selected machine latest_tag assets = Some u ->
  u <> EmptyString
  /\ exists a,
       In a assets
       /\ browser_download_url a = Some u
       /\ (arch_match (preferred_tokens (Py.lower machine)) a = true
           \/ legacy_match latest_tag a = true).
Proof.
  unfold selected.
  destruct (url_truthy (choose machine latest_tag assets)) eqn:Htruthy;
    [|discriminate].
  intros Hu. rewrite Hu in Htruthy. split.
  { intros ->. discriminate. }
  unfold choose in Hu.
  destruct (url_truthy (first_pass _ assets)) eqn:Hfirst.
  - destruct (first_pass_in _ _ _ Hu) as (a & Ha & Hm & Hurl).
    exists a. split; [exact Ha|]. split; [exact Hurl|now left].
  - destruct (legacy_pass_in _ _ _ _ Hu) as [Hd|(a & Ha & Hm & Hurl)].
    + rewrite Hd, Htruthy in Hfirst. discriminate.
    + exists a. split; [exact Ha|]. split; [exact Hurl|now right].
Qed.

Lemma selected_from_assets_witness :
  "https://github.com/spotDL/spotify-downloader/releases/download/v1.2.3/spotdl-1.2.3-win64.exe"
  <> EmptyString
  /\ exists a,
       In a [win32_asset; win64_asset]
       /\ browser_download_url a
          = Some "https://github.com/spotDL/spotify-downloader/releases/download/v1.2.3/spotdl-1.2.3-win64.exe"
       /\ (arch_match (preferred_tokens (Py.lower "AMD64")) a = true
           \/ legacy_match "1.2.3" a = true).
Proof.
  apply (selected_from_assets "AMD64" "1.2.3" [win32_asset; win64_asset]).
  reflexivity.
Defined.

End AssetsProps.

(** ** The download job *)
Module DownloadProps.
Import Download Samples.

Lemma bind_ok {W A B} (m : M W A) (k : A -> M W B) (w w' : W) (a : A) :
  m w = (Ok a, w') -> bind m k w = k a w'.
Proof. unfold bind. now intros ->. Qed.

Lemma bind_raise {W A B} (m : M W A) (k : A -> M W B) (w w' : W) (e : exn) :
  m w = (Raise e, w') -> bind m k w = (Raise e, w').
Proof. unfold bind. now intros ->. Qed.

Lemma outcomes_app (a b : list event) :
  outcomes (a ++ b) = outcomes a ++ outcomes b.
Proof. apply List.filter_app. Qed.

Ltac norm_trace :=
  repeat (progress cbn [app cwd trace] || rewrite <- app_assoc).

Lemma log_runs (e : event) (w : world) :
  log e w = (Ok tt, {| cwd := cwd w; trace := trace w ++ [e] |}).
Proof. reflexivity. Qed.

(** One line of output never raises, keeps the working directory, and
    emits console and progress signals only. *)
Lemma handle_line_runs (line : string) (st : progress) (w : world) :
  exists st' events,
    handle_line line st w
    = (Ok st', {| cwd := cwd w; trace := trace w ++ events |})
    /\ outcomes events = [].
Proof.
  destruct w as [dir events0].
  unfold handle_line, bind, when, emit, log, modify, ret.
  destruct (Py.contains "Downloading" line), (Py.contains "Found" line),
    (Py.contains "Downloaded" line), (Py.contains "Error" line);
    cbn -[Py.strip search_downloading search_found];
    rewrite <- ?app_assoc;
    try (eexists; eexists; split; [reflexivity|reflexivity]).
  eexists; exists []. now rewrite app_nil_r.
Qed.

Lemma read_lines_runs (lines : list string) (st : progress) (w : world) :
  exists st' events,
    read_lines lines st w
    = (Ok st', {| cwd := cwd w; trace := trace w ++ events |})
    /\ outcomes events = [].
Proof.
  revert st w. induction lines as [|line rest IH]; intros st w.
  - exists st, []. destruct w. now rewrite app_nil_r.
  - destruct (handle_line_runs line st w) as (st1 & ev1 & Hline & Hev1).
    destruct (IH st1 {| cwd := cwd w; trace := trace w ++ ev1 |})
      as (st2 & ev2 & Hrest & Hev2).
    exists st2, (ev1 ++ ev2). split.
    + cbn [read_lines]. rewrite (bind_ok _ _ _ _ _ Hline), Hrest.
      cbn [cwd trace]. now rewrite app_assoc.
    + now rewrite outcomes_app, Hev1, Hev2.
Qed.

Lemma first_file_runs (E : env) (paths : list string) (w : world) :
  exists found events,
    first_file E paths w
    = (Ok found, {| cwd := cwd w; trace := trace w ++ events |})
    /\ outcomes events = [].
Proof.
  revert w. induction paths as [|p rest IH]; intros w.
  - exists None, []. destruct w. now rewrite app_nil_r.
  - cbn [first_file]. rewrite (bind_ok _ _ _ _ _ (log_runs _ _)).
    destruct (isfile E p).
    + exists (Some p), [IsFile p]. split; reflexivity.
    + destruct (IH {| cwd := cwd w; trace := trace w ++ [IsFile p] |})
        as (found & ev & Hrest & Hev).
      exists found, (IsFile p :: ev). split; [|exact Hev].
      rewrite Hrest. cbn [cwd trace]. now rewrite <- app_assoc.
Qed.

Lemma call_which_runs (E : env) (program : string) (w : world) :
  call_which E program w
  = (which E program, {| cwd := cwd w; trace := trace w ++ [Which program] |}).
Proof. reflexivity. Qed.

Lemma which_or_runs (E : env) (a b : string) (w : world) :
  exists r events,
    which_or E a b w = (r, {| cwd := cwd w; trace := trace w ++ events |})
    /\ outcomes events = [].
Proof.
  unfold which_or, bind. rewrite call_which_runs.
  destruct (which E a) as [r|e].
  - destruct (Py.some_truthy r).
    + exists (Ok r), [Which a]. split; reflexivity.
    + rewrite call_which_runs. cbn [cwd trace].
      exists (which E b), [Which a; Which b]. rewrite <- app_assoc.
      split; reflexivity.
  - exists (Raise e), [Which a]. split; reflexivity.
Qed.

Lemma call_app_base_dir_runs (E : env) (w : world) :
  call_app_base_dir E w
  = (app_base_dir E, {| cwd := cwd w; trace := trace w ++ [AppBaseDir] |}).
Proof. reflexivity. Qed.

(** Looking for the executables, whether it succeeds or raises, keeps the
    working directory and emits no terminal signal. *)
Lemma locate_runs (E : env) (w : world) :
  exists r events,
    locate E w = (r, {| cwd := cwd w; trace := trace w ++ events |})
    /\ outcomes events = [].
Proof.
  unfold locate. unfold bind at 1. rewrite call_app_base_dir_runs.
  destruct (app_base_dir E) as [script_folder|e];
    [|exists (Raise e), [AppBaseDir]; split; reflexivity].
  unfold bind at 1.
  match goal with |- context [which_or E ?a ?b ?w1] =>
    destruct (which_or_runs E a b w1) as (r1 & ev1 & H1 & Hev1) end.
  rewrite H1. cbn [cwd trace].
  destruct r1 as [ffmpeg_in_path|e];
    [|exists (Raise e), (AppBaseDir :: ev1); rewrite <- app_assoc;
      split; [reflexivity|exact Hev1]].
  unfold bind at 1.
  match goal with |- context [which_or E ?a ?b ?w1] =>
    destruct (which_or_runs E a b w1) as (r2 & ev2 & H2 & Hev2) end.
  rewrite H2. cbn [cwd trace].
  destruct r2 as [spotdl_in_path|e];
    [|exists (Raise e), (AppBaseDir :: ev1 ++ ev2); rewrite <- !app_assoc;
      split; [reflexivity|cbn; now rewrite outcomes_app, Hev1, Hev2]].
  unfold bind at 1.
  match goal with |- context [first_file E ?ps ?w1] =>
    destruct (first_file_runs E ps w1) as (f1 & ev3 & H3 & Hev3) end.
  rewrite H3. cbn [cwd trace].
  unfold bind at 1.
  match goal with |- context [first_file E ?ps ?w1] =>
    destruct (first_file_runs E ps w1) as (f2 & ev4 & H4 & Hev4) end.
  rewrite H4. cbn [cwd trace].
  exists (Ok (f1, f2)), (AppBaseDir :: ev1 ++ ev2 ++ ev3 ++ ev4).
  rewrite <- !app_assoc. split; [reflexivity|].
  cbn. now rewrite !outcomes_app, Hev1, Hev2, Hev3, Hev4.
Qed.

Lemma chdir_runs (E : env) (p : string) (w : world) :
  chdir E p w
  = match dir_of E p with
    | Ok d => (Ok tt, {| cwd := d; trace := trace w ++ [Chdir p] |})
    | Raise e => (Raise e, {| cwd := cwd w; trace := trace w ++ [Chdir p] |})
    end.
Proof. unfold chdir, bind, lift, log, modify. now destruct (dir_of E p). Qed.

Lemma consume_runs (p : process) (st : progress) (w : world) :
  exists st' events,
    outcomes events = []
    /\ consume p st w
       = match ending p with
         | Exit return_code =>
             (Ok (st', return_code),
              {| cwd := cwd w; trace := trace w ++ events ++ [Wait] |})
         | ReadError e =>
             (Raise e, {| cwd := cwd w; trace := trace w ++ events |})
         end.
Proof.
  destruct (read_lines_runs (stdout p) st w) as (st' & ev & Hread & Hev).
  exists st', ev. split; [exact Hev|].
  unfold consume. rewrite (bind_ok _ _ _ _ _ Hread).
  destruct (ending p); [|reflexivity].
  unfold bind, log, modify, ret. cbn [cwd trace]. now rewrite <- app_assoc.
Qed.

(** The guarded block with its handler never raises, keeps the working
    directory and emits exactly one terminal signal, the last event: the
    one that the way the launch ended calls for. *)
Lemma protected_runs (E : env) (self : request) (command : list string)
    (w : world) :
  exists events o,
    try_except (guarded E self command) (on_exception E self) w
    = (Ok tt, {| cwd := cwd w; trace := trace w ++ events ++ [o] |})
    /\ outcomes events = []
    /\ is_outcome o = true
    /\ reported E self command o.
Proof.
  unfold reported, try_except, guarded.
  unfold bind at 1. rewrite log_runs. unfold bind at 1, lift.
  destruct (popen E command) as [p|e].
  - destruct (consume_runs p start
                {| cwd := cwd w; trace := trace w ++ [Popen command] |})
      as (st' & ev & Hev & Hrun).
    unfold bind at 1. rewrite Hrun. cbn [cwd trace].
    destruct (ending p) as [return_code|e].
    + destruct (return_code =? 0); unfold emit; rewrite log_runs;
        cbn [cwd trace].
      * eexists (Popen command :: ev ++ [Wait]), _.
        norm_trace. split; [reflexivity|].
        split; [cbn; now rewrite outcomes_app, Hev|].
        split; [reflexivity|]. eexists. reflexivity.
      * eexists (Popen command :: ev ++ [Wait]), _.
        norm_trace. split; [reflexivity|].
        split; [cbn; now rewrite outcomes_app, Hev|].
        split; reflexivity.
    + unfold on_exception, emit. rewrite log_runs. cbn [cwd trace].
      eexists (Popen command :: ev), _.
      norm_trace. split; [reflexivity|].
      split; [exact Hev|]. split; reflexivity.
  - unfold on_exception, emit. rewrite log_runs. cbn [cwd trace].
    eexists [Popen command], _. rewrite <- !app_assoc.
    split; [reflexivity|]. split; [reflexivity|]. split; reflexivity.
Qed.

(** Once the executables have been looked for without an exception, a
    run whose way back to the original directory is open returns
    normally, in the original directory, having emitted exactly one
    terminal signal. *)
Lemma run_located (E : env) (self : request) (w w2 : world) (d : string)
    (found : option string * option string) :
  Py.truthy (url self) = true ->
  dir_of E (download_path self) = Ok d ->
  locate E {| cwd := d; trace := trace w ++ [Chdir (download_path self)] |}
  = (Ok found, w2) ->
  dir_of E (cwd w) = Ok (cwd w) ->
  exists events o,
    run E self w
    = (Ok tt, {| cwd := cwd w;
                 trace := trace w ++ events ++ [o; Chdir (cwd w)] |})
    /\ outcomes events = []
    /\ is_outcome o = true.
Proof.
  intros Hurl Hdir Hloc Hback.
  destruct (locate_runs E {| cwd := d;
                             trace := trace w ++ [Chdir (download_path self)] |})
    as (r & ev & Hloc' & Hev).
  rewrite Hloc in Hloc'. injection Hloc' as <- ->. cbn [cwd trace] in *.
  unfold run. rewrite Hurl. cbn [negb].
  unfold bind at 1. unfold getcwd, gets.
  unfold bind at 1. rewrite chdir_runs, Hdir.
  unfold bind at 1. rewrite Hloc. destruct found as [ffmpeg_path spotdl_path].
  destruct (negb (Py.some_truthy ffmpeg_path));
    [|destruct (negb (Py.some_truthy spotdl_path))].
  - unfold bind, emit. rewrite log_runs, chdir_runs, Hback. cbn [cwd trace].
    eexists (Chdir (download_path self) :: ev), _.
    norm_trace. split; [reflexivity|].
    split; [exact Hev|reflexivity].
  - unfold bind, emit. rewrite log_runs, chdir_runs, Hback. cbn [cwd trace].
    eexists (Chdir (download_path self) :: ev), _.
    norm_trace. split; [reflexivity|].
    split; [exact Hev|reflexivity].
  - unfold try_finally.
    match goal with |- context [try_except ?b ?h ?w1] =>
      destruct (protected_runs E self
                  (command_line self (default "" spotdl_path)
                     (default "" ffmpeg_path)) w1)
        as (ev' & o & Hrun & Hev' & Ho & _) end.
    rewrite Hrun, chdir_runs, Hback. cbn [cwd trace].
    exists (Chdir (download_path self) :: ev ++ ev'), o.
    norm_trace. split; [reflexivity|].
    split; [cbn; now rewrite outcomes_app, Hev, Hev'|exact Ho].
Qed.

(** When looking for the executables raises, the exception leaves [run]:
    no terminal signal has been emitted and the working directory is the
    download directory. *)
Lemma run_not_located (E : env) (self : request) (w w2 : world) (d : string)
    (e : exn) :
  Py.truthy (url self) = true ->
  dir_of E (download_path self) = Ok d ->
  locate E {| cwd := d; trace := trace w ++ [Chdir (download_path self)] |}
  = (Raise e, w2) ->
  exists events,
    run E self w = (Raise e, {| cwd := d; trace := trace w ++ events |})
    /\ outcomes events = [].
Proof.
  intros Hurl Hdir Hloc.
  destruct (locate_runs E {| cwd := d;
                             trace := trace w ++ [Chdir (download_path self)] |})
    as (r & ev & Hloc' & Hev).
  rewrite Hloc in Hloc'. injection Hloc' as <- ->. cbn [cwd trace] in *.
  unfold run. rewrite Hurl. cbn [negb].
  unfold bind at 1. unfold getcwd, gets.
  unfold bind at 1. rewrite chdir_runs, Hdir.
  unfold bind at 1. rewrite Hloc.
  exists (Chdir (download_path self) :: ev). norm_trace.
  split; [reflexivity|exact Hev].
Qed.

(** When the download directory cannot be entered, the exception of
    [os.chdir] leaves [run] and nothing has been emitted. *)
Lemma run_no_directory (E : env) (self : request) (w : world) (e : exn) :
  Py.truthy (url self) = true ->
  dir_of E (download_path self) = Raise e ->
  run E self w
  = (Raise e, {| cwd := cwd w;
                 trace := trace w ++ [Chdir (download_path self)] |}).
Proof.
  intros Hurl Hdir. unfold run. rewrite Hurl. cbn [negb].
  unfold bind at 1. unfold getcwd, gets.
  unfold bind at 1. now rewrite chdir_runs, Hdir.
Qed.

(** As the file stands, every run with a URL and an enterable download
    directory ends at line 46 with a [NameError], in the download
    directory and without a terminal signal. *)
Lemma run_as_written (E : env) (self : request) (w : world) (d : string) :
  Py.truthy (url self) = true ->
  dir_of E (download_path self) = Ok d ->
  run (as_written E) self w
  = (Raise (NameError "app_base_dir"),
     {| cwd := d;
        trace := trace w ++ [Chdir (download_path self); AppBaseDir] |}).
Proof.
  intros Hurl Hdir. unfold run. rewrite Hurl. cbn [negb].
  unfold bind at 1. unfold getcwd, gets.
  unfold bind at 1. rewrite chdir_runs. cbn [as_written dir_of].
  rewrite Hdir. unfold bind at 1. unfold locate. unfold bind at 1.
  rewrite call_app_base_dir_runs. cbn [as_written app_base_dir].
  now norm_trace.
Qed.

(** C9. With an empty URL, whatever the other fields, the environment and
    the world: [run] returns normally, the working directory is the one
    it started in, and the only event is the failure signal with message
    [No URL provided], empty content and empty timestamp; no [chdir], no
    look-up of an executable and no process start is recorded. *)
Theorem run_without_url (E : env) (download_path quality format_type : string)
    (use_auth : bool) (w : world) :
  run E {| url := ""; download_path := download_path; quality := quality;
           format_type := format_type; use_auth := use_auth |} w
  = (Ok tt,
     {| cwd := cwd w;
        trace := trace w ++ [DownloadComplete false "No URL provided" "" ""] |}).
Proof. reflexivity. Qed.

(** C8. A line that contains [Downloading] increments the current-track
    counter, emits the progress signal with the unchanged total, and
    leaves the total as it was, whatever [Found <N> tracks] pattern the
    line also holds; and whenever a line changes the total, the line
    contains [Found], does not contain [Downloading], and the new total is
    the number of its [Found <N> tracks] pattern.  The sample line holds
    both markers. *)
Theorem downloading_line_keeps_total (line : string) (st : progress)
    (w : world) :
  (Py.contains "Downloading" line = true ->
   exists tracks,
     handle_line line st w
     = (Ok {| total_tracks := total_tracks st;
              current_track := current_track st + 1;
              downloaded_tracks := tracks |},
        {| cwd := cwd w;
           trace := trace w ++ [UpdateConsole (Py.strip line);
                                UpdateProgress (current_track st + 1)
                                  (total_tracks st)] |}))
  /\ (forall st' w',
        handle_line line st w = (Ok st', w') ->
        total_tracks st' <> total_tracks st ->
        Py.contains "Found" line = true
        /\ Py.contains "Downloading" line = false
        /\ exists n, search_found line = Some n
                     /\ total_tracks st' = Py.int_of_digits n)
  /\ (Py.contains "Downloading" both_markers = true
      /\ search_found both_markers = Some "9"
      /\ fst (handle_line both_markers midway at_home)
         = Ok {| total_tracks := 3; current_track := 2;
                 downloaded_tracks := ["Artist - One"; "Found 9 tracks"] |}).
Proof.
  split; [|split].
  - intros Hd. unfold handle_line. rewrite Hd. cbn [orb when].
    unfold bind, emit. rewrite !log_runs. unfold ret. norm_trace.
    eexists. reflexivity.
  - intros st' w'. unfold handle_line.
    destruct (Py.contains "Downloading" line) eqn:Hd.
    + cbn [orb when]. unfold bind, emit. rewrite !log_runs. unfold ret.
      intros [= <- _] Hne. now cbn in Hne.
    + destruct (Py.contains "Found" line) eqn:Hf.
      * cbn [orb when]. unfold bind, emit. rewrite !log_runs. unfold ret.
        intros [= <- _]. cbn [total_tracks].
        destruct (search_found line) as [n|]; [|congruence].
        intros _. repeat split. now exists n.
      * unfold bind, ret, when.
        destruct (_ || _); cbn; intros [= <- _] Hne; congruence.
  - repeat split; vm_compute; reflexivity.
Qed.

(** C1 (defect of the code). Two runs in which an exception leaves [run]
    and no terminal signal is emitted: the download location is an
    existing file, so [os.chdir] raises at line 39; and the sample album
    request in the file as it stands, where line 46 raises [NameError]. *)
Theorem run_exception_escapes :
  run installed album_into_file at_home
  = (Raise (not_a_directory "C:/Music/list.txt"),
     {| cwd := "C:/App"; trace := [Chdir "C:/Music/list.txt"] |})
  /\ run shipped album at_home
     = (Raise (NameError "app_base_dir"),
        {| cwd := "C:/Music"; trace := [Chdir "C:/Music"; AppBaseDir] |})
  /\ run shipped_with_helper album at_home
     = (Raise (NameError "shutil"),
        {| cwd := "C:/Music";
           trace := [Chdir "C:/Music"; AppBaseDir; Which "ffmpeg"] |}).
Proof. repeat split; vm_compute; reflexivity. Qed.

(** C2 (defect of the code). The sample album request in the file as it
    stands: the run enters the download directory, line 46 raises outside
    the [try], and the run ends in [C:/Music] although it started in
    [C:/App]; likewise at line 51 once [app_base_dir] is supplied. *)
Theorem run_leaves_download_directory :
  cwd at_home = "C:/App"
  /\ (exists e w',
        run shipped album at_home = (Raise e, w')
        /\ In (Chdir "C:/Music") (trace w')
        /\ cwd w' = "C:/Music")
  /\ (exists e w',
        run shipped_with_helper album at_home = (Raise e, w')
        /\ In (Chdir "C:/Music") (trace w')
        /\ cwd w' = "C:/Music").
Proof.
  split; [reflexivity|]. split.
  - eexists _, _. split; [vm_compute; reflexivity|].
    split; [now left|reflexivity].
  - eexists _, _. split; [vm_compute; reflexivity|].
    split; [now left|reflexivity].
Qed.

(** The same request once both names are bound: one success signal with
    the three titles, progress 1/3, 2/3, 3/3, and the run ends where it
    started. *)
Lemma run_installed_album :
  run installed album at_home
  = (Ok tt,
     {| cwd := "C:/App";
        trace :=
          [Chdir "C:/Music"; AppBaseDir; Which "ffmpeg"; Which "ffmpeg.exe";
           Which "spotdl"; Which "spotdl.exe"; IsFile "C:/App/ffmpeg.exe";
           IsFile "C:/App/spotdl.exe";
           Popen ["C:/App/spotdl.exe"; "download";
                  "https://open.spotify.com/album/1"; "--bitrate"; "320k";
                  "--ffmpeg"; "C:/App/ffmpeg.exe"];
           UpdateConsole "Found 3 tracks";
           UpdateConsole "Downloading Artist - One"; UpdateProgress 1 3;
           UpdateConsole "Downloaded Artist - One";
           UpdateConsole "Downloading Artist - Two"; UpdateProgress 2 3;
           UpdateConsole "Downloading Artist - Three"; UpdateProgress 3 3;
           Wait;
           DownloadComplete true "Download completed successfully!"
             "Artist - One, Artist - Two, Artist - Three"
             "2024-01-01 12:00:00";
           Chdir "C:/App"] |}).
Proof. vm_compute. reflexivity. Qed.

(** *** The progress signals *)

Lemma int_acc_nonneg (num : string) (acc : Z) :
  Py.every Py.isdigit num = true -> 0 <= acc -> 0 <= Py.int_acc acc num.
Proof.
  revert acc. induction num as [|c num IH]; intros acc Hd Hacc; [exact Hacc|].
  cbn [Py.every] in Hd. apply andb_true_iff in Hd as [Hc Hnum].
  cbn [Py.int_acc]. apply IH; [exact Hnum|].
  unfold Py.isdigit in Hc. apply andb_true_iff in Hc as [Hlo _].
  apply N.leb_le in Hlo. unfold Py.digit_value. lia.
Qed.

Lemma span_digits_digits (s : string) :
  Py.every Py.isdigit (fst (span_digits s)) = true.
Proof.
  induction s as [|c s IH]; [reflexivity|]. cbn [span_digits].
  destruct (Py.isdigit c) eqn:Hc; [|reflexivity].
  destruct (span_digits s) as [d r]. cbn [fst Py.every] in *.
  now rewrite Hc, IH.
Qed.

Lemma search_found_digits (line d : string) :
  search_found line = Some d -> Py.every Py.isdigit d = true.
Proof.
  induction line as [|c line IH]; cbn [search_found]; unfold found_here.
  - cbn. discriminate.
  - destruct (after_prefix "Found " (String c line)) as [r|]; [|exact IH].
    pose proof (span_digits_digits r) as Hd.
    destruct (span_digits r) as [d' r']. cbn [fst] in Hd.
    destruct (Py.truthy d' && String.prefix " tracks" r'); [|exact IH].
    now intros [= <-].
Qed.

Lemma handle_line_counted (line : string) (st : progress) (w : world) :
  0 <= current_track st -> 0 <= total_tracks st ->
  exists st' events,
    handle_line line st w
    = (Ok st', {| cwd := cwd w; trace := trace w ++ events |})
    /\ Forall counted events
    /\ 0 <= current_track st' /\ 0 <= total_tracks st'.
Proof.
  intros Hc Ht. destruct w as [dir events0].
  unfold handle_line, bind, when, emit, log, modify, ret.
  destruct (Py.contains "Downloading" line).
  - cbn [orb cwd trace]. eexists _, [_; _]. rewrite <- app_assoc.
    split; [reflexivity|]. cbn [current_track total_tracks].
    split; [|lia]. repeat constructor; lia.
  - destruct (Py.contains "Found" line).
    + cbn [orb cwd trace]. eexists _, [_]. split; [reflexivity|].
      cbn [current_track total_tracks]. split; [repeat constructor|].
      split; [exact Hc|].
      destruct (search_found line) as [d|] eqn:Hd; [|exact Ht].
      apply int_acc_nonneg; [now apply (search_found_digits line)|lia].
    + destruct (_ || _); cbn [cwd trace].
      * eexists _, [_]. split; [reflexivity|]. split; [repeat constructor|].
        split; assumption.
      * exists st, []. rewrite app_nil_r. split; [reflexivity|].
        split; [constructor|]. split; assumption.
Qed.

(** Every progress signal of the reading loop carries a positive current
    count and a total that is not negative. *)
Lemma read_lines_counted (lines : list string) (st : progress) (w : world) :
  0 <= current_track st -> 0 <= total_tracks st ->
  exists st' events,
    read_lines lines st w
    = (Ok st', {| cwd := cwd w; trace := trace w ++ events |})
    /\ Forall counted events.
Proof.
  revert st w. induction lines as [|line rest IH]; intros st w Hc Ht.
  - exists st, []. destruct w. rewrite app_nil_r. split; [reflexivity|constructor].
  - destruct (handle_line_counted line st w Hc Ht)
      as (st1 & ev1 & Hline & Hev1 & Hc1 & Ht1).
    destruct (IH st1 {| cwd := cwd w; trace := trace w ++ ev1 |} Hc1 Ht1)
      as (st2 & ev2 & Hrest & Hev2).
    exists st2, (ev1 ++ ev2). split.
    + cbn [read_lines]. rewrite (bind_ok _ _ _ _ _ Hline), Hrest.
      cbn [cwd trace]. now rewrite app_assoc.
    + apply Forall_app. now split.
Qed.

Lemma as_int_small (n : Z) :
  Progress.int_min <= n <= Progress.int_max -> Progress.as_int n = n.
Proof.
  unfold Progress.as_int, Progress.int_min, Progress.int_max. intros Hn.
  rewrite Z.mod_small by lia. lia.
Qed.

(** The slot on a computed value that is not negative: [setValue]
    raises beyond a C [int], the bar ignores a value above 100. *)
Lemma update_progress_computes (current total p : Z) (d : Progress.display) :
  Float.percent current total = Ok p -> 0 <= p ->
  Progress.update_progress current total d
  = if p <=? Progress.int_max
    then Ok {| Progress.bar := if p <=? 100 then p else Progress.bar d;
               Progress.status :=
                 "Downloading " +:+ Py.str_of_int current +:+ "/"
                 +:+ Py.str_of_int total |}
    else Raise Progress.overflow.
Proof.
  intros Hp Hp0. unfold Progress.update_progress, Progress.set_value.
  rewrite Hp.
  replace (Progress.int_min <=? p) with true
    by (symmetry; apply Z.leb_le; unfold Progress.int_min; lia).
  replace (0 <=? p) with true by (symmetry; apply Z.leb_le; lia).
  cbn [andb]. destruct (p <=? Progress.int_max); [|reflexivity].
  now destruct (p <=? 100).
Qed.

(** C3 (defect of the code). The claim has the division guarded: a
    total below 1 counts as 1.  The slot has no guard.  The output
    [Found 0 tracks] followed by a [Downloading] line makes the reading
    loop emit the signal (1, 0), and on it the slot raises
    [ZeroDivisionError] whatever the display holds, where the guard of
    the claim gives what (1, 1) gives, the bar at 100.  An announced
    total of 4294967296 arrives at the slot as 0 and ends the same way.
    The computation of the same kind in the update job (line 849) has
    the guard: with an announced size of 0 the copying loop emits no
    percentage and goes on to the end. *)
Theorem progress_division_unguarded (d : Progress.display) :
  In (UpdateProgress 1 0) (trace (snd (read_lines found_zero start at_home)))
  /\ Progress.on_signal 1 0 d = Raise ZeroDivisionError
  /\ Progress.on_signal 1 1 d
     = Ok {| Progress.bar := 100; Progress.status := "Downloading 1/1" |}
  /\ Progress.on_signal 1 4294967296 d = Raise ZeroDivisionError
  /\ fst (Update.copy_chunks clear_download "C:/App/spotdl.exe.new" 0
            ["MZ42"; "0011"] None 0 opened_temp) = Ok tt
  /\ Update.percents
       (Update.trace
          (snd (Update.copy_chunks clear_download "C:/App/spotdl.exe.new" 0
                  ["MZ42"; "0011"] None 0 opened_temp))) = [].
Proof.
  split; [vm_compute; right; right; left; reflexivity|].
  repeat split; vm_compute; reflexivity.
Qed.

(** *** The search for the executables, the launch and the reading loop *)
Import PyProps.

Lemma lookups_no_outcome (events : list event) :
  forallb is_lookup events = true -> outcomes events = [].
Proof.
  induction events as [|e events IH]; [reflexivity|]. cbn [forallb].
  intros H. apply andb_true_iff in H as [He H]. cbn [outcomes List.filter].
  destruct e; try discriminate; now apply IH.
Qed.

Lemma first_file_finds (E : env) (paths : list string) (w : world) :
  exists events,
    first_file E paths w
    = (Ok (List.find (isfile E) paths),
       {| cwd := cwd w; trace := trace w ++ events |})
    /\ forallb is_lookup events = true.
Proof.
  revert w. induction paths as [|p rest IH]; intros w.
  - exists []. destruct w. now rewrite app_nil_r.
  - cbn [first_file List.find]. rewrite (bind_ok _ _ _ _ _ (log_runs _ _)).
    destruct (isfile E p).
    + exists [IsFile p]. split; reflexivity.
    + destruct (IH {| cwd := cwd w; trace := trace w ++ [IsFile p] |})
        as (ev & Hrest & Hev).
      exists (IsFile p :: ev). split; [|exact Hev].
      rewrite Hrest. cbn [cwd trace]. now rewrite <- app_assoc.
Qed.

Lemma which_or_finds (E : env) (a b : string) (w : world) :
  (forall p, exists r, which E p = Ok r) ->
  exists r events,
    which_or E a b w = (Ok r, {| cwd := cwd w; trace := trace w ++ events |})
    /\ forallb is_lookup events = true
    /\ match r with
       | Some p => if Py.truthy p then [p] else []
       | None => []
       end = on_path E a b.
Proof.
  intros Hwhich. unfold which_or, bind, on_path. rewrite call_which_runs.
  destruct (Hwhich a) as (ra & Ha). destruct (Hwhich b) as (rb & Hb).
  rewrite Ha, Hb. destruct (Py.some_truthy ra).
  - exists ra, [Which a]. repeat split.
  - rewrite call_which_runs, Hb. cbn [cwd trace].
    exists rb, [Which a; Which b]. rewrite <- app_assoc. repeat split.
Qed.

(** With both names bound, the search returns, for each executable, the
    first of its candidates that is a file: the one beside the
    application, then the one on the search path. *)
Lemma locate_finds (E : env) (w : world) (base : string) :
  app_base_dir E = Ok base ->
  (forall p, exists r, which E p = Ok r) ->
  exists events,
    locate E w
    = (Ok (List.find (isfile E)
             (path_join E base "ffmpeg.exe" :: on_path E "ffmpeg" "ffmpeg.exe"),
           List.find (isfile E)
             (path_join E base "spotdl.exe" :: on_path E "spotdl" "spotdl.exe")),
       {| cwd := cwd w; trace := trace w ++ events |})
    /\ forallb is_lookup events = true.
Proof.
  intros Hbase Hwhich.
  unfold locate. unfold bind at 1. rewrite call_app_base_dir_runs, Hbase.
  unfold bind at 1.
  match goal with |- context [which_or E ?a ?b ?w1] =>
    destruct (which_or_finds E a b w1 Hwhich) as (r1 & ev1 & H1 & Hev1 & Hr1) end.
  rewrite H1. cbn [cwd trace].
  unfold bind at 1.
  match goal with |- context [which_or E ?a ?b ?w1] =>
    destruct (which_or_finds E a b w1 Hwhich) as (r2 & ev2 & H2 & Hev2 & Hr2) end.
  rewrite H2. cbn [cwd trace].
  unfold bind at 1.
  match goal with |- context [first_file E ?ps ?w1] =>
    destruct (first_file_finds E ps w1) as (ev3 & H3 & Hev3) end.
  rewrite H3. cbn [cwd trace].
  unfold bind at 1.
  match goal with |- context [first_file E ?ps ?w1] =>
    destruct (first_file_finds E ps w1) as (ev4 & H4 & Hev4) end.
  rewrite H4. cbn [cwd trace].
  exists (AppBaseDir :: ev1 ++ ev2 ++ ev3 ++ ev4).
  rewrite <- !app_assoc. split.
  - unfold ret. rewrite <- Hr1, <- Hr2.
    destruct r1 as [p|]; [destruct (Py.truthy p)|];
      (destruct r2 as [q|]; [destruct (Py.truthy q)|]); reflexivity.
  - cbn [forallb is_lookup andb]. now rewrite !forallb_app, Hev1, Hev2, Hev3, Hev4.
Qed.

Lemma handle_line_noise (line : string) (st : progress) (w : world) :
  marked line = false -> handle_line line st w = (Ok st, w).
Proof.
  unfold marked. intros H.
  apply orb_false_iff in H as [H He]. apply orb_false_iff in H as [H Hd].
  apply orb_false_iff in H as [Hg Hf].
  unfold handle_line. rewrite Hg, Hf, Hd, He. now destruct w.
Qed.

Lemma handle_line_reads (line : string) (st : progress) (w : world) :
  exists st' events,
    handle_line line st w
    = (Ok st', {| cwd := cwd w; trace := trace w ++ events |})
    /\ forallb is_report events = true
    /\ current_track st'
       = current_track st + (if Py.contains "Downloading" line then 1 else 0)
    /\ downloaded_tracks st'
       = downloaded_tracks st
         ++ match title line with Some t => [t] | None => [] end
    /\ currents events
       = if Py.contains "Downloading" line then [current_track st + 1] else [].
Proof.
  destruct w as [dir events0].
  unfold handle_line, title, bind, when, emit, log, modify, ret.
  destruct (Py.contains "Downloading" line).
  - cbn [orb cwd trace]. eexists _, [_; _]. rewrite <- app_assoc.
    split; [reflexivity|]. split; [reflexivity|].
    cbn [current_track downloaded_tracks]. split; [reflexivity|].
    split; [|reflexivity].
    destruct (search_downloading line); [reflexivity|now rewrite app_nil_r].
  - destruct (Py.contains "Found" line).
    + cbn [orb cwd trace]. eexists _, [_]. split; [reflexivity|].
      cbn [current_track downloaded_tracks]. rewrite app_nil_r, Z.add_0_r.
      repeat split.
    + destruct (_ || _); cbn [cwd trace].
      * eexists _, [_]. split; [reflexivity|].
        rewrite app_nil_r, Z.add_0_r. repeat split.
      * exists st, []. rewrite !app_nil_r, Z.add_0_r. repeat split.
Qed.

(** The reading loop: it never raises; it emits console and progress
    signals only; the counter grows by one per line that contains
    [Downloading], the progress signals carry the successive values of the
    counter, and the titles are collected in the order of the lines. *)
Lemma read_lines_reads (lines : list string) (st : progress) (w : world) :
  exists st' events,
    read_lines lines st w
    = (Ok st', {| cwd := cwd w; trace := trace w ++ events |})
    /\ forallb is_report events = true
    /\ current_track st'
       = current_track st
         + Z.of_nat (length (List.filter (Py.contains "Downloading") lines))
    /\ downloaded_tracks st' = downloaded_tracks st ++ titles lines
    /\ currents events
       = map (fun i => current_track st + Z.of_nat i)
           (seq 1 (length (List.filter (Py.contains "Downloading") lines))).
Proof.
  revert st w. induction lines as [|line rest IH]; intros st w.
  - exists st, []. destruct w. cbn. rewrite !app_nil_r, Z.add_0_r. repeat split.
  - destruct (handle_line_reads line st w)
      as (st1 & ev1 & Hline & Hev1 & Hc1 & Ht1 & Hp1).
    destruct (IH st1 {| cwd := cwd w; trace := trace w ++ ev1 |})
      as (st2 & ev2 & Hrest & Hev2 & Hc2 & Ht2 & Hp2).
    exists st2, (ev1 ++ ev2). split.
    { cbn [read_lines]. rewrite (bind_ok _ _ _ _ _ Hline), Hrest.
      cbn [cwd trace]. now rewrite app_assoc. }
    split; [now rewrite forallb_app, Hev1, Hev2|].
    unfold currents in *. rewrite omap_app. fold (currents ev1) (currents ev2).
    unfold currents in *.
    rewrite Hc2, Ht2, Hp2, Hc1, Ht1, Hp1. unfold titles. cbn [omap list_omap List.filter].
    destruct (Py.contains "Downloading" line).
    + cbn [length seq map app]. split; [lia|]. split.
      { destruct (title line); cbn; now rewrite <- app_assoc. }
      f_equal.
      rewrite <- (seq_shift _ 1), List.map_map. apply List.map_ext. intros i. lia.
    + cbn [app]. split; [lia|]. split.
      { destruct (title line); cbn; now rewrite <- app_assoc. }
      apply List.map_ext. intros i. lia.
Qed.

(** X7. Lines that hold none of the four markers ([Downloading],
    [Found], [Downloaded], [Error]) are ignored: dropping them from the
    output changes neither the signals nor the state of the loop. *)
Theorem read_lines_skips_noise (lines : list string) (st : progress)
    (w : world) :
  read_lines (List.filter marked lines) st w = read_lines lines st w.
Proof.
  revert st w. induction lines as [|line rest IH]; intros st w; [reflexivity|].
  cbn [List.filter read_lines]. destruct (marked line) eqn:Hm.
  - cbn [read_lines]. unfold bind. destruct (handle_line line st w) as [[st1|e] w1];
      [apply IH|reflexivity].
  - rewrite (bind_ok _ _ _ _ _ (handle_line_noise line st w Hm)). apply IH.
Qed.

Lemma reports_reading (events : list event) :
  forallb is_report events = true -> forallb is_reading events = true.
Proof.
  induction events as [|e events IH]; [reflexivity|]. cbn [forallb].
  intros H. apply andb_true_iff in H as [He H]. rewrite (IH H).
  now destruct e.
Qed.

Lemma reading_no_outcome (events : list event) :
  forallb is_reading events = true -> outcomes events = [].
Proof.
  induction events as [|e events IH]; [reflexivity|]. cbn [forallb].
  intros H. apply andb_true_iff in H as [He H]. cbn [outcomes List.filter].
  destruct e; try discriminate; now apply IH.
Qed.

Lemma which_or_looks (E : env) (a b : string) (w : world) :
  exists r events,
    which_or E a b w = (r, {| cwd := cwd w; trace := trace w ++ events |})
    /\ forallb is_lookup events = true.
Proof.
  unfold which_or, bind. rewrite call_which_runs.
  destruct (which E a) as [r|e].
  - destruct (Py.some_truthy r).
    + exists (Ok r), [Which a]. split; reflexivity.
    + rewrite call_which_runs. cbn [cwd trace].
      exists (which E b), [Which a; Which b]. rewrite <- app_assoc.
      split; reflexivity.
  - exists (Raise e), [Which a]. split; reflexivity.
Qed.

(** The search, whether it returns or raises, only looks: and a path it
    returns is a file. *)
Lemma locate_looks (E : env) (w : world) :
  exists r events,
    locate E w = (r, {| cwd := cwd w; trace := trace w ++ events |})
    /\ forallb is_lookup events = true
    /\ forall ffmpeg_path spotdl_path p,
         r = Ok (ffmpeg_path, spotdl_path) ->
         ffmpeg_path = Some p \/ spotdl_path = Some p -> isfile E p = true.
Proof.
  unfold locate. unfold bind at 1. rewrite call_app_base_dir_runs.
  destruct (app_base_dir E) as [script_folder|e];
    [|exists (Raise e), [AppBaseDir]; repeat split; discriminate].
  unfold bind at 1.
  match goal with |- context [which_or E ?a ?b ?w1] =>
    destruct (which_or_looks E a b w1) as (r1 & ev1 & H1 & Hev1) end.
  rewrite H1. cbn [cwd trace].
  destruct r1 as [ffmpeg_in_path|e];
    [|exists (Raise e), (AppBaseDir :: ev1); rewrite <- app_assoc;
      split; [reflexivity|split; [exact Hev1|discriminate]]].
  unfold bind at 1.
  match goal with |- context [which_or E ?a ?b ?w1] =>
    destruct (which_or_looks E a b w1) as (r2 & ev2 & H2 & Hev2) end.
  rewrite H2. cbn [cwd trace].
  destruct r2 as [spotdl_in_path|e];
    [|exists (Raise e), (AppBaseDir :: ev1 ++ ev2); rewrite <- !app_assoc;
      split; [reflexivity|split; [|discriminate]];
      cbn [forallb is_lookup andb]; now rewrite forallb_app, Hev1, Hev2].
  unfold bind at 1.
  match goal with |- context [first_file E ?ps ?w1] =>
    destruct (first_file_finds E ps w1) as (ev3 & H3 & Hev3) end.
  rewrite H3. cbn [cwd trace].
  unfold bind at 1.
  match goal with |- context [first_file E ?ps ?w1] =>
    destruct (first_file_finds E ps w1) as (ev4 & H4 & Hev4) end.
  rewrite H4. cbn [cwd trace].
  eexists (Ok _), (AppBaseDir :: ev1 ++ ev2 ++ ev3 ++ ev4).
  rewrite <- !app_assoc. split; [reflexivity|]. split.
  - cbn [forallb is_lookup andb].
    now rewrite !forallb_app, Hev1, Hev2, Hev3, Hev4.
  - intros f s p [= <- <-] [Hp|Hp]; apply List.find_some in Hp; apply Hp.
Qed.

(** The guarded block with its handler: the process is started once,
    nothing but console and progress signals and the wait follows, and
    the terminal signal comes last; after exit code 0 its content is the
    collected titles, joined, or the URL when there is none. *)
Lemma protected_launches (E : env) (self : request) (command : list string)
    (w : world) :
  exists events o,
    try_except (guarded E self command) (on_exception E self) w
    = (Ok tt,
       {| cwd := cwd w; trace := trace w ++ Popen command :: events ++ [o] |})
    /\ forallb is_reading events = true
    /\ is_outcome o = true
    /\ forall p,
         popen E command = Ok p -> ending p = Exit 0 ->
         o = DownloadComplete true "Download completed successfully!"
               match titles (stdout p) with
               | [] => url self
               | tracks => Py.join ", " tracks
               end
               (now E).
Proof.
  unfold try_except, guarded.
  unfold bind at 1. rewrite log_runs. unfold bind at 1, lift.
  destruct (popen E command) as [p|e].
  - destruct (read_lines_reads (stdout p) start
                {| cwd := cwd w; trace := trace w ++ [Popen command] |})
      as (st' & ev & Hread & Hev & _ & Htitles & _).
    apply reports_reading in Hev.
    unfold bind at 1. unfold consume. rewrite (bind_ok _ _ _ _ _ Hread).
    cbn [cwd trace]. destruct (ending p) as [return_code|e] eqn:Hend.
    + unfold bind at 1. rewrite log_runs. unfold ret. cbn [cwd trace].
      destruct (return_code =? 0) eqn:Hcode; unfold emit; rewrite log_runs;
        cbn [cwd trace]; eexists (ev ++ [Wait]), _; norm_trace.
      * split; [reflexivity|].
        split; [now rewrite forallb_app, Hev|]. split; [reflexivity|].
        intros p' [= <-] _. rewrite Htitles. reflexivity.
      * split; [reflexivity|].
        split; [now rewrite forallb_app, Hev|]. split; [reflexivity|].
        intros p' [= <-] Hzero. rewrite Hend in Hzero.
        injection Hzero as ->. discriminate.
    + unfold raise, on_exception, emit. rewrite log_runs. cbn [cwd trace].
      eexists ev, _. norm_trace. split; [reflexivity|].
      split; [exact Hev|]. split; [reflexivity|].
      intros p' [= <-] Hzero. rewrite Hend in Hzero. discriminate.
  - unfold on_exception, emit. rewrite log_runs. cbn [cwd trace].
    eexists [], _. norm_trace. split; [reflexivity|].
    split; [reflexivity|]. split; [reflexivity|]. intros p' [=].
Qed.

Lemma lookups_no_launch (events : list event) :
  forallb is_lookup events = true -> List.filter is_launch events = [].
Proof.
  induction events as [|e events IH]; [reflexivity|]. cbn [forallb].
  intros H. apply andb_true_iff in H as [He H]. cbn [List.filter].
  destruct e; try discriminate; now apply IH.
Qed.

Lemma reading_no_launch (events : list event) :
  forallb is_reading events = true -> List.filter is_launch events = [].
Proof.
  induction events as [|e events IH]; [reflexivity|]. cbn [forallb].
  intros H. apply andb_true_iff in H as [He H]. cbn [List.filter].
  destruct e; try discriminate; now apply IH.
Qed.

Lemma some_truthy_default (o : option string) :
  Py.some_truthy o = true -> o = Some (default "" o).
Proof. destruct o; [reflexivity|discriminate]. Qed.

Lemma chdir_trace (E : env) (p : string) (w : world) :
  trace (snd (chdir E p w)) = trace w ++ [Chdir p].
Proof. rewrite chdir_runs. now destruct (dir_of E p). Qed.

(** X2. In every run, whatever the surroundings answer and however the
    run ends, at most one process is started, and its command line is the
    one of lines 89-95 built on two paths that [os.path.isfile] has
    accepted. *)
Theorem run_launches_files_only (E : env) (self : request) (w : world) :
  exists events,
    trace (snd (run E self w)) = trace w ++ events
    /\ (List.filter is_launch events = []
        \/ exists spotdl_path ffmpeg_path,
             isfile E spotdl_path = true /\ isfile E ffmpeg_path = true
             /\ List.filter is_launch events
                = [Popen (command_line self spotdl_path ffmpeg_path)]).
Proof.
  unfold run. destruct (Py.truthy (url self)); cbn [negb];
    [|eexists [_]; split; [reflexivity|now left]].
  unfold bind at 1. unfold getcwd, gets.
  unfold bind at 1. rewrite chdir_runs.
  destruct (dir_of E (download_path self)) as [d|e];
    [|eexists [_]; split; [reflexivity|now left]].
  unfold bind at 1.
  match goal with |- context [locate E ?w1] =>
    destruct (locate_looks E w1) as (r & ev & Hloc & Hev & Hfiles) end.
  rewrite Hloc. cbn [cwd trace].
  destruct r as [[ffmpeg_path spotdl_path]|e];
    [|exists (Chdir (download_path self) :: ev); norm_trace;
      split; [reflexivity|left; cbn; now apply lookups_no_launch]].
  destruct (Py.some_truthy ffmpeg_path) eqn:Hf; cbn [negb];
    [destruct (Py.some_truthy spotdl_path) eqn:Hs; cbn [negb]|].
  - unfold try_finally.
    match goal with |- context [try_except ?b ?h ?w1] =>
      destruct (protected_launches E self
                  (command_line self (default "" spotdl_path)
                     (default "" ffmpeg_path)) w1)
        as (ev' & o & Hrun & Hev' & Ho & _) end.
    rewrite Hrun. cbn [cwd trace].
    match goal with |- context [chdir E ?p ?w1] =>
      pose proof (chdir_trace E p w1) as Hback;
      destruct (chdir E p w1) as [[[]|e] w2] end;
      cbn [snd trace] in *; rewrite Hback;
      (eexists (Chdir _ :: ev ++ Popen _ :: ev' ++ [o; Chdir _]);
       split; [now norm_trace|right]);
      exists (default "" spotdl_path), (default "" ffmpeg_path);
      (split; [apply (Hfiles ffmpeg_path spotdl_path); [reflexivity|];
               right; now apply some_truthy_default|]);
      (split; [apply (Hfiles ffmpeg_path spotdl_path); [reflexivity|];
               left; now apply some_truthy_default|]);
      cbn [List.filter is_launch]; rewrite List.filter_app;
      rewrite (lookups_no_launch ev Hev); cbn [app List.filter is_launch];
      rewrite List.filter_app, (reading_no_launch ev' Hev');
      destruct o; try discriminate; reflexivity.
  - unfold bind, emit. rewrite log_runs.
    match goal with |- context [chdir E ?p ?w1] =>
      pose proof (chdir_trace E p w1) as Hback;
      destruct (chdir E p w1) as [[[]|e] w2] end;
      cbn [snd trace] in *; rewrite Hback;
      (eexists (Chdir _ :: ev ++ [_; Chdir _]);
       split; [now norm_trace|left]);
      cbn [List.filter is_launch]; rewrite List.filter_app;
      now rewrite (lookups_no_launch ev Hev).
  - unfold bind, emit. rewrite log_runs.
    match goal with |- context [chdir E ?p ?w1] =>
      pose proof (chdir_trace E p w1) as Hback;
      destruct (chdir E p w1) as [[[]|e] w2] end;
      cbn [snd trace] in *; rewrite Hback;
      (eexists (Chdir _ :: ev ++ [_; Chdir _]);
       split; [now norm_trace|left]);
      cbn [List.filter is_launch]; rewrite List.filter_app;
      now rewrite (lookups_no_launch ev Hev).
Qed.

(** X1. Once [app_base_dir] and [shutil.which] are bound and return,
    and both the download directory and the directory the run started in
    can be entered, a run with a URL returns normally, in the directory it
    started in, and emits exactly one terminal signal, followed only by
    the change back. *)
Theorem run_reports_once (E : env) (self : request) (w : world)
    (base d : string) :
  Py.truthy (url self) = true ->
  dir_of E (download_path self) = Ok d ->
  dir_of E (cwd w) = Ok (cwd w) ->
  app_base_dir E = Ok base ->
  (forall p, exists r, which E p = Ok r) ->
  exists events o,
    run E self w
    = (Ok tt, {| cwd := cwd w;
                 trace := trace w ++ events ++ [o; Chdir (cwd w)] |})
    /\ outcomes events = []
    /\ is_outcome o = true.
Proof.
  intros Hurl Hdir Hback Hbase Hwhich.
  destruct (locate_finds E {| cwd := d;
                              trace := trace w ++ [Chdir (download_path self)] |}
              base Hbase Hwhich) as (ev & Hloc & _).
  exact (run_located E self w _ d _ Hurl Hdir Hloc Hback).
Qed.

Lemma run_reports_once_witness :
  exists events o,
    run installed album at_home
    = (Ok tt, {| cwd := cwd at_home;
                 trace := trace at_home ++ events ++ [o; Chdir (cwd at_home)] |})
    /\ outcomes events = []
    /\ is_outcome o = true.
Proof.
  apply (run_reports_once installed album at_home "C:/App" "C:/Music");
    try reflexivity.
  intros p. now exists None.
Defined.

(** X3. With both names bound and the directories enterable: when no
    candidate path of ffmpeg, or none of spotdl, is a file, the run starts
    no process; after the change of directory it only looks for the
    executables, emits the failure signal that names the missing one,
    with the URL as content and an empty timestamp, and changes back.
    ffmpeg is tested first, so when both are missing the signal names
    ffmpeg. *)
Theorem run_missing_executable (E : env) (self : request) (w : world)
    (base d : string) :
  Py.truthy (url self) = true ->
  dir_of E (download_path self) = Ok d ->
  dir_of E (cwd w) = Ok (cwd w) ->
  app_base_dir E = Ok base ->
  (forall p, exists r, which E p = Ok r) ->
  let ffmpeg_path :=
    List.find (isfile E)
      (path_join E base "ffmpeg.exe" :: on_path E "ffmpeg" "ffmpeg.exe") in
  let spotdl_path :=
    List.find (isfile E)
      (path_join E base "spotdl.exe" :: on_path E "spotdl" "spotdl.exe") in
  Py.some_truthy ffmpeg_path && Py.some_truthy spotdl_path = false ->
  exists events,
    run E self w
    = (Ok tt,
       {| cwd := cwd w;
          trace := trace w
                   ++ Chdir (download_path self) :: events
                   ++ [DownloadComplete false
                         ((if Py.some_truthy ffmpeg_path
                           then "spotdl.exe" else "ffmpeg.exe")
                          +:+ " not found. Make sure it's in the same directory as the application.")
                         (url self) "";
                       Chdir (cwd w)] |})
    /\ forallb is_lookup events = true.
Proof.
  intros Hurl Hdir Hback Hbase Hwhich ffmpeg_path spotdl_path Hmissing.
  destruct (locate_finds E {| cwd := d;
                              trace := trace w ++ [Chdir (download_path self)] |}
              base Hbase Hwhich) as (ev & Hloc & Hev).
  fold ffmpeg_path spotdl_path in Hloc. cbn [cwd trace] in Hloc.
  exists ev. split; [|exact Hev].
  unfold run. rewrite Hurl. cbn [negb].
  unfold bind at 1. unfold getcwd, gets.
  unfold bind at 1. rewrite chdir_runs, Hdir.
  unfold bind at 1. rewrite Hloc.
  destruct (Py.some_truthy ffmpeg_path); cbn [negb andb] in *.
  - rewrite Hmissing. cbn [negb]. unfold bind, emit, not_found.
    rewrite log_runs, chdir_runs, Hback. now norm_trace.
  - unfold bind, emit, not_found.
    rewrite log_runs, chdir_runs, Hback. now norm_trace.
Qed.

Lemma run_missing_executable_witness :
  exists events,
    run bare album at_home
    = (Ok tt,
       {| cwd := "C:/App";
          trace := Chdir "C:/Music" :: events
                   ++ [DownloadComplete false
                         "ffmpeg.exe not found. Make sure it's in the same directory as the application."
                         "https://open.spotify.com/album/1" "";
                       Chdir "C:/App"] |})
    /\ forallb is_lookup events = true.
Proof.
  apply (run_missing_executable bare album at_home "C:/App" "C:/Music");
    try reflexivity.
  intros p. now exists None.
Defined.

(** X4. With both names bound, the search for the executables returns
    normally, in the same directory, and gives for each executable the
    first candidate that is a file: the path beside the application, then
    the path that the search path offers.  So the copy beside the
    application wins whenever it is a file, and nothing is returned that
    is not a file. *)
Theorem locate_prefers_app_dir (E : env) (w : world) (base : string) :
  app_base_dir E = Ok base ->
  (forall p, exists r, which E p = Ok r) ->
  exists ffmpeg_path spotdl_path w',
    locate E w = (Ok (ffmpeg_path, spotdl_path), w')
    /\ cwd w' = cwd w
    /\ ffmpeg_path
       = List.find (isfile E)
           (path_join E base "ffmpeg.exe" :: on_path E "ffmpeg" "ffmpeg.exe")
    /\ spotdl_path
       = List.find (isfile E)
           (path_join E base "spotdl.exe" :: on_path E "spotdl" "spotdl.exe")
    /\ (isfile E (path_join E base "ffmpeg.exe") = true ->
        ffmpeg_path = Some (path_join E base "ffmpeg.exe"))
    /\ (isfile E (path_join E base "spotdl.exe") = true ->
        spotdl_path = Some (path_join E base "spotdl.exe"))
    /\ (forall p, ffmpeg_path = Some p \/ spotdl_path = Some p ->
                  isfile E p = true).
Proof.
  intros Hbase Hwhich.
  destruct (locate_finds E w base Hbase Hwhich) as (ev & Hloc & _).
  eexists _, _, _. split; [exact Hloc|]. split; [reflexivity|].
  split; [reflexivity|]. split; [reflexivity|].
  split; [cbn [List.find]; now intros ->|].
  split; [cbn [List.find]; now intros ->|].
  intros p [Hp|Hp]; apply (List.find_some _ _ Hp).
Qed.

Lemma locate_prefers_app_dir_witness :
  exists ffmpeg_path spotdl_path w',
    locate on_search_path at_home = (Ok (ffmpeg_path, spotdl_path), w')
    /\ cwd w' = cwd at_home
    /\ ffmpeg_path = Some "C:/Tools/ffmpeg.exe"
    /\ spotdl_path = Some "C:/Tools/spotdl.exe"
    /\ (isfile on_search_path "C:/App/ffmpeg.exe" = true ->
        ffmpeg_path = Some "C:/App/ffmpeg.exe")
    /\ (isfile on_search_path "C:/App/spotdl.exe" = true ->
        spotdl_path = Some "C:/App/spotdl.exe")
    /\ (forall p, ffmpeg_path = Some p \/ spotdl_path = Some p ->
                  isfile on_search_path p = true).
Proof.
  apply (locate_prefers_app_dir on_search_path at_home "C:/App");
    [reflexivity|].
  intros p. cbn [which on_search_path].
  destruct (String.eqb p "ffmpeg"); [eauto|].
  destruct (String.eqb p "spotdl.exe"); eauto.
Defined.

(** X5. When the process starts and exits with code 0, the guarded
    block emits the success signal last, and its content is the titles
    taken from the [Downloading] lines, in their order and joined with a
    comma and a space, or the URL when no line gave a title; between the
    start of the process and that signal come only console and progress
    signals and the wait. *)
Theorem success_summary (E : env) (self : request) (command : list string)
    (w : world) (p : process) :
  popen E command = Ok p ->
  ending p = Exit 0 ->
  exists events,
    try_except (guarded E self command) (on_exception E self) w
    = (Ok tt,
       {| cwd := cwd w;
          trace := trace w
                   ++ Popen command :: events
                   ++ [DownloadComplete true "Download completed successfully!"
                         match titles (stdout p) with
                         | [] => url self
                         | tracks => Py.join ", " tracks
                         end
                         (now E)] |})
    /\ forallb is_reading events = true.
Proof.
  intros Hopen Hend.
  destruct (protected_launches E self command w)
    as (ev & o & Hrun & Hev & _ & Ho).
  exists ev. rewrite Hrun, (Ho p Hopen Hend). now split.
Qed.

Lemma success_summary_witness :
  exists events,
    try_except (guarded installed album ["spotdl"])
      (on_exception installed album) at_home
    = (Ok tt,
       {| cwd := "C:/App";
          trace := Popen ["spotdl"] :: events
                   ++ [DownloadComplete true "Download completed successfully!"
                         "Artist - One, Artist - Two, Artist - Three"
                         "2024-01-01 12:00:00"] |})
    /\ forallb is_reading events = true.
Proof.
  apply (success_summary installed album ["spotdl"] at_home three_tracks);
    reflexivity.
Defined.

(** X6. The reading loop never raises and leaves the working directory
    alone.  The counter ends at its start value plus the number of lines
    that contain [Downloading]; the progress signals carry, in order, the
    successive values of the counter; and the titles of those lines are
    appended in the order of the lines. *)
Theorem read_lines_tally (lines : list string) (st : progress) (w : world) :
  exists st' events,
    read_lines lines st w
    = (Ok st', {| cwd := cwd w; trace := trace w ++ events |})
    /\ current_track st'
       = current_track st
         + Z.of_nat (length (List.filter (Py.contains "Downloading") lines))
    /\ downloaded_tracks st' = downloaded_tracks st ++ titles lines
    /\ currents events
       = map (fun i => current_track st + Z.of_nat i)
           (seq 1 (length (List.filter (Py.contains "Downloading") lines))).
Proof.
  destruct (read_lines_reads lines st w)
    as (st' & ev & Hrun & _ & Hc & Ht & Hp).
  now exists st', ev.
Qed.



Lemma after_prefix_append (p s : string) : after_prefix p (p +:+ s) = Some s.
Proof.
  induction p as [|c p IH]; [now destruct s|].
  rewrite append_cons. cbn [after_prefix]. now rewrite Ascii.eqb_refl.
Qed.

Lemma span_digits_append (d r : string) :
  Py.every Py.isdigit d = true ->
  match r with String c _ => Py.isdigit c = false | EmptyString => True end ->
  span_digits (d +:+ r) = (d, r).
Proof.
  intros Hd Hr. induction d as [|c d IH].
  - rewrite append_empty_l. destruct r as [|c r]; [reflexivity|].
    cbn [span_digits]. now rewrite Hr.
  - cbn [Py.every] in Hd. apply andb_true_iff in Hd as [Hc Hd].
    rewrite append_cons. cbn [span_digits]. now rewrite Hc, (IH Hd).
Qed.


Lemma found_search (d rest : string) :
  Py.truthy d = true -> Py.every Py.isdigit d = true ->
  search_found ("Found " +:+ d +:+ " tracks" +:+ rest) = Some d.
Proof.
  intros Ht Hd.
  assert (found_here ("Found " +:+ d +:+ " tracks" +:+ rest) = Some d) as H.
  { unfold found_here. rewrite after_prefix_append.
    rewrite span_digits_append; [|exact Hd|reflexivity].
    now rewrite Ht, prefix_append. }
  destruct ("Found " +:+ d +:+ " tracks" +:+ rest); cbn [search_found];
    now rewrite H.
Qed.

(** X8. A line [Found <n> tracks], with [n] written in decimal and
    followed by any text that does not contain [Downloading], sets the
    total to [n], leaves the counter and the titles alone, and is
    forwarded, stripped, to the console: the number is read back as it
    was printed. *)
Theorem found_line_sets_total (n : Z) (rest : string) (st : progress)
    (w : world) :
  0 <= n ->
  Py.contains "Downloading" rest = false ->
  let line := "Found " +:+ Py.str_of_int n +:+ " tracks" +:+ rest in
  handle_line line st w
  = (Ok {| total_tracks := n;
           current_track := current_track st;
           downloaded_tracks := downloaded_tracks st |},
     {| cwd := cwd w;
        trace := trace w ++ [UpdateConsole (Py.strip line)] |}).
Proof.
  intros Hn Hrest line.
  assert (Py.contains "Downloading" line = false) as Hd.
  { unfold line. rewrite contains_skip by reflexivity.
    rewrite contains_skip
      by (apply digits_lack; [reflexivity|now apply str_of_int_digits]).
    now rewrite contains_skip by reflexivity. }
  assert (Py.contains "Found" line = true) as Hf.
  { apply contains_prefix. unfold line.
    exact (prefix_append "Found" (" " +:+ Py.str_of_int n +:+ " tracks" +:+ rest)). }
  unfold handle_line. rewrite Hd, Hf. cbn [orb when].
  unfold bind, emit. rewrite log_runs. unfold ret. cbn [cwd trace].
  subst line. rewrite found_search;
    [|now apply str_of_int_truthy|now apply str_of_int_digits].
  now rewrite int_of_str_of_int.
Qed.

Lemma found_line_sets_total_witness :
  handle_line ("Found 12 tracks" +:+ nl) start at_home
  = (Ok {| total_tracks := 12; current_track := 0; downloaded_tracks := [] |},
     {| cwd := "C:/App"; trace := [UpdateConsole "Found 12 tracks"] |}).
Proof.
  apply (found_line_sets_total 12 nl start at_home); [lia|reflexivity].
Defined.

(** X9. The progress slot on a signal whose two numbers are at least 1
    and within the range of a C [int]: they arrive as emitted; the
    computed value is not negative; when it is beyond a C [int] (as for
    (21474837, 1), which gives 2147483700) [setValue] raises
    [OverflowError] and neither bar nor status line changes; otherwise
    the status line is set and the bar takes the value when it is at most
    100 and keeps its old value when it is more.  When the current count
    does not exceed the total, the value is at most 100 and is the floor
    of [100 * current / total] or one less. *)
Theorem update_progress_total (current total : Z) (d : Progress.display) :
  1 <= current <= Progress.int_max ->
  1 <= total <= Progress.int_max ->
  exists p,
    Float.percent current total = Ok p
    /\ 0 <= p
    /\ Progress.on_signal current total d
       = Progress.update_progress current total d
    /\ Progress.update_progress current total d
       = (if p <=? Progress.int_max
          then Ok {| Progress.bar := if p <=? 100 then p else Progress.bar d;
                     Progress.status :=
                       "Downloading " +:+ Py.str_of_int current +:+ "/"
                       +:+ Py.str_of_int total |}
          else Raise Progress.overflow)
    /\ (current <= total ->
        p <= 100
        /\ 100 * current / total - 1 <= p <= 100 * current / total).
Proof.
  intros Hc Ht. unfold Progress.int_max in Hc, Ht.
  assert (Hc950 : 1 <= current < 2 ^ 950).
  { split; [lia|]. apply Z.lt_trans with (2 ^ 31); [lia|].
    apply Z.pow_lt_mono_r; lia. }
  assert (Ht1000 : 1 <= total < 2 ^ 1000).
  { split; [lia|]. apply Z.lt_trans with (2 ^ 31); [lia|].
    apply Z.pow_lt_mono_r; lia. }
  destruct (FloatProps.percent_finite current total Hc950 Ht1000)
    as (p & Hp & Hp0).
  exists p. split; [exact Hp|]. split; [exact Hp0|]. split.
  { unfold Progress.on_signal.
    rewrite !as_int_small
      by (unfold Progress.int_min, Progress.int_max; lia).
    reflexivity. }
  split; [now apply update_progress_computes|].
  intros Hle.
  destruct (FloatProps.percent_normal current total ltac:(lia)
              ltac:(lia)) as (q & Hq & Hrange & Hfloor).
  rewrite Hp in Hq. injection Hq as <-. split; [lia|].
  apply Hfloor. apply Z.le_trans with (2 ^ 31); [lia|].
  apply Z.pow_le_mono_r; lia.
Qed.

Lemma update_progress_total_witness :
  exists p,
    Float.percent 21474837 1 = Ok p
    /\ 0 <= p
    /\ Progress.on_signal 21474837 1 blank
       = Progress.update_progress 21474837 1 blank
    /\ Progress.update_progress 21474837 1 blank
       = (if p <=? Progress.int_max
          then Ok {| Progress.bar := if p <=? 100 then p
                                     else Progress.bar blank;
                     Progress.status :=
                       "Downloading " +:+ Py.str_of_int 21474837 +:+ "/"
                       +:+ Py.str_of_int 1 |}
          else Raise Progress.overflow)
    /\ (21474837 <= 1 ->
        p <= 100
        /\ 100 * 21474837 / 1 - 1 <= p <= 100 * 21474837 / 1).
Proof.
  apply (update_progress_total 21474837 1 blank);
    unfold Progress.int_max; lia.
Defined.

(** The two numbers of the doc comment above, computed. *)
Lemma update_progress_overflows :
  Float.percent 21474837 1 = Ok 2147483700
  /\ Progress.update_progress 21474837 1 blank = Raise Progress.overflow.
Proof. split; vm_compute; reflexivity. Qed.

End DownloadProps.

(** ** Computations that respect a preorder on worlds *)
Section Respects.
Context {W : Type} (R : W -> W -> Prop).
Hypothesis R_refl : forall w, R w w.
Hypothesis R_trans : forall a b c, R a b -> R b c -> R a c.

Lemma respects_ret {A} (a : A) : respects R (ret a).
Proof using R_refl. intros w. apply R_refl. Qed.

Lemma respects_raise {A} (e : exn) : respects R (raise (A := A) e).
Proof using R_refl. intros w. apply R_refl. Qed.

Lemma respects_lift {A} (r : result A) : respects R (lift r).
Proof using R_refl. intros w. apply R_refl. Qed.

Lemma respects_gets {A} (f : W -> A) : respects R (gets f).
Proof using R_refl. intros w. apply R_refl. Qed.

Lemma respects_bind {A B} (m : M W A) (k : A -> M W B) :
  respects R m -> (forall a, respects R (k a)) -> respects R (bind m k).
Proof using R_trans.
  intros Hm Hk w. unfold bind. specialize (Hm w).
  destruct (m w) as [[a|e] w1]; [|exact Hm].
  exact (R_trans _ _ _ Hm (Hk a w1)).
Qed.

Lemma respects_try_except {A} (body : M W A) (handler : exn -> M W A) :
  respects R body -> (forall e, respects R (handler e)) ->
  respects R (try_except body handler).
Proof using R_trans.
  intros Hb Hh w. unfold try_except. specialize (Hb w).
  destruct (body w) as [[a|e] w1]; [exact Hb|].
  exact (R_trans _ _ _ Hb (Hh e w1)).
Qed.

Lemma respects_bind_of {A B} (P : A -> Prop) (m : M W A) (k : A -> M W B) :
  respects R m ->
  (forall w, match fst (m w) with Ok a => P a | Raise _ => True end) ->
  (forall a, P a -> respects R (k a)) ->
  respects R (bind m k).
Proof using R_trans.
  intros Hm HP Hk w. unfold bind. specialize (Hm w). specialize (HP w).
  destruct (m w) as [[a|e] w1]; [|exact Hm].
  exact (R_trans _ _ _ Hm (Hk a HP w1)).
Qed.

Lemma respects_when (b : bool) (m : M W unit) :
  respects R m -> respects R (when b m).
Proof using R_refl.
  intros Hm. destruct b; [exact Hm|]. intros w. apply R_refl.
Qed.

End Respects.

(** ** The update job *)
Module UpdateProps.
Import Update Samples PyProps.

Lemma quietly_refl (w : world) : quietly w w.
Proof. exists []. now rewrite app_nil_r. Qed.

Lemma quietly_trans (a b c : world) : quietly a b -> quietly b c -> quietly a c.
Proof.
  intros (e1 & H1 & Q1) (e2 & H2 & Q2). exists (e1 ++ e2). split.
  - now rewrite H2, H1, app_assoc.
  - now rewrite forallb_app, Q1, Q2.
Qed.

Lemma sparing_refl (p : string) (w : world) : sparing p w w.
Proof. exists []. now rewrite app_nil_r. Qed.

Lemma sparing_trans (p : string) (a b c : world) :
  sparing p a b -> sparing p b c -> sparing p a c.
Proof.
  intros (e1 & H1 & Q1) (e2 & H2 & Q2). exists (e1 ++ e2). split.
  - now rewrite H2, H1, app_assoc.
  - rewrite existsb_app. intros H. apply orb_false_iff in H as [F1 F2].
    now rewrite Q2, Q1.
Qed.

Lemma log_quietly (e : event) : not_finished e = true -> respects quietly (log e).
Proof. intros He w. exists [e]. cbn. now rewrite He. Qed.

Lemma set_fs_quietly (f : gmap string string -> gmap string string) :
  respects quietly (set_fs f).
Proof. intros w. exists []. cbn. now rewrite app_nil_r. Qed.

Lemma log_sparing (p : string) (e : event) : respects (sparing p) (log e).
Proof. intros w. exists [e]. now cbn. Qed.

Create HintDb quiet discriminated.

Ltac step_quietly :=
  first
    [ solve [auto with quiet nocore]
    | apply (respects_ret quietly quietly_refl)
    | apply (respects_raise quietly quietly_refl)
    | apply (respects_lift quietly quietly_refl)
    | apply (respects_gets quietly quietly_refl)
    | apply (respects_when quietly quietly_refl)
    | apply log_quietly; reflexivity
    | apply set_fs_quietly
    | apply (respects_bind quietly quietly_trans); [|intros ?]
    | apply (respects_try_except quietly quietly_trans); [|intros ?]
    | progress cbv zeta
    | match goal with
      | |- respects _ (match ?x with _ => _ end) => destruct x
      end ].

Ltac quiet := repeat step_quietly.

Lemma failing_quietly (E : env) (op : fs_op) : respects quietly (failing E op).
Proof. unfold failing. quiet. Qed.
#[local] Hint Resolve failing_quietly : quiet.

Lemma path_exists_quietly (p : string) : respects quietly (path_exists p).
Proof. unfold path_exists. quiet. Qed.
#[local] Hint Resolve path_exists_quietly : quiet.

Lemma open_wb_quietly (E : env) (p : string) : respects quietly (open_wb E p).
Proof. unfold open_wb. quiet. Qed.
#[local] Hint Resolve open_wb_quietly : quiet.

Lemma write_quietly (E : env) (p chunk : string) :
  respects quietly (write E p chunk).
Proof. unfold write. quiet. Qed.
#[local] Hint Resolve write_quietly : quiet.

Lemma replace_quietly (E : env) (src dst : string) :
  respects quietly (replace E src dst).
Proof. unfold replace. quiet. Qed.
#[local] Hint Resolve replace_quietly : quiet.

Lemma remove_quietly (E : env) (p : string) : respects quietly (remove E p).
Proof. unfold remove. quiet. Qed.
#[local] Hint Resolve remove_quietly : quiet.

Lemma rename_quietly (E : env) (src dst : string) :
  respects quietly (rename E src dst).
Proof. unfold rename. quiet. Qed.
#[local] Hint Resolve rename_quietly : quiet.

Lemma copy_chunks_quietly (E : env) (temp_path : string) (total_size : Z)
    (blocks : list string) (ending : option exn) (downloaded : Z) :
  respects quietly (copy_chunks E temp_path total_size blocks ending downloaded).
Proof.
  revert downloaded. induction blocks as [|chunk rest IH]; intros downloaded;
    cbn [copy_chunks].
  - quiet.
  - destruct (negb (Py.truthy chunk)); [quiet|].
    apply (respects_bind quietly quietly_trans); [apply write_quietly|].
    intros _. apply (respects_bind quietly quietly_trans); [|intros _; apply IH].
    destruct (0 <? total_size); quiet.
Qed.
#[local] Hint Resolve copy_chunks_quietly : quiet.

Lemma install_quietly (E : env) (temp_path spotdl_path : string) :
  respects quietly (install E temp_path spotdl_path).
Proof. unfold install. quiet. Qed.
#[local] Hint Resolve install_quietly : quiet.

Lemma download_quietly (E : env) (download_url spotdl_path : string) :
  respects quietly (download E download_url spotdl_path).
Proof. unfold download. quiet. Qed.
#[local] Hint Resolve download_quietly : quiet.

Lemma upgrade_quietly (E : env) (spotdl_path : string) :
  respects quietly (upgrade E spotdl_path).
Proof. unfold upgrade. quiet. Qed.
#[local] Hint Resolve upgrade_quietly : quiet.

(** *** The file at a path the job does not write *)

Lemma quietly_grows {A} (m : M world A) (w : world) :
  respects quietly m -> exists events, trace (snd (m w)) = trace w ++ events.
Proof. intros Hm. destruct (Hm w) as (ev & Hev & _). now exists ev. Qed.

(** Whatever follows the record of a replace, remove or rename is
    allowed to change the files. *)
Lemma moved_sparing {A} (p : string) (e : event) (m : M world A) :
  moves_files e = true ->
  respects quietly m ->
  respects (sparing p) (bind (log e) (fun _ => m)).
Proof.
  intros He Hm w. unfold bind. cbn [log modify].
  destruct (quietly_grows m {| fs := fs w; trace := trace w ++ [e] |} Hm)
    as (ev & Hev).
  exists (e :: ev). split.
  - rewrite Hev. cbn [trace]. now rewrite <- app_assoc.
  - cbn [existsb]. now rewrite He.
Qed.

(** A change of another file leaves the file at [p] alone. *)
Lemma set_fs_sparing (p : string) (f : gmap string string -> gmap string string) :
  (forall m, f m !! p = m !! p) -> respects (sparing p) (set_fs f).
Proof.
  intros Hf w. exists []. cbn. rewrite app_nil_r. split; [reflexivity|].
  intros _. apply Hf.
Qed.

Create HintDb spare discriminated.

Ltac step_sparing :=
  first
    [ solve [auto with spare nocore]
    | solve [eauto]
    | apply (respects_ret _ (sparing_refl _))
    | apply (respects_raise _ (sparing_refl _))
    | apply (respects_lift _ (sparing_refl _))
    | apply (respects_gets _ (sparing_refl _))
    | apply (respects_when _ (sparing_refl _))
    | apply log_sparing
    | apply (respects_bind _ (sparing_trans _)); [|intros ?]
    | apply (respects_try_except _ (sparing_trans _)); [|intros ?]
    | progress cbv zeta
    | match goal with
      | |- respects _ (match ?x with _ => _ end) => destruct x
      end ].

Ltac spare := repeat step_sparing.

Lemma failing_sparing (E : env) (p : string) (op : fs_op) :
  respects (sparing p) (failing E op).
Proof. unfold failing. spare. Qed.
#[local] Hint Resolve failing_sparing : spare.

Lemma path_exists_sparing (p q : string) : respects (sparing p) (path_exists q).
Proof. unfold path_exists. spare. Qed.
#[local] Hint Resolve path_exists_sparing : spare.

Lemma open_wb_sparing (E : env) (p q : string) :
  p <> q -> respects (sparing p) (open_wb E q).
Proof.
  intros Hpq. unfold open_wb. spare. apply set_fs_sparing.
  intros m. now apply lookup_insert_ne.
Qed.

Lemma write_sparing (E : env) (p q chunk : string) :
  p <> q -> respects (sparing p) (write E q chunk).
Proof.
  intros Hpq. unfold write. spare. apply set_fs_sparing.
  intros m. now apply lookup_insert_ne.
Qed.

Lemma replace_sparing (E : env) (p src dst : string) :
  respects (sparing p) (replace E src dst).
Proof. unfold replace. apply moved_sparing; [reflexivity|quiet]. Qed.
#[local] Hint Resolve replace_sparing : spare.

Lemma remove_sparing (E : env) (p q : string) :
  respects (sparing p) (remove E q).
Proof. unfold remove. apply moved_sparing; [reflexivity|quiet]. Qed.
#[local] Hint Resolve remove_sparing : spare.

Lemma rename_sparing (E : env) (p src dst : string) :
  respects (sparing p) (rename E src dst).
Proof. unfold rename. apply moved_sparing; [reflexivity|quiet]. Qed.
#[local] Hint Resolve rename_sparing : spare.

Lemma copy_chunks_sparing (E : env) (p temp_path : string) (total_size : Z)
    (blocks : list string) (ending : option exn) (downloaded : Z) :
  p <> temp_path ->
  respects (sparing p)
    (copy_chunks E temp_path total_size blocks ending downloaded).
Proof.
  intros Hp. revert downloaded.
  induction blocks as [|chunk rest IH]; intros downloaded; cbn [copy_chunks].
  - spare.
  - destruct (negb (Py.truthy chunk)); [spare|].
    apply (respects_bind _ (sparing_trans _));
      [now apply write_sparing|intros _].
    apply (respects_bind _ (sparing_trans _)); [|intros _; apply IH].
    destruct (0 <? total_size); spare.
Qed.

Lemma install_sparing (E : env) (p temp_path spotdl_path : string) :
  respects (sparing p) (install E temp_path spotdl_path).
Proof. unfold install. spare. Qed.
#[local] Hint Resolve install_sparing : spare.

Lemma download_sparing (E : env) (p download_url spotdl_path : string) :
  p <> spotdl_path +:+ ".new" ->
  respects (sparing p) (download E download_url spotdl_path).
Proof.
  intros Hp. unfold download.
  pose proof (open_wb_sparing E p _ Hp) as Ho.
  pose proof (fun n b e d =>
                copy_chunks_sparing E p (spotdl_path +:+ ".new") n b e d Hp)
    as Hc.
  spare.
Qed.

Lemma upgrade_sparing (E : env) (p spotdl_path : string) :
  p <> spotdl_path +:+ ".new" ->
  respects (sparing p) (upgrade E spotdl_path).
Proof.
  intros Hp. unfold upgrade.
  pose proof (fun u => download_sparing E p u spotdl_path Hp) as Hd.
  spare.
Qed.

(** The job leaves every file alone, other than the temporary file, for
    as long as it records no replace, remove or rename. *)
Lemma attempt_sparing (E : env) (p : string) :
  (forall d, app_base_dir E = Ok d ->
             p <> path_join E d "spotdl.exe" +:+ ".new") ->
  respects (sparing p) (attempt E).
Proof.
  intros Hp. unfold attempt.
  apply (respects_bind_of _ (sparing_trans _) (fun d => app_base_dir E = Ok d)).
  - unfold call_app_base_dir. spare.
  - intros w. cbn. now destruct (app_base_dir E).
  - intros d Hd. step_sparing; [spare|].
    destruct (negb a); [spare|].
    step_sparing; [|spare]. apply upgrade_sparing. now apply Hp.
Qed.

Lemma run_sparing (E : env) (p : string) :
  (forall d, app_base_dir E = Ok d ->
             p <> path_join E d "spotdl.exe" +:+ ".new") ->
  respects (sparing p) (run E).
Proof.
  intros Hp. unfold run.
  apply (respects_bind _ (sparing_trans _)); [|intros returned].
  - apply (respects_try_except _ (sparing_trans _));
      [now apply attempt_sparing|intros _; spare].
  - destruct returned; spare.
Qed.

Lemma base_dir_call_runs (E : env) (w : world) :
  call_app_base_dir E w
  = (app_base_dir E, {| fs := fs w; trace := trace w ++ [AppBaseDir] |}).
Proof. reflexivity. Qed.

Lemma path_exists_runs (p : string) (w : world) :
  path_exists p w
  = (Ok (bool_decide (is_Some (fs w !! p))),
     {| fs := fs w; trace := trace w ++ [PathExists p] |}).
Proof. reflexivity. Qed.

Lemma attempt_runs (E : env) (w : world) :
  attempt E w
  = match app_base_dir E with
    | Raise e =>
        (Raise e, {| fs := fs w; trace := trace w ++ [AppBaseDir] |})
    | Ok d =>
        let spotdl_path := path_join E d "spotdl.exe" in
        let w1 := {| fs := fs w;
                     trace := trace w ++ [AppBaseDir; PathExists spotdl_path] |} in
        if bool_decide (is_Some (fs w !! spotdl_path))
        then bind (upgrade E spotdl_path) (fun _ => ret false) w1
        else (Ok true, {| fs := fs w; trace := trace w1 ++ [Finished] |})
    end.
Proof.
  unfold attempt. unfold bind at 1. rewrite base_dir_call_runs.
  destruct (app_base_dir E) as [d|e]; [|reflexivity].
  unfold bind at 1. rewrite path_exists_runs. cbn [fs trace].
  rewrite <- app_assoc. cbn [app].
  destruct (bool_decide _); reflexivity.
Qed.

(** The update job never raises, and its signal [Finished] is emitted
    exactly once, as the last event. *)
Lemma run_always_finishes (E : env) (w : world) :
  exists events w',
    run E w = (Ok tt, w')
    /\ trace w' = trace w ++ events ++ [Finished]
    /\ forallb not_finished events = true.
Proof.
  unfold run, bind at 1, try_except. rewrite attempt_runs.
  destruct (app_base_dir E) as [d|e].
  - cbv zeta. destruct (bool_decide _).
    + set (w1 := {| fs := fs w; trace := _ |}).
      destruct (upgrade_quietly E (path_join E d "spotdl.exe") w1)
        as (ev & Hev & Hq).
      unfold bind at 1.
      destruct (upgrade E (path_join E d "spotdl.exe") w1) as [[[]|e] w2];
        cbn [snd] in Hev; cbn [ret emit log modify];
        eexists (AppBaseDir :: PathExists _ :: ev), _;
        (split; [reflexivity|]); cbn [trace]; rewrite Hev; subst w1;
        cbn [trace forallb not_finished andb]; rewrite <- !app_assoc;
        split; [reflexivity|exact Hq|reflexivity|exact Hq].
    + eexists [AppBaseDir; PathExists _], _. split; [reflexivity|].
      cbn [trace]. rewrite <- !app_assoc. split; reflexivity.
  - eexists [AppBaseDir], _. split; [reflexivity|].
    cbn. rewrite <- !app_assoc. split; reflexivity.
Qed.

(** As long as the job records no replace, remove or rename, the binary
    is on disk as it was. *)
Lemma run_spares_binary (E : env) (w : world) (d : string) :
  app_base_dir E = Ok d ->
  sparing (path_join E d "spotdl.exe") w (snd (run E w)).
Proof.
  intros Hd. apply run_sparing. intros d' Hd'.
  rewrite Hd in Hd'. injection Hd' as <-. now apply append_longer.
Qed.

(** C10. When no [spotdl.exe] is found at the base directory (the path
    is absent, or the base directory itself could not be obtained), the
    job returns normally having only asked for the base directory,
    tested the path if it had one, and emitted [Finished]: no version
    query, no request and no file operation is recorded, and the files
    are what they were. *)
Theorem run_without_binary (E : env) (w : world) :
  (forall d, app_base_dir E = Ok d ->
             fs w !! path_join E d "spotdl.exe" = None) ->
  run E w
  = (Ok tt,
     {| fs := fs w;
        trace := trace w
                 ++ match app_base_dir E with
                    | Ok d => [AppBaseDir;
                               PathExists (path_join E d "spotdl.exe");
                               Finished]
                    | Raise _ => [AppBaseDir; Finished]
                    end |}).
Proof.
  intros Habsent. unfold run, bind at 1, try_except. rewrite attempt_runs.
  destruct (app_base_dir E) as [d|e].
  - cbv zeta. rewrite bool_decide_eq_false_2.
    + cbn [trace]. now rewrite <- app_assoc.
    + rewrite (Habsent d eq_refl). now intros [x Hx].
  - unfold ret, emit, log, modify. cbn [fs trace]. now rewrite <- app_assoc.
Qed.

Lemma run_without_binary_witness :
  run locked_download without_binary
  = (Ok tt,
     {| fs := fs without_binary;
        trace := trace without_binary
                 ++ match app_base_dir locked_download with
                    | Ok d => [AppBaseDir;
                               PathExists (path_join locked_download d "spotdl.exe");
                               Finished]
                    | Raise _ => [AppBaseDir; Finished]
                    end |}).
Proof.
  apply (run_without_binary locked_download without_binary).
  intros d Hd. reflexivity.
Defined.


(** With [app_base_dir] supplied: version 4.2.10 is installed, 4.2.11
    is downloaded, and the new file is held open by another program:
    [os.replace] fails, the fallback removes the old binary, [os.rename]
    fails, the exception is swallowed and [Finished] is emitted.  The job
    ends without an error, and the binary that was on disk is gone. *)
Lemma run_loses_binary :
  fs with_binary !! "C:/App/spotdl.exe" = Some "MZ4210"
  /\ fst (run locked_download with_binary) = Ok tt
  /\ trace (snd (run locked_download with_binary))
     = [AppBaseDir; PathExists "C:/App/spotdl.exe";
        CheckOutput ["C:/App/spotdl.exe"; "--version"];
        HttpGet feed 15;
        UpdateStatus "Downloading spotDL update..."; StartProgress;
        HttpGet "https://github.com/spotDL/spotify-downloader/releases/download/v4.2.11/spotdl-4.2.11-win32.exe" 60;
        OpenWrite "C:/App/spotdl.exe.new";
        WriteChunk "C:/App/spotdl.exe.new" 4; UpdateProgress 50;
        WriteChunk "C:/App/spotdl.exe.new" 4; UpdateProgress 100;
        Replace "C:/App/spotdl.exe.new" "C:/App/spotdl.exe";
        PathExists "C:/App/spotdl.exe"; Remove "C:/App/spotdl.exe";
        PathExists "C:/App/spotdl.exe.new";
        Rename "C:/App/spotdl.exe.new" "C:/App/spotdl.exe"; Finished]
  /\ fs (snd (run locked_download with_binary)) !! "C:/App/spotdl.exe" = None
  /\ fs (snd (run locked_download with_binary)) !! "C:/App/spotdl.exe.new"
     = Some "MZ420011".
Proof. repeat split; vm_compute; reflexivity. Qed.

(** *** The download and the installation *)

Lemma log_step (e : event) (w : world) :
  log e w = (Ok tt, {| fs := fs w; trace := trace w ++ [e] |}).
Proof. reflexivity. Qed.

Lemma write_runs (E : env) (p chunk : string) (w : world) :
  fault E OpWrite = None ->
  write E p chunk w
  = (Ok tt,
     {| fs := <[p := default EmptyString (fs w !! p) +:+ chunk]> (fs w);
        trace := trace w ++ [WriteChunk p (Z.of_nat (String.length chunk))] |}).
Proof. intros Hf. unfold write, bind, failing. now rewrite log_step, Hf. Qed.

Lemma size_body_cons (chunk : string) (rest : list string) :
  Py.truthy chunk = true ->
  body (chunk :: rest) = chunk +:+ body rest.
Proof. intros H. unfold body. cbn [received]. now rewrite H. Qed.

Lemma truthy_length (s : string) :
  Py.truthy s = true -> (1 <= String.length s)%nat.
Proof. destruct s; [discriminate|]. cbn. lia. Qed.

(** The copying loop, when writing does not fail. *)
Lemma copy_chunks_runs (E : env) (temp_path : string) (total_size : Z)
    (blocks : list string) (ending : option exn) (downloaded : Z)
    (w : world) (old : string) :
  fault E OpWrite = None ->
  fs w !! temp_path = Some old ->
  0 <= downloaded ->
  downloaded + Z.of_nat (String.length (body blocks)) < 2 ^ 950 ->
  total_size < 2 ^ 1000 ->
  exists events,
    copy_chunks E temp_path total_size blocks ending downloaded w
    = (if cut_short blocks then Ok tt
       else match ending with Some e => Raise e | None => Ok tt end,
       {| fs := <[temp_path := old +:+ body blocks]> (fs w);
          trace := trace w ++ events |})
    /\ writes events
       = map (fun chunk => Z.of_nat (String.length chunk)) (received blocks)
    /\ length (percents events)
       = (if 0 <? total_size then length (received blocks) else 0%nat)
    /\ Forall (fun p => 0 <= p) (percents events)
    /\ (downloaded + Z.of_nat (String.length (body blocks)) <= total_size ->
        Forall (fun p => p <= 100) (percents events)).
Proof.
  intros Hfault. revert downloaded w old.
  induction blocks as [|chunk rest IH]; intros downloaded w old Hold Hd Hsize Htotal.
  - exists []. cbn [copy_chunks cut_short existsb body received fold_right].
    rewrite append_empty_r, app_nil_r, insert_id by exact Hold.
    destruct w; cbn [fs trace]. split.
    { now destruct ending. }
    cbn. destruct (0 <? total_size); repeat split; constructor.
  - cbn [copy_chunks cut_short existsb]. destruct (Py.truthy chunk) eqn:Hchunk;
      cbn [negb orb].
    + rewrite size_body_cons in * by exact Hchunk.
      rewrite length_append, Nat2Z.inj_add in Hsize.
      pose proof (truthy_length chunk Hchunk) as Hlen.
      unfold bind at 1. rewrite write_runs by exact Hfault. rewrite Hold.
      cbn [default].
      set (w1 := {| fs := _; trace := _ |}).
      assert (fs w1 !! temp_path = Some (old +:+ chunk)) as Hold1
        by (subst w1; cbn [fs]; apply lookup_insert_eq).
      assert (exists ev1,
                (if 0 <? total_size
                 then bind (lift (Float.percent
                                    (downloaded + Z.of_nat (String.length chunk))
                                    total_size))
                        (fun progress => emit (UpdateProgress progress))
                 else ret tt) w1
                = (Ok tt, {| fs := fs w1; trace := trace w1 ++ ev1 |})
                /\ writes ev1 = []
                /\ length (percents ev1)
                   = (if 0 <? total_size then 1%nat else 0%nat)
                /\ Forall (fun p => 0 <= p) (percents ev1)
                /\ (downloaded + Z.of_nat (String.length chunk) <= total_size ->
                    Forall (fun p => p <= 100) (percents ev1)))
        as (ev1 & Hstep & Hw1 & Hn1 & Hp1 & Hq1).
      { destruct (0 <? total_size) eqn:Hpos.
        - apply Z.ltb_lt in Hpos.
          destruct (FloatProps.percent_finite
                      (downloaded + Z.of_nat (String.length chunk)) total_size
                      ltac:(lia) ltac:(lia)) as (p & Hp & Hp0).
          exists [UpdateProgress p]. unfold bind, lift, emit. rewrite Hp.
          split; [reflexivity|]. split; [reflexivity|]. split; [reflexivity|].
          split; [repeat constructor; exact Hp0|].
          intros Hle.
          destruct (FloatProps.percent_normal
                      (downloaded + Z.of_nat (String.length chunk)) total_size
                      ltac:(lia) Htotal) as (p' & Hp' & Hrange & _).
          rewrite Hp in Hp'. injection Hp' as <-.
          repeat constructor. lia.
        - exists []. destruct w1; cbn [fs trace]. rewrite app_nil_r.
          repeat split; constructor. }
      unfold bind at 1. rewrite Hstep.
      destruct (IH (downloaded + Z.of_nat (String.length chunk))
                  {| fs := fs w1; trace := trace w1 ++ ev1 |}
                  (old +:+ chunk) Hold1 ltac:(lia) ltac:(lia) Htotal)
        as (ev2 & Hrest & Hw2 & Hn2 & Hp2 & Hq2).
      rewrite Hrest.
      exists (WriteChunk temp_path (Z.of_nat (String.length chunk))
                :: ev1 ++ ev2).
      split.
      { f_equal. subst w1. cbn [fs trace].
        rewrite insert_insert_eq, append_assoc, <- !app_assoc. reflexivity. }
      change (WriteChunk temp_path (Z.of_nat (String.length chunk))
                :: ev1 ++ ev2)
        with ([WriteChunk temp_path (Z.of_nat (String.length chunk))]
                ++ ev1 ++ ev2).
      unfold writes, percents in *. rewrite !omap_app.
      cbn [received]. rewrite Hchunk. cbn [map length].
      split; [now rewrite Hw1, Hw2|].
      split.
      { rewrite !length_app, Hn1, Hn2. now destruct (0 <? total_size). }
      split; [apply Forall_app; split; [constructor|apply Forall_app; now split]|].
      intros Hle. rewrite length_append, Nat2Z.inj_add in Hle.
      apply Forall_app. split; [constructor|].
      apply Forall_app. split; [apply Hq1|apply Hq2]; lia.
    + exists []. unfold body. cbn [received]. rewrite Hchunk.
      cbn [fold_right map length].
      rewrite append_empty_r, app_nil_r, insert_id by exact Hold.
      destruct w; cbn [fs trace]. split; [reflexivity|].
      cbn. destruct (0 <? total_size); repeat split; constructor.
Qed.

Lemma failing_runs (E : env) (op : fs_op) (w : world) :
  failing E op w
  = (match fault E op with Some e => Raise e | None => Ok tt end, w).
Proof. unfold failing. now destruct (fault E op). Qed.

Lemma replace_runs (E : env) (src dst : string) (w : world) :
  replace E src dst w
  = match fault E OpReplace, fs w !! src with
    | Some e, _ =>
        (Raise e, {| fs := fs w; trace := trace w ++ [Replace src dst] |})
    | None, None =>
        (Raise (missing src),
         {| fs := fs w; trace := trace w ++ [Replace src dst] |})
    | None, Some c =>
        (Ok tt, {| fs := <[dst := c]> (delete src (fs w));
                   trace := trace w ++ [Replace src dst] |})
    end.
Proof.
  unfold replace, bind. rewrite log_step, failing_runs.
  destruct (fault E OpReplace); [reflexivity|]. unfold gets. cbn [fs trace].
  now destruct (fs w !! src).
Qed.

Lemma remove_runs (E : env) (p : string) (w : world) :
  remove E p w
  = match fault E OpRemove, fs w !! p with
    | Some e, _ => (Raise e, {| fs := fs w; trace := trace w ++ [Remove p] |})
    | None, None =>
        (Raise (missing p), {| fs := fs w; trace := trace w ++ [Remove p] |})
    | None, Some _ =>
        (Ok tt, {| fs := delete p (fs w); trace := trace w ++ [Remove p] |})
    end.
Proof.
  unfold remove, bind. rewrite log_step, failing_runs.
  destruct (fault E OpRemove); [reflexivity|]. unfold gets. cbn [fs trace].
  now destruct (fs w !! p).
Qed.

Lemma rename_runs (E : env) (src dst : string) (w : world) (c : string) :
  fault E OpRename = None ->
  fs w !! src = Some c ->
  rename_replaces E = true \/ fs w !! dst = None ->
  rename E src dst w
  = (Ok tt, {| fs := <[dst := c]> (delete src (fs w));
               trace := trace w ++ [Rename src dst] |}).
Proof.
  intros Hf Hsrc Hfree. unfold rename, bind. rewrite log_step, failing_runs, Hf.
  unfold gets. cbn [fs trace]. rewrite Hsrc.
  destruct Hfree as [Hfree|Hfree]; rewrite Hfree.
  - now rewrite andb_false_r.
  - rewrite bool_decide_eq_false_2; [reflexivity|]. now intros [x Hx].
Qed.

(** The installation of the downloaded file (lines 853-863): whenever
    [os.replace] succeeds, or fails while the removal of the old binary
    and the renaming can do the work, the binary path holds the
    downloaded content and the temporary file is gone. *)
Lemma install_runs (E : env) (temp_path spotdl_path : string) (w : world)
    (c : string) :
  fs w !! temp_path = Some c ->
  temp_path <> spotdl_path ->
  fault E OpReplace = None
  \/ (fault E OpRename = None
      /\ (fault E OpRemove = None \/ rename_replaces E = true
          \/ fs w !! spotdl_path = None)) ->
  exists events,
    install E temp_path spotdl_path w
    = (Ok tt, {| fs := <[spotdl_path := c]> (delete temp_path (fs w));
                 trace := trace w ++ events |})
    /\ forallb not_finished events = true.
Proof.
  intros Htemp Hne Hway. unfold install, try_except. rewrite replace_runs, Htemp.
  destruct (fault E OpReplace) as [e|] eqn:Hreplace.
  - destruct Hway as [Hbad|[Hrename Hway]]; [discriminate|].
    unfold bind at 1. rewrite path_exists_runs. cbn [fs trace].
    destruct (fs w !! spotdl_path) as [old|] eqn:Hold.
    + rewrite bool_decide_eq_true_2 by eauto. cbn [when].
      unfold bind at 1. unfold try_except. rewrite remove_runs. cbn [fs trace].
      rewrite Hold.
      destruct (fault E OpRemove) as [e'|] eqn:Hremove.
      * destruct Hway as [Hbad|[Hposix|Hbad]]; [discriminate| |discriminate].
        unfold ret.
        unfold bind at 1. rewrite path_exists_runs. cbn [fs trace].
        rewrite Htemp, bool_decide_eq_true_2 by eauto. cbn [when].
        rewrite (rename_runs E _ _ _ c Hrename) by (cbn [fs]; auto).
        cbn [fs trace]. eexists [_; _; _; _; _]. rewrite <- !app_assoc.
        split; reflexivity.
      * unfold bind at 1. rewrite path_exists_runs. cbn [fs trace].
        rewrite lookup_delete_ne, Htemp, bool_decide_eq_true_2 by eauto.
        cbn [when].
        rewrite (rename_runs E _ _ _ c Hrename);
          [| cbn [fs]; now rewrite lookup_delete_ne
           | right; cbn [fs]; apply lookup_delete_eq].
        cbn [fs trace]. eexists [_; _; _; _; _]. rewrite <- !app_assoc.
        split; [do 2 f_equal; now rewrite delete_delete, insert_delete_eq
               |reflexivity].
    + rewrite bool_decide_eq_false_2 by (now intros [x Hx]). cbn [when].
      unfold bind at 1, ret. cbv beta iota.
      unfold bind at 1. rewrite path_exists_runs. cbn [fs trace].
      rewrite Htemp, bool_decide_eq_true_2 by eauto. cbn [when].
      rewrite (rename_runs E _ _ _ c Hrename) by (cbn [fs]; auto).
      cbn [fs trace]. eexists [_; _; _; _]. rewrite <- !app_assoc.
      split; reflexivity.
  - eexists [_]. split; reflexivity.
Qed.

Lemma open_wb_runs (E : env) (p : string) (w : world) :
  fault E OpOpen = None ->
  open_wb E p w
  = (Ok tt, {| fs := <[p := EmptyString]> (fs w);
               trace := trace w ++ [OpenWrite p] |}).
Proof. intros Hf. unfold open_wb, bind. now rewrite log_step, failing_runs, Hf. Qed.

(** The download and installation of the chosen asset, when nothing
    fails. *)
Lemma download_installs (E : env) (download_url spotdl_path : string)
    (w : world) (r : response) (total_size : Z) :
  urlopen E download_url = Ok r ->
  match content_length r with None => Ok 0 | Some s => int_of_str s end
  = Ok total_size ->
  total_size < 2 ^ 1000 ->
  Z.of_nat (String.length (body (chunks r))) < 2 ^ 950 ->
  cut_short (chunks r) = true \/ broken r = None ->
  (forall op, fault E op = None) ->
  exists events,
    download E download_url spotdl_path w
    = (Ok tt,
       {| fs := <[spotdl_path := body (chunks r)]>
                  (delete (spotdl_path +:+ ".new") (fs w));
          trace := events |}).
Proof.
  intros Hopen Hlen Htotal Hsize Hend Hfault. unfold download.
  unfold bind at 1, emit. rewrite log_step.
  unfold bind at 1. rewrite log_step. cbn [fs trace].
  unfold bind at 1, lift. rewrite Hopen.
  unfold bind at 1. rewrite Hlen.
  unfold bind at 1. rewrite open_wb_runs by apply Hfault. cbn [fs trace].
  unfold bind at 1.
  match goal with |- context [copy_chunks E ?t ?n ?b ?e ?d ?w1] =>
    destruct (copy_chunks_runs E t n b e d w1 EmptyString (Hfault OpWrite))
      as (ev & Hcopy & _) end;
    [cbn [fs]; apply lookup_insert_eq|lia|lia|exact Htotal|].
  rewrite Hcopy. cbn [fs trace].
  replace (if cut_short (chunks r) then Ok tt
           else match broken r with Some e => Raise e | None => Ok tt end)
    with (Ok tt : result unit)
    by (destruct Hend as [->| ->]; [reflexivity|now destruct (cut_short _)]).
  rewrite append_empty_l, insert_insert_eq.
  match goal with |- context [install E ?t ?p ?w1] =>
    destruct (install_runs E t p w1 (body (chunks r))) as (ev' & Hinst & _) end;
    [cbn [fs]; apply lookup_insert_eq
    |intros Heq; symmetry in Heq; revert Heq; now apply append_longer
    |left; apply Hfault|].
  rewrite Hinst. cbn [fs trace]. rewrite delete_insert_eq. eauto.
Qed.

Lemma upgrade_runs (E : env) (spotdl_path : string) (w : world)
    (output current_version : string) (more : list string) (data : release) :
  check_output E [spotdl_path; "--version"] = Ok output ->
  List.rev (Py.split_ws (Py.strip output)) = current_version :: more ->
  fetch_latest E = Ok data ->
  upgrade E spotdl_path w
  = let latest_tag := Py.lstrip_char "v" (default "" (tag_name data)) in
    let w1 := {| fs := fs w;
                 trace := trace w ++ [CheckOutput [spotdl_path; "--version"];
                                      HttpGet feed 15] |} in
    if Version.update_available latest_tag current_version then
      let w2 := {| fs := fs w;
                   trace := trace w1
                            ++ [UpdateStatus "Downloading spotDL update..."] |} in
      let download_url := Assets.choose (machine E) latest_tag (assets data) in
      if Assets.url_truthy download_url
      then download E (default "" download_url) spotdl_path w2
      else (Ok tt, w2)
    else (Ok tt, w1).
Proof.
  intros Hout Hlast Hfeed. unfold upgrade.
  unfold bind at 1. rewrite log_step. unfold bind at 1, lift. rewrite Hout.
  unfold bind at 1. rewrite Hlast.
  unfold bind at 1. rewrite log_step. cbn [fs trace].
  unfold bind at 1. rewrite Hfeed. cbv zeta. rewrite <- app_assoc. cbn [app].
  destruct (Version.update_available _ _); [|reflexivity].
  unfold bind at 1, emit. rewrite log_step. cbn [fs trace].
  now destruct (Assets.url_truthy _).
Qed.

Lemma selected_choose (machine latest_tag : string)
    (assets : list Assets.asset) (u : string) :
  Assets.selected machine latest_tag assets = Some u ->
  Assets.choose machine latest_tag assets = Some u
  /\ Assets.url_truthy (Some u) = true.
Proof.
  unfold Assets.selected.
  destruct (Assets.url_truthy (Assets.choose machine latest_tag assets)) eqn:H;
    [|discriminate].
  intros Hu. rewrite Hu in H. now split.
Qed.

Lemma selected_none (machine latest_tag : string)
    (assets : list Assets.asset) :
  Assets.selected machine latest_tag assets = None ->
  Assets.url_truthy (Assets.choose machine latest_tag assets) = false.
Proof.
  unfold Assets.selected.
  destruct (Assets.url_truthy (Assets.choose machine latest_tag assets)) eqn:H;
    [|reflexivity].
  intros Hu. rewrite Hu in H. discriminate.
Qed.

(** X12. With the binary present, its version printed and the feed
    read: when the tag is not greater than the installed version, or no
    asset is selected, the job leaves the files as they are and requests
    nothing but the feed; it emits the status text only in the second
    case, then [Finished]. *)
Theorem run_without_update (E : env) (w : world) (d output : string)
    (current_version : string) (more : list string) (data : release) :
  app_base_dir E = Ok d ->
  let spotdl_path := path_join E d "spotdl.exe" in
  is_Some (fs w !! spotdl_path) ->
  check_output E [spotdl_path; "--version"] = Ok output ->
  List.rev (Py.split_ws (Py.strip output)) = current_version :: more ->
  fetch_latest E = Ok data ->
  let latest_tag := Py.lstrip_char "v" (default "" (tag_name data)) in
  Version.update_available latest_tag current_version = false
  \/ Assets.selected (machine E) latest_tag (assets data) = None ->
  run E w
  = (Ok tt,
     {| fs := fs w;
        trace := trace w
                 ++ [AppBaseDir; PathExists spotdl_path;
                     CheckOutput [spotdl_path; "--version"]; HttpGet feed 15]
                 ++ (if Version.update_available latest_tag current_version
                     then [UpdateStatus "Downloading spotDL update..."]
                     else [])
                 ++ [Finished] |}).
Proof.
  intros Hbase spotdl_path Hpresent Hout Hlast Hfeed latest_tag Hno.
  unfold run, bind at 1, try_except. rewrite attempt_runs, Hbase. cbv zeta.
  fold spotdl_path. rewrite bool_decide_eq_true_2 by exact Hpresent.
  unfold bind at 1.
  rewrite (upgrade_runs E spotdl_path _ output current_version more data
             Hout Hlast Hfeed).
  cbv zeta. fold latest_tag. cbn [fs trace].
  destruct (Version.update_available latest_tag current_version).
  - destruct Hno as [Hno|Hno]; [discriminate|].
    rewrite (selected_none _ _ _ Hno). unfold ret, emit. rewrite log_step.
    cbn [fs trace]. now rewrite <- !app_assoc.
  - unfold ret, emit. rewrite log_step. cbn [fs trace].
    now rewrite <- !app_assoc.
Qed.

Lemma run_without_update_witness :
  run current_install with_binary
  = (Ok tt,
     {| fs := fs with_binary;
        trace := [AppBaseDir; PathExists "C:/App/spotdl.exe";
                  CheckOutput ["C:/App/spotdl.exe"; "--version"];
                  HttpGet feed 15; Finished] |}).
Proof.
  apply (run_without_update current_install with_binary "C:/App"
           ("spotdl 4.2.11" +:+ nl) "4.2.11" ["spotdl"] release_4_2_11);
    try reflexivity.
  - now exists "MZ4210".
  - left. reflexivity.
Defined.

(** X17. With the binary present, a newer release, a selected asset, an
    answer that is read to its end, and no failing file operation: the job
    returns normally, the binary path holds the bytes received, the
    temporary file is gone, every other file is as it was, and [Finished]
    is the last event. *)
Theorem run_installs_update (E : env) (w : world) (d output : string)
    (current_version : string) (more : list string) (data : release)
    (download_url : string) (r : response) (total_size : Z) :
  app_base_dir E = Ok d ->
  let spotdl_path := path_join E d "spotdl.exe" in
  is_Some (fs w !! spotdl_path) ->
  check_output E [spotdl_path; "--version"] = Ok output ->
  List.rev (Py.split_ws (Py.strip output)) = current_version :: more ->
  fetch_latest E = Ok data ->
  let latest_tag := Py.lstrip_char "v" (default "" (tag_name data)) in
  Version.update_available latest_tag current_version = true ->
  Assets.selected (machine E) latest_tag (assets data) = Some download_url ->
  urlopen E download_url = Ok r ->
  match content_length r with None => Ok 0 | Some s => int_of_str s end
  = Ok total_size ->
  total_size < 2 ^ 1000 ->
  Z.of_nat (String.length (body (chunks r))) < 2 ^ 950 ->
  cut_short (chunks r) = true \/ broken r = None ->
  (forall op, fault E op = None) ->
  exists events,
    run E w
    = (Ok tt,
       {| fs := <[spotdl_path := body (chunks r)]>
                  (delete (spotdl_path +:+ ".new") (fs w));
          trace := trace w ++ events ++ [Finished] |})
    /\ forallb not_finished events = true.
Proof.
  intros Hbase spotdl_path Hpresent Hout Hlast Hfeed latest_tag Hnewer Hasset
    Hopen Hlen Htotal Hsize Hend Hfault.
  destruct (run_always_finishes E w) as (events & w' & Hrun & Htrace & Hquiet).
  exists events. split; [|exact Hquiet]. rewrite Hrun. f_equal.
  revert Hrun.
  unfold run, bind at 1, try_except. rewrite attempt_runs, Hbase. cbv zeta.
  fold spotdl_path. rewrite bool_decide_eq_true_2 by exact Hpresent.
  unfold bind at 1.
  rewrite (upgrade_runs E spotdl_path _ output current_version more data
             Hout Hlast Hfeed).
  cbv zeta. fold latest_tag. rewrite Hnewer.
  destruct (selected_choose _ _ _ _ Hasset) as [-> ->]. cbn [default].
  match goal with |- context [download E ?u ?p ?w1] =>
    destruct (download_installs E u p w1 r total_size Hopen Hlen Htotal Hsize
                Hend Hfault) as (t & Hdl) end.
  rewrite Hdl. cbn [fs]. unfold ret, emit. rewrite log_step. cbn [fs trace].
  intros [= <-]. cbn [trace] in Htrace. now rewrite Htrace.
Qed.

Lemma run_installs_update_witness :
  exists events,
    run clear_download with_binary
    = (Ok tt,
       {| fs := <["C:/App/spotdl.exe" := "MZ420011"]>
                  (delete "C:/App/spotdl.exe.new" (fs with_binary));
          trace := events ++ [Finished] |})
    /\ forallb not_finished events = true.
Proof.
  apply (run_installs_update clear_download with_binary "C:/App"
           ("4.2.10" +:+ nl) "4.2.10" [] release_4_2_11
           "https://github.com/spotDL/spotify-downloader/releases/download/v4.2.11/spotdl-4.2.11-win32.exe"
           {| content_length := Some "8"; chunks := ["MZ42"; "0011"];
              broken := None |} 8);
    try reflexivity.
  - now exists "MZ4210".
  - right. reflexivity.
Defined.

(** X14. The copying loop over a freshly opened temporary file, when
    writing does not fail: the file ends up holding the blocks received
    before the first empty one, concatenated; blocks after an empty one
    are never read, and the exception that breaks the response is raised
    only if no empty block came first.  One percentage is emitted per
    block written when the announced size is positive and none otherwise;
    no percentage is negative, and none exceeds 100 when the announced
    size covers the bytes received. *)
Theorem copy_chunks_writes (E : env) (temp_path : string) (total_size : Z)
    (blocks : list string) (ending : option exn) (w : world) :
  fault E OpWrite = None ->
  fs w !! temp_path = Some EmptyString ->
  Z.of_nat (String.length (body blocks)) < 2 ^ 950 ->
  total_size < 2 ^ 1000 ->
  exists events,
    copy_chunks E temp_path total_size blocks ending 0 w
    = (if cut_short blocks then Ok tt
       else match ending with Some e => Raise e | None => Ok tt end,
       {| fs := <[temp_path := body blocks]> (fs w);
          trace := trace w ++ events |})
    /\ writes events
       = map (fun chunk => Z.of_nat (String.length chunk)) (received blocks)
    /\ length (percents events)
       = (if 0 <? total_size then length (received blocks) else 0%nat)
    /\ Forall (fun p => 0 <= p) (percents events)
    /\ (Z.of_nat (String.length (body blocks)) <= total_size ->
        Forall (fun p => p <= 100) (percents events)).
Proof.
  intros Hfault Hempty Hsize Htotal.
  destruct (copy_chunks_runs E temp_path total_size blocks ending 0 w
              EmptyString Hfault Hempty ltac:(lia) ltac:(lia) Htotal)
    as (events & Hrun & Hw & Hn & Hp & Hq).
  exists events. rewrite append_empty_l in Hrun.
  split; [exact Hrun|]. split; [exact Hw|]. split; [exact Hn|].
  split; [exact Hp|]. intros Hle. apply Hq. lia.
Qed.

Lemma copy_chunks_writes_witness :
  exists events,
    copy_chunks clear_download "C:/App/spotdl.exe.new" 8
      ["MZ42"; "0011"; EmptyString; "late"] (Some in_use) 0 opened_temp
    = (Ok tt,
       {| fs := <["C:/App/spotdl.exe.new" := "MZ420011"]> (fs opened_temp);
          trace := events |})
    /\ writes events = [4; 4]
    /\ length (percents events) = 2%nat
    /\ Forall (fun p => 0 <= p) (percents events)
    /\ (8 <= 8 -> Forall (fun p => p <= 100) (percents events)).
Proof.
  apply (copy_chunks_writes clear_download "C:/App/spotdl.exe.new" 8
           ["MZ42"; "0011"; EmptyString; "late"] (Some in_use) opened_temp);
    reflexivity.
Defined.

(** X15. The installation of the downloaded file (lines 853-863):
    whenever [os.replace] succeeds, or fails while the renaming can do the
    work (the old binary removed, absent, or replaceable by the renaming),
    the binary path holds the downloaded content and the temporary file is
    gone. *)
Theorem install_moves (E : env) (temp_path spotdl_path : string) (w : world)
    (c : string) :
  fs w !! temp_path = Some c ->
  temp_path <> spotdl_path ->
  fault E OpReplace = None
  \/ (fault E OpRename = None
      /\ (fault E OpRemove = None \/ rename_replaces E = true
          \/ fs w !! spotdl_path = None)) ->
  exists events,
    install E temp_path spotdl_path w
    = (Ok tt, {| fs := <[spotdl_path := c]> (delete temp_path (fs w));
                 trace := trace w ++ events |})
    /\ forallb not_finished events = true.
Proof. apply install_runs. Qed.

Lemma install_moves_witness :
  exists events,
    install replace_denied "C:/App/spotdl.exe.new" "C:/App/spotdl.exe" fetched
    = (Ok tt,
       {| fs := <["C:/App/spotdl.exe" := "MZ420011"]>
                  (delete "C:/App/spotdl.exe.new" (fs fetched));
          trace := trace fetched ++ events |})
    /\ forallb not_finished events = true.
Proof.
  apply (install_moves replace_denied "C:/App/spotdl.exe.new"
           "C:/App/spotdl.exe" fetched "MZ420011").
  - reflexivity.
  - discriminate.
  - right. split; [reflexivity|]. left. reflexivity.
Defined.

(** X29. The fallback of the installation (lines 857-863) removes the
    old binary before it renames the new file.  When [os.replace] and
    [os.rename] both fail while [os.remove] succeeds, the installation
    ends with the exception of [os.rename]: the binary path is empty and
    the temporary file still holds the download. *)
Theorem install_loses_binary (E : env) (temp_path spotdl_path : string)
    (w : world) (c old : string) (e1 e2 : exn) :
  fs w !! temp_path = Some c ->
  fs w !! spotdl_path = Some old ->
  temp_path <> spotdl_path ->
  fault E OpReplace = Some e1 ->
  fault E OpRemove = None ->
  fault E OpRename = Some e2 ->
  install E temp_path spotdl_path w
  = (Raise e2,
     {| fs := delete spotdl_path (fs w);
        trace := trace w
                 ++ [Replace temp_path spotdl_path; PathExists spotdl_path;
                     Remove spotdl_path; PathExists temp_path;
                     Rename temp_path spotdl_path] |}).
Proof.
  intros Htemp Hold Hne Hreplace Hremove Hrename.
  unfold install, try_except. rewrite replace_runs, Htemp, Hreplace.
  unfold bind at 1. rewrite path_exists_runs. cbn [fs trace].
  rewrite Hold, bool_decide_eq_true_2 by eauto. cbn [when].
  unfold bind at 1. unfold try_except. rewrite remove_runs. cbn [fs trace].
  rewrite Hold, Hremove.
  unfold bind at 1. rewrite path_exists_runs. cbn [fs trace].
  rewrite lookup_delete_ne, Htemp, bool_decide_eq_true_2 by eauto.
  cbn [when]. unfold rename, bind at 1. rewrite log_step.
  unfold bind at 1. rewrite failing_runs, Hrename.
  cbn [fs trace]. now rewrite <- !app_assoc.
Qed.

Lemma install_loses_binary_witness :
  install locked_download "C:/App/spotdl.exe.new" "C:/App/spotdl.exe" fetched
  = (Raise in_use,
     {| fs := delete "C:/App/spotdl.exe" (fs fetched);
        trace := trace fetched
                 ++ [Replace "C:/App/spotdl.exe.new" "C:/App/spotdl.exe";
                     PathExists "C:/App/spotdl.exe";
                     Remove "C:/App/spotdl.exe";
                     PathExists "C:/App/spotdl.exe.new";
                     Rename "C:/App/spotdl.exe.new" "C:/App/spotdl.exe"] |}).
Proof.
  apply (install_loses_binary locked_download "C:/App/spotdl.exe.new"
           "C:/App/spotdl.exe" fetched "MZ420011" "MZ4210" in_use in_use);
    reflexivity || discriminate.
Defined.

(** X16. When the request for the asset raises, or the
    [Content-Length] header of the answer is not an integer, the download
    ends with that exception before the temporary file is opened: the
    files are as they were and the only events are the start of the
    progress display and the request. *)
Theorem download_refused (E : env) (download_url spotdl_path : string)
    (w : world) (e : exn) :
  urlopen E download_url = Raise e
  \/ (exists r s,
        urlopen E download_url = Ok r
        /\ content_length r = Some s /\ int_of_str s = Raise e) ->
  download E download_url spotdl_path w
  = (Raise e,
     {| fs := fs w;
        trace := trace w ++ [StartProgress; HttpGet download_url 60] |}).
Proof.
  intros Hrefused. unfold download.
  unfold bind at 1, emit. rewrite log_step.
  unfold bind at 1. rewrite log_step. cbn [fs trace].
  unfold bind at 1, lift. rewrite <- app_assoc. cbn [app].
  destruct Hrefused as [->|(r & s & -> & Hlen & Hint)]; [reflexivity|].
  unfold bind at 1. now rewrite Hlen, Hint.
Qed.

Lemma download_refused_witness :
  download bad_length "https://example.org/spotdl.exe" "C:/App/spotdl.exe"
    with_binary
  = (Raise (ValueError "invalid literal for int() with base 10: 'eight'"),
     {| fs := fs with_binary;
        trace := trace with_binary
                 ++ [StartProgress;
                     HttpGet "https://example.org/spotdl.exe" 60] |}).
Proof.
  apply (download_refused bad_length "https://example.org/spotdl.exe"
           "C:/App/spotdl.exe" with_binary).
  right. eexists _, "eight". repeat split.
Defined.

(** X10. In every environment and from every state, the update job
    returns normally, and its signal [Finished] is emitted exactly once,
    as the last event. *)
Theorem run_finishes_once (E : env) (w : world) :
  exists events w',
    run E w = (Ok tt, w')
    /\ trace w' = trace w ++ events ++ [Finished]
    /\ forallb not_finished events = true.
Proof. apply run_always_finishes. Qed.

(** X11. When the base directory is known, the binary is on disk as it
    was for as long as the job has recorded no replace, remove or rename:
    the query, the requests and the writing of the temporary file leave it
    alone. *)
Theorem run_keeps_binary_until_moved (E : env) (w : world) (d : string) :
  app_base_dir E = Ok d ->
  exists events,
    trace (snd (run E w)) = trace w ++ events
    /\ (existsb moves_files events = false ->
        fs (snd (run E w)) !! path_join E d "spotdl.exe"
        = fs w !! path_join E d "spotdl.exe").
Proof. intros Hd. exact (run_spares_binary E w d Hd). Qed.

Lemma run_keeps_binary_until_moved_witness :
  exists events,
    trace (snd (run bad_length with_binary)) = trace with_binary ++ events
    /\ (existsb moves_files events = false ->
        fs (snd (run bad_length with_binary)) !! "C:/App/spotdl.exe"
        = fs with_binary !! "C:/App/spotdl.exe").
Proof.
  apply (run_keeps_binary_until_moved bad_length with_binary "C:/App").
  reflexivity.
Defined.

(** X13. With the binary present: when the version query raises or
    prints no token, no request is made at all; when the feed request
    raises, it is the only request.  In each case the files are as they
    were and [Finished] is the only signal. *)
Theorem run_query_fails (E : env) (w : world) (d : string) :
  app_base_dir E = Ok d ->
  let spotdl_path := path_join E d "spotdl.exe" in
  is_Some (fs w !! spotdl_path) ->
  let asked :=
    match check_output E [spotdl_path; "--version"] with
    | Ok output =>
        match Py.split_ws (Py.strip output) with
        | [] => false
        | _ => true
        end
    | Raise _ => false
    end in
  (asked = true -> exists e, fetch_latest E = Raise e) ->
  run E w
  = (Ok tt,
     {| fs := fs w;
        trace := trace w
                 ++ [AppBaseDir; PathExists spotdl_path;
                     CheckOutput [spotdl_path; "--version"]]
                 ++ (if asked then [HttpGet feed 15] else [])
                 ++ [Finished] |}).
Proof.
  intros Hbase spotdl_path Hpresent asked Hfeed.
  unfold run, bind at 1, try_except. rewrite attempt_runs, Hbase. cbv zeta.
  fold spotdl_path. rewrite bool_decide_eq_true_2 by exact Hpresent.
  unfold bind at 1, upgrade.
  unfold bind at 1. rewrite log_step. unfold bind at 1, lift.
  subst asked. cbn [fs trace].
  destruct (check_output E [spotdl_path; "--version"]) as [output|e].
  - unfold bind at 1.
    assert (List.rev (Py.split_ws (Py.strip output)) = []
            <-> Py.split_ws (Py.strip output) = []) as Hrev.
    { split; intros H.
      - apply (f_equal (@List.rev string)) in H.
        now rewrite rev_involutive in H.
      - now rewrite H. }
    destruct (List.rev (Py.split_ws (Py.strip output))) as [|last more] eqn:Hl.
    + rewrite (proj1 Hrev eq_refl). unfold ret, emit. rewrite log_step.
      cbn [fs trace]. now rewrite <- !app_assoc.
    + destruct (Py.split_ws (Py.strip output)) as [|t ts] eqn:Hs.
      { discriminate (proj2 Hrev eq_refl). }
      destruct (Hfeed eq_refl) as (e & He).
      unfold bind at 1. rewrite log_step. cbn [fs trace].
      unfold bind at 1. rewrite He. unfold ret, emit. rewrite log_step.
      cbn [fs trace]. now rewrite <- !app_assoc.
  - unfold ret, emit. rewrite log_step. cbn [fs trace].
    now rewrite <- !app_assoc.
Qed.

Lemma run_query_fails_witness :
  run mute_binary with_binary
  = (Ok tt,
     {| fs := fs with_binary;
        trace := [AppBaseDir; PathExists "C:/App/spotdl.exe";
                  CheckOutput ["C:/App/spotdl.exe"; "--version"];
                  Finished] |}).
Proof.
  apply (run_query_fails mute_binary with_binary "C:/App").
  - reflexivity.
  - now exists "MZ4210".
  - discriminate.
Defined.

End UpdateProps.

(** ** The window's slots *)
Module WindowProps.
Import Window Samples.

Ltac slots :=
  unfold download_finished, clear_history, add_to_history, start_download,
    browse_download_location, browse_location, save_settings, save_history,
    load_history, load_settings, update_history_display, set_download_history,
    ensure_app_data_dir, open_w, dump, load, path_exists, makedirs, set_value,
    update_status, update_console, log, try_except, bind, gets, when, modify,
    raise, ret, with_inputs, with_console, with_display, with_history,
    with_settings, with_settings_file, with_existing, with_trace;
  cbn [inputs console_text display history settings settings_file
       app_data_dir existing trace negb].

Ltac settle t :=
  first [ match goal with H : t = _ |- _ => rewrite H end
        | let H := fresh "Horacle" in destruct t eqn:H ].

Ltac oracle E :=
  cbn;
  repeat (match goal with
          | |- context [makedirs_error E ?p] => settle (makedirs_error E p)
          | |- context [open_error E ?p] => settle (open_error E p)
          | |- context [dump_error E ?p] => settle (dump_error E p)
          | |- context [read_error E ?p] => settle (read_error E p)
          | |- context [bool_decide ?P] => settle (bool_decide P)
          end; cbn).

(** [save_history] never raises; it changes nothing but the file, the
    set of existing paths, and, when it fails, the console and the
    output. *)
Lemma save_history_runs (E : env) (w : window) :
  exists w',
    save_history E w = (Ok tt, w')
    /\ history w'
       = History.save_history (save_end E w "download_history.json") (history w)
    /\ console_text w'
       = console_text w
         ++ match save_failure E w "download_history.json" with
            | Some e => ["Error saving history: " +:+ str e]
            | None => []
            end
    /\ inputs w' = inputs w /\ display w' = display w
    /\ settings w' = settings w /\ settings_file w' = settings_file w
    /\ app_data_dir w' = app_data_dir w.
Proof.
  destruct w as [f c d [dh hf hl] s sf dir ex t].
  unfold save_end, save_failure. slots.
  oracle E; eexists; (split; [reflexivity|]); cbn;
    rewrite ?app_nil_r; repeat split; reflexivity.
Qed.

Lemma save_end_written (E : env) (w : window) (name : string) :
  save_end E w name = Written <-> save_failure E w name = None.
Proof.
  unfold save_end, save_failure. cbv zeta.
  destruct (if bool_decide (app_data_dir w ∈ existing w) then None
            else makedirs_error E (app_data_dir w));
    [split; discriminate|].
  destruct (open_error E _); [split; discriminate|].
  destruct (dump_error E _); split; reflexivity || discriminate.
Qed.

Lemma item_text_success (timestamp content format_type quality path : string) :
  item_text {[ "timestamp" := timestamp; "content" := content;
               "status" := "Success"; "format" := format_type;
               "quality" := quality; "path" := path ]}
  = "✅ " +:+ timestamp +:+ " - " +:+ content
    +:+ " (" +:+ quality +:+ ", " +:+ format_type +:+ ")".
Proof. vm_compute. reflexivity. Qed.

Lemma item_text_failed (timestamp content message format_type quality : string) :
  item_text {[ "timestamp" := timestamp; "content" := content;
               "status" := "Failed"; "error" := message;
               "format" := format_type; "quality" := quality ]}
  = "❌ " +:+ timestamp +:+ " - " +:+ content +:+ " - Error: " +:+ message.
Proof. vm_compute. reflexivity. Qed.

Lemma add_to_history_runs (E : env) (entry : History.entry) (w : window) :
  exists w',
    add_to_history E entry w = (Ok tt, w')
    /\ history w'
       = History.add_to_history (save_end E w "download_history.json") entry
           (history w)
    /\ console_text w'
       = console_text w
         ++ match save_failure E w "download_history.json" with
            | Some e => ["Error saving history: " +:+ str e]
            | None => []
            end
    /\ inputs w' = inputs w /\ display w' = display w
    /\ settings w' = settings w /\ settings_file w' = settings_file w
    /\ app_data_dir w' = app_data_dir w.
Proof.
  destruct w as [f c d [dh hf hl] s sf dir ex t].
  unfold save_end, save_failure. slots.
  oracle E; eexists; (split; [reflexivity|]); cbn;
    rewrite ?app_nil_r; repeat split; reflexivity.
Qed.

(** X21. In the window, [add_to_history] never raises.  On the history
    it does what [History.add_to_history] does with the end that the
    write takes there: completed exactly when no exception is met;
    refused, the file left as it was, when the exception comes from making
    the data directory or from opening the file; broken, the file left
    torn, when it comes from the dump, after the file was opened.  A
    failure appends its message to the console, and the form, the progress
    display and the settings are left alone. *)
Theorem window_add_to_history (E : env) (entry : History.entry) (w : window) :
  let file := "download_history.json" in
  exists w',
    add_to_history E entry w = (Ok tt, w')
    /\ history w'
       = History.add_to_history (save_end E w file) entry (history w)
    /\ (save_end E w file = Written <-> save_failure E w file = None)
    /\ (save_end E w file = Broken
        <-> (app_data_dir w ∈ existing w
             \/ makedirs_error E (app_data_dir w) = None)
            /\ open_error E (path_join E (app_data_dir w) file) = None
            /\ dump_error E (path_join E (app_data_dir w) file) <> None)
    /\ console_text w'
       = console_text w
         ++ match save_failure E w file with
            | Some e => ["Error saving history: " +:+ str e]
            | None => []
            end
    /\ inputs w' = inputs w /\ display w' = display w
    /\ settings w' = settings w /\ settings_file w' = settings_file w
    /\ app_data_dir w' = app_data_dir w.
Proof.
  intros file. subst file.
  destruct (add_to_history_runs E entry w) as (w' & Hrun & Hh & Hrest).
  exists w'. split; [exact Hrun|]. split; [exact Hh|].
  split; [apply save_end_written|]. split; [|exact Hrest].
  unfold save_end. cbv zeta.
  destruct (bool_decide (app_data_dir w ∈ existing w)) eqn:Hdir.
  - apply bool_decide_eq_true in Hdir.
    destruct (open_error E _); [split; [discriminate|intros (_ & H & _); discriminate]|].
    destruct (dump_error E _); split; try discriminate; try (intros (_ & _ & H); now destruct H).
    + intros _. split; [now left|]. split; [reflexivity|discriminate].
    + reflexivity.
  - apply bool_decide_eq_false in Hdir.
    destruct (makedirs_error E _).
    { split; [discriminate|]. intros ([H|H] & _); [now destruct Hdir|discriminate]. }
    destruct (open_error E _); [split; [discriminate|intros (_ & H & _); discriminate]|].
    destruct (dump_error E _); split; try discriminate; try (intros (_ & _ & H); now destruct H).
    + intros _. split; [now right|]. split; [reflexivity|discriminate].
    + reflexivity.
Qed.

Lemma download_finished_runs (E : env) (success : bool)
    (message content timestamp : string) (w : window) :
  exists w',
    download_finished E success message content timestamp w = (Ok tt, w')
    /\ history w'
       = History.add_to_history (save_end E w "download_history.json")
           (history_entry E (inputs w) success message content timestamp)
           (history w)
    /\ display w'
       = {| Progress.bar := 100;
            Progress.status := if success
                               then "Download completed successfully!"
                               else "Download failed." |}
    /\ inputs w' = inputs w
    /\ app_data_dir w' = app_data_dir w.
Proof.
  destruct w as [f c d [dh hf hl] s sf dir ex t].
  unfold save_end, history_entry. slots.
  destruct success; oracle E; eexists; (split; [reflexivity|]); cbn;
    repeat split; reflexivity.
Qed.

Lemma shown_added (how : write_end) (e : History.entry) (a : History.app)
    (w : window) :
  history w = History.add_to_history how e a -> shown w.
Proof.
  intros H. unfold shown. rewrite H. split.
  - unfold History.add_to_history, History.save_history. now destruct how.
  - rewrite HistoryProps.add_to_history_list, HistoryProps.insert_capped_length.
    unfold History.limit. lia.
Qed.

Lemma slot_keeps_shown (E : env) (c : call) (w : window) :
  shown w -> exists w', slot E c w = (Ok tt, w') /\ shown w'.
Proof.
  intros Hshown. destruct c as [|text|success message content timestamp
                                |reply|folder|folder]; cbn [slot].
  - destruct w as [f c d h s sf dir ex t]. unfold shown in *. slots.
    destruct (Py.truthy (url_entry f)); oracle E; eauto.
  - eexists. split; [reflexivity|exact Hshown].
  - destruct (download_finished_runs E success message content timestamp w)
      as (w' & Hrun & Hh & _).
    exists w'. split; [exact Hrun|]. exact (shown_added _ _ _ _ Hh).
  - destruct w as [f c d h s sf dir ex t]. unfold shown in *. slots.
    destruct reply; oracle E; eexists; (split; [reflexivity|]); cbn;
      first [exact Hshown | split; [reflexivity|lia]].
  - destruct w as [f c d h s sf dir ex t]. unfold shown in *. slots.
    destruct (Py.truthy folder); oracle E; eauto.
  - destruct w as [f c d h s sf dir ex t]. unfold shown in *. slots.
    destruct (Py.truthy folder); oracle E; eauto.
Qed.

(** X22. The slot for the terminal signal never raises.  It puts one
    entry at the head of the history, whose row reads, for a success, the
    mark, the timestamp, the content and the quality and format of the
    form; for a failure, the mark, the timestamp (the current time when
    the signal had none), the content (the URL of the form when the signal
    had none) and the error message.  The fall-back texts [Unknown] never
    show for such an entry.  The bar is left at 100 with the matching
    status text. *)
Theorem download_finished_records (E : env) (success : bool)
    (message content timestamp : string) (w : window) :
  let f := inputs w in
  exists w',
    download_finished E success message content timestamp w = (Ok tt, w')
    /\ History.download_history (history w')
       = History.insert_capped
           (history_entry E f success message content timestamp)
           (History.download_history (history w))
    /\ hd_error (rows w')
       = Some (if success
               then "✅ " +:+ timestamp +:+ " - " +:+ content
                    +:+ " (" +:+ quality_combo f +:+ ", "
                    +:+ format_combo f +:+ ")"
               else "❌ "
                    +:+ (if Py.truthy timestamp then timestamp else now E)
                    +:+ " - "
                    +:+ (if Py.truthy content then content else url_entry f)
                    +:+ " - Error: " +:+ message)
    /\ display w'
       = {| Progress.bar := 100;
            Progress.status := if success
                               then "Download completed successfully!"
                               else "Download failed." |}.
Proof.
  intros f.
  destruct (download_finished_runs E success message content timestamp w)
    as (w' & Hrun & Hh & Hd & _).
  exists w'. split; [exact Hrun|]. unfold rows. rewrite Hh, Hd. fold f.
  split; [apply HistoryProps.add_to_history_list|]. split; [|reflexivity].
  replace (History.history_list (History.add_to_history _ _ _))
    with (History.insert_capped
            (history_entry E f success message content timestamp)
            (History.download_history (history w)))
    by (unfold History.add_to_history, History.save_history;
        now destruct (save_end _ _ _)).
  rewrite HistoryProps.insert_capped_first. cbn [History.limit firstn map hd_error].
  f_equal. unfold history_entry.
  destruct success; [apply item_text_success|apply item_text_failed].
Qed.

Lemma play_runs (E : env) (calls : list call) (w : window) :
  shown w -> exists w', play E calls w = (Ok tt, w') /\ shown w'.
Proof.
  revert w. induction calls as [|c rest IH]; intros w Hshown.
  - exists w. split; [reflexivity|exact Hshown].
  - destruct (slot_keeps_shown E c w Hshown) as (w1 & Hslot & Hshown1).
    destruct (IH w1 Hshown1) as (w2 & Hrest & Hshown2).
    exists w2. split; [|exact Hshown2].
    cbn [play]. unfold bind. now rewrite Hslot.
Qed.

(** X23. Whatever series of slots the event loop calls (start of a
    download, console line, terminal signal, clearing of the history with
    either answer, either folder dialog), none of them raises, and
    afterwards the history widget shows one row per entry of the history
    in memory, in order, and at most 100 rows, provided it did so
    before. *)
Theorem play_keeps_shown (E : env) (calls : list call) (w : window) :
  shown w ->
  exists w',
    play E calls w = (Ok tt, w')
    /\ rows w' = map item_text (History.download_history (history w'))
    /\ (length (rows w') <= 100)%nat.
Proof.
  intros Hshown. destruct (play_runs E calls w Hshown) as (w' & Hrun & Hl & Hn).
  exists w'. split; [exact Hrun|]. unfold rows. rewrite Hl.
  split; [reflexivity|]. now rewrite length_map.
Qed.

Lemma play_keeps_shown_witness :
  exists w',
    play desk [StartDownload;
               DownloadFinished true "Download completed successfully!"
                 "Artist - One" "2024-01-01 12:00:00";
               ClearHistory false;
               DownloadFinished false "No URL provided" "" ""] opened
    = (Ok tt, w')
    /\ rows w' = map item_text (History.download_history (history w'))
    /\ (length (rows w') <= 100)%nat.
Proof.
  apply (play_keeps_shown desk _ opened). split; [reflexivity|cbn; lia].
Defined.

(** X24. [start_download] never raises and changes neither the form nor
    the history.  Either it starts no worker and leaves console, bar and
    status as they were (empty URL, or the download directory could not be
    made), or it starts exactly one worker, built from the form: then the
    URL is not empty, the download directory exists, the console is
    empty, the bar is at 0 and the status reads [Downloading...]. *)
Theorem start_download_guard (E : env) (w : window) :
  let f := inputs w in
  exists w' events,
    start_download E w = (Ok tt, w')
    /\ trace w' = trace w ++ events
    /\ inputs w' = f /\ history w' = history w
    /\ ((started events = []
         /\ console_text w' = console_text w /\ display w' = display w)
        \/ (started events
            = [{| Download.url := url_entry f;
                  Download.download_path := download_location_entry f;
                  Download.quality := quality_combo f;
                  Download.format_type := format_combo f;
                  Download.use_auth := auth_checkbox f |}]
            /\ Py.truthy (url_entry f) = true
            /\ download_location_entry f ∈ existing w'
            /\ console_text w' = []
            /\ display w' = {| Progress.bar := 0;
                               Progress.status := "Downloading..." |})).
Proof.
  intros f. subst f. destruct w as [f c d h s sf dir ex t]. slots.
  destruct (Py.truthy (url_entry f)) eqn:Hurl; cbn.
  - destruct (bool_decide (download_location_entry f ∈ ex)) eqn:Hpresent; cbn.
    + eexists _, [_]. split; [reflexivity|]. cbn.
      do 3 (split; [reflexivity|]). right.
      split; [reflexivity|]. split; [reflexivity|].
      split; [exact (proj1 (bool_decide_eq_true _) Hpresent)|].
      split; reflexivity.
    + destruct (makedirs_error E (download_location_entry f)); cbn.
      * eexists _, [_]. split; [reflexivity|]. cbn.
        do 3 (split; [reflexivity|]). left. repeat split.
      * eexists _, [_]. split; [reflexivity|]. cbn.
        do 3 (split; [reflexivity|]). right.
        split; [reflexivity|]. split; [reflexivity|].
        split; [set_solver|]. split; reflexivity.
  - eexists _, [_]. split; [reflexivity|]. cbn.
    do 3 (split; [reflexivity|]). left. repeat split.
Qed.

(** X25. The two folder dialogs do the same to the window, their own
    record of the dialog apart, and leave history and progress display
    alone.  With a folder chosen, both location fields hold it.  When the
    settings file is written, the setting in memory and the file agree and
    hold the folder.  When the write is refused before the file is opened,
    the file is left as it was.  When it breaks off in the dump, the
    setting in memory holds the folder and the file is left torn, holding
    neither the old nor the new settings.  With the dialog cancelled,
    nothing but the record of the dialog changes. *)
Theorem browse_syncs (E : env) (folder : string) (w : window) :
  exists w1 w2,
    browse_download_location E folder w = (Ok tt, w1)
    /\ browse_location E folder w = (Ok tt, w2)
    /\ with_trace (fun _ => []) w2 = with_trace (fun _ => []) w1
    /\ history w1 = history w /\ display w1 = display w
    /\ if Py.truthy folder
       then download_location_entry (inputs w1) = folder
            /\ location_entry (inputs w1) = folder
            /\ match save_end E w "settings.json" with
               | Written =>
                   settings w1 !! "download_location" = Some folder
                   /\ settings_file w1 = Some (Json (settings w1))
               | Refused => settings_file w1 = settings_file w
               | Broken =>
                   settings w1 !! "download_location" = Some folder
                   /\ settings_file w1 = Some Torn
               end
       else w1 = with_trace
                   (fun t => t ++ [FolderDialog
                                     (download_location_entry (inputs w))]) w.
Proof.
  destruct w as [f c d h s sf dir ex t]. unfold save_end. slots.
  destruct (Py.truthy folder); oracle E; eexists _, _;
    (split; [reflexivity|]); (split; [reflexivity|]); cbn;
    repeat split; try reflexivity; try apply lookup_insert_eq.
Qed.

Lemma load_history_runs (E : env) (w : window) :
  exists w',
    load_history E w
    = (Ok match History.history_file (history w) with
          | Some (Json entries) =>
              match read_error E (path_join E (app_data_dir w)
                                    "download_history.json") with
              | Some _ => []
              | None => entries
              end
          | _ => []
          end, w').
Proof.
  destruct w as [f c d [dh hf hl] s sf dir ex t]. slots.
  destruct hf as [[entries|]|]; oracle E; eexists; reflexivity.
Qed.

(** X26. Adding an entry and then loading the history, as a restart
    does.  When the write was completed, the result is the history with
    the new entry at its head, capped at 100, or empty when the file
    cannot be read.  When the write was refused before the file was
    opened, the result is what the file held before (empty when there was
    none, or when it was torn or cannot be read).  When the write broke
    off in the dump, the result is empty: the old history is lost with the
    new one. *)
Theorem history_survives_restart (E : env) (entry : History.entry)
    (w : window) :
  let unreadable :=
    read_error E (path_join E (app_data_dir w) "download_history.json") in
  exists w1 w2 loaded,
    add_to_history E entry w = (Ok tt, w1)
    /\ load_history E w1 = (Ok loaded, w2)
    /\ loaded
       = match save_end E w "download_history.json" with
         | Written =>
             match unreadable with
             | Some _ => []
             | None => History.insert_capped entry
                         (History.download_history (history w))
             end
         | Refused =>
             match History.history_file (history w) with
             | Some (Json entries) =>
                 match unreadable with Some _ => [] | None => entries end
             | _ => []
             end
         | Broken => []
         end.
Proof.
  intros unreadable.
  destruct (add_to_history_runs E entry w)
    as (w1 & Hadd & Hh & _ & _ & _ & _ & _ & Hdir).
  destruct (load_history_runs E w1) as (w2 & Hload).
  eexists w1, w2, _. split; [exact Hadd|]. split; [exact Hload|].
  rewrite Hdir. fold unreadable.
  rewrite Hh. unfold History.add_to_history, History.save_history.
  destruct (save_end E w "download_history.json");
    cbn [History.history_file History.update_history_display
         History.download_history]; reflexivity.
Qed.

(** X27. [clear_history] never raises and leaves the form and the
    progress display alone.  After the answer Yes the history and the
    widget are empty; the file holds the empty list when the write was
    completed, is what it was when the write was refused before the file
    was opened, and is torn when the write broke off in the dump; a
    failure is reported on the console.  After any other answer nothing
    changes but the record of the question. *)
Theorem clear_history_empties (E : env) (reply : bool) (w : window) :
  exists w',
    clear_history E reply w = (Ok tt, w')
    /\ inputs w' = inputs w /\ display w' = display w
    /\ if reply
       then History.download_history (history w') = []
            /\ rows w' = []
            /\ History.history_file (history w')
               = match save_end E w "download_history.json" with
                 | Written => Some (Json [])
                 | Refused => History.history_file (history w)
                 | Broken => Some Torn
                 end
            /\ console_text w'
               = console_text w
                 ++ match save_failure E w "download_history.json" with
                    | Some e => ["Error saving history: " +:+ str e]
                    | None => []
                    end
       else w' = with_trace
                   (fun t => t ++ [Question "Clear History"
                                     "Are you sure you want to clear your download history?"])
                   w.
Proof.
  destruct w as [f c d [dh hf hl] s sf dir ex t].
  unfold save_end, save_failure, rows. slots.
  destruct reply; oracle E; eexists; (split; [reflexivity|]); cbn;
    rewrite ?app_nil_r; repeat split; reflexivity.
Qed.

(** X28. Choosing a folder and then loading the settings, as a restart
    does: when the file was written and can be read, the result is the
    settings with the chosen folder as download location; when there was
    no file and none could be written, or the file cannot be read, it is
    the default location alone. *)
Theorem settings_survive_restart (E : env) (folder music : string)
    (w : window) :
  Py.truthy folder = true ->
  exists w1 w2 loaded,
    browse_location E folder w = (Ok tt, w1)
    /\ load_settings E music w1 = (Ok loaded, w2)
    /\ (saves E w "settings.json" = true ->
        read_error E (path_join E (app_data_dir w) "settings.json") = None ->
        loaded = <["download_location" := folder]> (settings w)
        /\ loaded !! "download_location" = Some folder)
    /\ (settings_file w = None -> saves E w "settings.json" = false ->
        loaded = {[ "download_location" := music ]})
    /\ (settings_file w1 <> None ->
        read_error E (path_join E (app_data_dir w) "settings.json") <> None ->
        loaded = {[ "download_location" := music ]}).
Proof.
  intros Hfolder. destruct w as [f c d h s sf dir ex t].
  unfold saves, save_failure. slots. rewrite Hfolder.
  destruct sf as [[values|]|]; oracle E; eexists _, _, _;
    (split; [reflexivity|]); oracle E;
    (split; [reflexivity|]); cbn;
    repeat split; try reflexivity; try discriminate; try congruence;
    try (intros; apply lookup_insert_eq).
Qed.

Lemma settings_survive_restart_witness :
  exists w1 w2 loaded,
    browse_location desk "D:/Songs" opened = (Ok tt, w1)
    /\ load_settings desk "C:/Users/me/Music" w1 = (Ok loaded, w2)
    /\ (saves desk opened "settings.json" = true ->
        read_error desk (path_join desk (app_data_dir opened) "settings.json")
        = None ->
        loaded = <["download_location" := "D:/Songs"]> (settings opened)
        /\ loaded !! "download_location" = Some "D:/Songs")
    /\ (settings_file opened = None ->
        saves desk opened "settings.json" = false ->
        loaded = {[ "download_location" := "C:/Users/me/Music" ]})
    /\ (settings_file w1 <> None ->
        read_error desk (path_join desk (app_data_dir opened) "settings.json")
        <> None ->
        loaded = {[ "download_location" := "C:/Users/me/Music" ]}).
Proof.
  apply (settings_survive_restart desk "D:/Songs" "C:/Users/me/Music" opened).
  reflexivity.
Defined.

End WindowProps.
